(** * photoExport: export reconciliation of a photo library

    A shallow embedding of [photoExport.py] and the properties of its
    filename canonicalisation, duplicate reconciliation, timestamp
    synchronisation and driver loop.

    Python values are represented as follows.
    - [str] is a list of characters ([list ascii]); the model covers
      ASCII filenames and paths, which is what [\d], [lower()] and the
      case-insensitive match are defined on here.
    - [int] is [Z].
    - The module globals [report] and [failed_files] are an explicit
      state threaded through every function that mutates them.
    - Calls that leave the module (the filesystem, the image libraries,
      the photo library, the clock, the console) are events of a free
      monad; an environment answers them. *)

From Stdlib Require Import ZArith Ascii String DecimalString.
From stdpp Require Import base decidable option list strings gmap.

Local Open Scope string_scope.
Local Open Scope list_scope.
Local Open Scope Z_scope.

(** ** Strings *)

Abbreviation str := (list ascii).

(** String literals are read as Python strings. *)
Coercion list_ascii_of_string : string >-> list.

Module Str.

Definition is_upper (c : ascii) : bool :=
  (65 <=? nat_of_ascii c)%nat && (nat_of_ascii c <=? 90)%nat.

Definition is_digit (c : ascii) : bool :=
  (48 <=? nat_of_ascii c)%nat && (nat_of_ascii c <=? 57)%nat.

Definition lower_char (c : ascii) : ascii :=
  if is_upper c then ascii_of_nat (nat_of_ascii c + 32) else c.

(** [s.lower()] *)
Definition lower (s : str) : str := map lower_char s.

(** [s == t] *)
Definition eqb (s t : str) : bool := bool_decide (s = t).

(** [s.startswith(p)] *)
Fixpoint startswith (s p : str) : bool :=
  match p, s with
  | [], _ => true
  | c :: p', d :: s' => bool_decide (c = d) && startswith s' p'
  | _ :: _, [] => false
  end.

(** [s.endswith(p)] *)
Definition endswith (s p : str) : bool :=
  (length p <=? length s)%nat && eqb (drop (length s - length p) s) p.

(** [s.endswith((p1, p2, ...))] *)
Definition endswith_any (s : str) (ps : list str) : bool :=
  existsb (endswith s) ps.

(** [s.rfind(c)] for a one-character [c]: the highest index of [c], or -1. *)
Fixpoint rfind_from (i : Z) (c : ascii) (s : str) : Z :=
  match s with
  | [] => -1
  | d :: s' =>
      let r := rfind_from (i + 1) c s' in
      if 0 <=? r then r else if bool_decide (d = c) then i else -1
  end.

Definition rfind (c : ascii) (s : str) : Z := rfind_from 0 c s.

(** The slices [s[:i]] and [s[i:]] for [0 <= i]. *)
Definition upto (i : Z) (s : str) : str := take (Z.to_nat i) s.
Definition from (i : Z) (s : str) : str := drop (Z.to_nat i) s.

(** [s.replace(c, t)] for a one-character [c]: every occurrence is replaced. *)
Definition replace (c : ascii) (t : str) (s : str) : str :=
  flat_map (fun d => if bool_decide (d = c) then t else [d]) s.

(** [s.rstrip(c)] for a one-character [c]. *)
Fixpoint rstrip (c : ascii) (s : str) : str :=
  match s with
  | [] => []
  | d :: s' =>
      match rstrip c s' with
      | [] => if bool_decide (d = c) then [] else [d]
      | t => d :: t
      end
  end.

(** [str(n)] for an integer. *)
Definition of_Z (n : Z) : str :=
  list_ascii_of_string (NilZero.string_of_int (Z.to_int n)).

(** [f"{n:02}"]: decimal, zero-padded to width two. *)
Definition of_Z_02 (n : Z) : str :=
  let d := of_Z n in
  if (length d <? 2)%nat then "0" ++ d else d.

End Str.

(** ** [os.path] (POSIX flavour) *)

Module Path.

Definition sep : ascii := "/"%char.
Definition extsep : ascii := "."%char.

(** [os.path.splitext]: the extension starts at the last dot of the last
    component, unless that component has only dots before it. *)
Definition splitext (p : str) : str * str :=
  let sepIndex := Str.rfind sep p in
  let dotIndex := Str.rfind extsep p in
  if sepIndex <? dotIndex then
    let leading := take (Z.to_nat (dotIndex - (sepIndex + 1)))
                        (Str.from (sepIndex + 1) p) in
    if existsb (fun c => negb (bool_decide (c = extsep))) leading
    then (Str.upto dotIndex p, Str.from dotIndex p)
    else (p, [])
  else (p, []).

(** [os.path.basename] *)
Definition basename (p : str) : str :=
  Str.from (Str.rfind sep p + 1) p.

(** [os.path.dirname] *)
Definition dirname (p : str) : str :=
  let head := Str.upto (Str.rfind sep p + 1) p in
  if negb (Str.eqb head []) && negb (forallb (fun c => bool_decide (c = sep)) head)
  then Str.rstrip sep head
  else head.

(** [os.path.join(a, b)] *)
Definition join (a b : str) : str :=
  if Str.startswith b [sep] then b
  else if Str.eqb a [] || Str.endswith a [sep] then a ++ b
  else a ++ [sep] ++ b.

End Path.

(** ** Regular expressions

    The two patterns of the program use literals, [\d], a bounded
    repetition, an alternation and the anchors [^] and [$]. The matcher
    is the backtracking one of [re]: alternatives are tried left to
    right and [search] returns the leftmost match. *)

Module Re.

Inductive regex : Type :=
| Lit (c : ascii)
| Digit
| Seq (r1 r2 : regex)
| Alt (r1 r2 : regex)
| Rep (r : regex) (n : nat)
| Bol
| Eol
| Eps.

(** A literal string. *)
Fixpoint lits (s : str) (k : regex) : regex :=
  match s with
  | [] => k
  | c :: s' => Seq (Lit c) (lits s' k)
  end.

Definition char_eq (ignorecase : bool) (c d : ascii) : bool :=
  if ignorecase then bool_decide (Str.lower_char c = Str.lower_char d)
  else bool_decide (c = d).

(** [go ic r pos rest k]: match [r] at offset [pos], where [rest] is the
    input from [pos] on, and continue with [k] at the offset reached. *)
Fixpoint go (ic : bool) (r : regex) (pos : nat) (rest : str)
    (k : nat -> str -> option nat) {struct r} : option nat :=
  match r with
  | Lit c =>
      match rest with
      | d :: rest' => if char_eq ic c d then k (S pos) rest' else None
      | [] => None
      end
  | Digit =>
      match rest with
      | d :: rest' => if Str.is_digit d then k (S pos) rest' else None
      | [] => None
      end
  | Seq r1 r2 => go ic r1 pos rest (fun pos' rest' => go ic r2 pos' rest' k)
  | Alt r1 r2 =>
      match go ic r1 pos rest k with
      | Some e => Some e
      | None => go ic r2 pos rest k
      end
  | Rep r' n =>
      (fix rep (n : nat) (pos : nat) (rest : str) : option nat :=
         match n with
         | O => k pos rest
         | S n' => go ic r' pos rest (fun pos' rest' => rep n' pos' rest')
         end) n pos rest
  | Bol => if bool_decide (pos = O) then k pos rest else None
  | Eol =>
      if Str.eqb rest [] || Str.eqb rest ["010"%char] then k pos rest else None
  | Eps => k pos rest
  end.

(** A match object: the offsets of [group(0)]. *)
Record matched := { m_start : nat; m_end : nat }.

(** [re.match(r, s, flags)] *)
Definition match_ (ic : bool) (r : regex) (s : str) : option matched :=
  match go ic r O s (fun e _ => Some e) with
  | Some e => Some {| m_start := O; m_end := e |}
  | None => None
  end.

Fixpoint search_from (ic : bool) (r : regex) (pos : nat) (rest : str)
    : option matched :=
  match go ic r pos rest (fun e _ => Some e) with
  | Some e => Some {| m_start := pos; m_end := e |}
  | None =>
      match rest with
      | [] => None
      | _ :: rest' => search_from ic r (S pos) rest'
      end
  end.

(** [re.search(r, s)] *)
Definition search (ic : bool) (r : regex) (s : str) : option matched :=
  search_from ic r O s.

(** [m.group(0)] *)
Definition group0 (s : str) (m : matched) : str :=
  take (m_end m - m_start m) (drop (m_start m) s).

End Re.

(** ** Filename rules of the program *)

(** [r'^IMG_\d{4}\.(jpg|heic)$'] *)
Definition canonical_re : Re.regex :=
  Re.Seq Re.Bol
    (Re.lits "IMG_"
       (Re.Seq (Re.Rep Re.Digit 4)
          (Re.Seq (Re.Lit "."%char)
             (Re.Seq (Re.Alt (Re.lits "jpg" Re.Eps)
                             (Re.lits "heic" Re.Eps))
                Re.Eol)))).

(** [r'IMG_\d{4}'] *)
Definition img_re : Re.regex := Re.lits "IMG_" (Re.Rep Re.Digit 4).

Definition extract_img_pattern (filename : str) : str :=
  if negb (Str.endswith_any (Str.lower filename) [".jpg" : str; ".heic" : str])
  then filename
  else if bool_decide (is_Some (Re.match_ true canonical_re filename))
  then filename
  else
    match Re.search false img_re filename with
    | Some m =>
        let file_extension := snd (Path.splitext filename) in
        Re.group0 filename m ++ file_extension
    | None => filename
    end.

Definition get_live_photo_name (photo_name : str) : str :=
  let base_name := fst (Path.splitext photo_name) in
  base_name ++ "_HEVC.MOV".

(** The path of the copy that the export would leave beside [path]
    (line 167 of the source). *)
Definition duplicate_path (path : str) : str :=
  Path.join (Path.dirname path)
            (Str.replace "."%char " (1)." (Path.basename path)).

(** ** Dates

    [datetime.date] and [datetime.datetime] carry their calendar fields;
    dates are ordered and shifted through [toordinal], the proleptic
    Gregorian day number, as in the [datetime] module. *)

Record date := { d_year : Z; d_month : Z; d_day : Z }.

Record datetime := {
  year : Z; month : Z; day : Z;
  hour : Z; minute : Z; second : Z; microsecond : Z;
  utcoffset : Z  (* seconds east of UTC *)
}.

Module Datetime.

Definition is_leap (y : Z) : bool :=
  (y mod 4 =? 0) && (negb (y mod 100 =? 0) || (y mod 400 =? 0)).

Definition days_before_year (y : Z) : Z :=
  let y1 := y - 1 in y1 * 365 + y1 / 4 - y1 / 100 + y1 / 400.

Definition DAYS_BEFORE_MONTH : list Z :=
  [-1; 0; 31; 59; 90; 120; 151; 181; 212; 243; 273; 304; 334].

Definition days_before_month (y m : Z) : Z :=
  nth (Z.to_nat m) DAYS_BEFORE_MONTH 0
  + (if (2 <? m) && is_leap y then 1 else 0).

(** [d.toordinal()] *)
Definition toordinal (d : date) : Z :=
  days_before_year (d_year d) + days_before_month (d_year d) (d_month d)
  + d_day d.

(** [dt.date()] *)
Definition date_of (dt : datetime) : date :=
  {| d_year := year dt; d_month := month dt; d_day := day dt |}.

(** [dt.timestamp()], in microseconds since the epoch (the source holds
    the same instant as a float number of seconds). *)
Definition timestamp (dt : datetime) : Z :=
  ((toordinal (date_of dt) - 719163) * 86400
   + hour dt * 3600 + minute dt * 60 + second dt - utcoffset dt) * 1000000
  + microsecond dt.

End Datetime.

(** ** Data of the program *)

(** What the program reads of an [osxphotos.PhotoInfo]. The record is
    that of a photo whose files are in the library: [path], and
    [path_edited] where it is read (for a photo with adjustments), are
    strings. For a file that is missing osxphotos gives [None], on which
    [os.path.splitext] at the head of [file_hashes_match] raises a
    [TypeError] before any file is read; such a photo is not a value of
    this type. *)
Module PhotoInfo.
Record t := {
  original_filename : str;
  date : datetime;
  hasadjustments : bool;
  live_photo : bool;
  path : str;
  path_edited : str
}.
End PhotoInfo.
Abbreviation Photo := PhotoInfo.t.

(** The [report] dictionary: its five keys. *)
Record Report := {
  originals_exported : Z;
  edits_exported : Z;
  live_photos_exported : Z;
  duplicates_skipped : Z;
  duplicates_created : Z
}.

(** An element of [failed_files]. *)
Record FailedFile := {
  ff_path : str;
  ff_date : datetime;
  ff_timestamp : Z
}.

(** The mutable module globals. *)
Record Globals := {
  report : Report;
  failed_files : list FailedFile
}.

Definition initial_globals : Globals :=
  {| report := {| originals_exported := 0; edits_exported := 0;
                  live_photos_exported := 0; duplicates_skipped := 0;
                  duplicates_created := 0 |};
     failed_files := [] |}.

(** Constants and flags of the module. *)
Definition EXPORT_PATH : str :=
  "/Volumes/Archive/Picture Sources 01 RAW/15. iCloud Photos".
Definition OVERLAP_PERIOD : Z := 35.
Definition VERBOSE : bool := true.
Definition PAUSE_AFTER_EXPORT : bool := false.
Definition SUPPORTED_IMAGE_FORMATS : list str :=
  [".jpg" : str; ".jpeg" : str; ".png" : str; ".bmp" : str; ".tiff" : str;
   ".gif" : str; ".heic" : str; ".avif" : str].

(** ** Exceptions and results *)

Inductive exn : Type :=
| FileNotFoundError (msg : str)
| UnidentifiedImageError (msg : str)
| OtherError (name msg : str).

Inductive res (A : Type) : Type :=
| Return (a : A)
| Raise (e : exn).
Arguments Return {A} a.
Arguments Raise {A} e.

(** ** External calls *)

(** Values held by the image libraries. *)
Definition heif_file := str.
Definition pil_image := str.
Definition image_hash := str.

(** Console output, by the statement that prints it. *)
Inductive message : Type :=
| msg_exporting (is_edited is_live : bool) (p : str)
| msg_skipping_duplicate (is_edited is_live : bool) (p : str)
| msg_skipping_mismatch (is_edited is_live : bool) (p : str)
| msg_duplicate_created (is_edited is_live : bool) (p : str)
| msg_failed_timestamp (p : str)
| msg_error_exporting (filename : str) (e : exn)
| msg_error_processing (photo_path existing_path : str) (e : exn)
| msg_found (total : Z) (start_ordinal : Z)
| msg_report_header
| msg_counter (label : str) (value : Z)
| msg_failed_header
| msg_failed_file (f : FailedFile).

Inductive event : Type -> Type :=
| os_path_exists (p : str) : event bool
| os_utime (p : str) (atime mtime : Z) : event (res unit)
| os_makedirs (p : str) : event (res unit)
| time_sleep (seconds : Z) : event unit
| photo_export (photo : Photo) (dest filename : str)
    (use_photos_export live : bool) : event (res unit)
| pyheif_read (p : str) : event (res heif_file)
| Image_frombytes (h : heif_file) : event (res pil_image)
| Image_open (p : str) : event (res pil_image)
| imagehash_phash (i : pil_image) : event (res image_hash)
| read_file (p : str) : event (res str)
| sha256_hexdigest (data : str) : event str
| print (m : message) : event unit
| input (prompt : str) : event str
| photosdb_photos : event (list Photo).

(** A computation: a tree of external calls. *)
Inductive prog (A : Type) : Type :=
| Ret (a : A)
| Vis (X : Type) (e : event X) (k : X -> prog A).
Arguments Ret {A} a.
Arguments Vis {A X} e k.

Fixpoint pbind {A B} (m : prog A) (f : A -> prog B) : prog B :=
  match m with
  | Ret a => f a
  | Vis e k => Vis e (fun x => pbind (k x) f)
  end.

(** One answered call. *)
Inductive entry : Type :=
| Entry (X : Type) (e : event X) (x : X).
Arguments Entry {X} e x.

(** An environment answers every call and moves to a new state. *)
Definition handler (W : Type) : Type := forall X, event X -> W -> X * W.

Fixpoint run {W A} (h : handler W) (m : prog A) (w : W)
    : A * W * list entry :=
  match m with
  | Ret a => (a, w, [])
  | Vis e k =>
      let '(x, w1) := h _ e w in
      let '(a, w2, t) := run h (k x) w1 in
      (a, w2, Entry e x :: t)
  end.

(** *** Code without access to the globals *)

Definition io (A : Type) : Type := prog (res A).

Definition io_ret {A} (a : A) : io A := Ret (Return a).
Definition io_raise {A} (e : exn) : io A := Ret (Raise e).
Definition io_bind {A B} (m : io A) (f : A -> io B) : io B :=
  pbind m (fun r => match r with Return a => f a | Raise e => Ret (Raise e) end).

(** A call that cannot raise, and one that can. *)
Definition ask {X} (e : event X) : io X := Vis e (fun x => Ret (Return x)).
Definition call {X} (e : event (res X)) : io X := Vis e (fun r => Ret r).

(** [try: m  except ...: h e], where [h e = None] when no clause matches. *)
Definition io_try {A} (m : io A) (h : exn -> option (io A)) : io A :=
  pbind m (fun r =>
    match r with
    | Return a => Ret (Return a)
    | Raise e => match h e with Some k => k | None => Ret (Raise e) end
    end).

(** *** Code that reads and writes the globals *)

Definition M (A : Type) : Type := Globals -> prog (res A * Globals).

Definition ret {A} (a : A) : M A := fun g => Ret (Return a, g).
Definition raise {A} (e : exn) : M A := fun g => Ret (Raise e, g).
Definition bind {A B} (m : M A) (f : A -> M B) : M B :=
  fun g => pbind (m g) (fun '(r, g1) =>
    match r with Return a => f a g1 | Raise e => Ret (Raise e, g1) end).
Definition lift {A} (m : io A) : M A :=
  fun g => pbind m (fun r => Ret (r, g)).
Definition modify (f : Globals -> Globals) : M unit :=
  fun g => Ret (Return tt, f g).
Definition get : M Globals := fun g => Ret (Return g, g).
Definition try {A} (m : M A) (h : exn -> option (M A)) : M A :=
  fun g => pbind (m g) (fun '(r, g1) =>
    match r with
    | Return a => Ret (Return a, g1)
    | Raise e => match h e with Some k => k g1 | None => Ret (Raise e, g1) end
    end).

(** Sequencing, shared by both layers. The computation comes first so
    that the type of the bound variable is known in the continuation. *)
Class Sequenced (T : Type -> Type) := {
  unit_ : forall {A}, A -> T A;
  then_ : forall {A B}, T A -> (A -> T B) -> T B
}.
Global Instance io_sequenced : Sequenced io :=
  {| unit_ := @io_ret; then_ := @io_bind |}.
Global Instance M_sequenced : Sequenced M :=
  {| unit_ := @ret; then_ := @bind |}.

Declare Scope py_scope.
Delimit Scope py_scope with py.
Notation "x ← y ; z" := (then_ y (fun x => z)) (only parsing) : py_scope.
Notation "x ;; z" := (then_ x (fun _ => z)) (only parsing) : py_scope.
Notation "'return_' a" := (unit_ a) (at level 10, only parsing) : py_scope.
Local Open Scope py_scope.

Fixpoint for_each {A} (l : list A) (body : A -> M unit) : M unit :=
  match l with
  | [] => return_ tt
  | x :: l' => body x ;; for_each l' body
  end.

(** ** The program *)

Definition vprint (m : message) : io unit :=
  if VERBOSE then ask (print m) else return_ tt.

Definition set_file_timestamp (file_path : str) (timestamp : datetime)
    : io unit :=
  let epoch_time := Datetime.timestamp timestamp in
  call (os_utime file_path epoch_time epoch_time).

Definition heic_to_pil (image_path : str) : io pil_image :=
  heif ← call (pyheif_read image_path);
  call (Image_frombytes heif).

(** The blocks read by the loop are hashed in order: the digest is that
    of the whole content. *)
Definition file_hash (filepath : str) : io str :=
  data ← call (read_file filepath);
  ask (sha256_hexdigest data).

(** [file_hash(photo_path) == file_hash(existing_path)] *)
Definition hash_compare (photo_path existing_path : str) : io bool :=
  h1 ← file_hash photo_path;
  h2 ← file_hash existing_path;
  return_ (Str.eqb h1 h2).

Definition open_image (ext p : str) : io pil_image :=
  if Str.eqb ext ".heic" then heic_to_pil p else call (Image_open p).

(** The body of the [try] of [file_hashes_match]. *)
Definition perceptual_compare (photo_ext existing_ext : str)
    (photo_path existing_path : str) : io bool :=
  photo_image ← open_image photo_ext photo_path;
  existing_image ← open_image existing_ext existing_path;
  photo_hash ← call (imagehash_phash photo_image);
  existing_hash ← call (imagehash_phash existing_image);
  return_ (bool_decide (photo_hash = existing_hash)).

Definition supported (ext : str) : bool :=
  bool_decide (ext ∈ SUPPORTED_IMAGE_FORMATS).

Definition file_hashes_match (photo_path existing_path : str) : io bool :=
  let photo_ext := Str.lower (snd (Path.splitext photo_path)) in
  let existing_ext := Str.lower (snd (Path.splitext existing_path)) in
  if negb (supported photo_ext) || negb (supported existing_ext) then
    hash_compare photo_path existing_path
  else
    io_try (perceptual_compare photo_ext existing_ext photo_path existing_path)
      (fun e =>
         match e with
         | UnidentifiedImageError _ =>
             Some (hash_compare photo_path existing_path)
         | _ =>
             Some (ask (print (msg_error_processing photo_path existing_path e));;
                   hash_compare photo_path existing_path)
         end).

(** [report[key] += 1] *)
Definition bump (key : Report -> Report) : M unit :=
  modify (fun g => {| report := key (report g); failed_files := failed_files g |}).

Definition inc_originals_exported (r : Report) : Report :=
  {| originals_exported := originals_exported r + 1;
     edits_exported := edits_exported r;
     live_photos_exported := live_photos_exported r;
     duplicates_skipped := duplicates_skipped r;
     duplicates_created := duplicates_created r |}.
Definition inc_edits_exported (r : Report) : Report :=
  {| originals_exported := originals_exported r;
     edits_exported := edits_exported r + 1;
     live_photos_exported := live_photos_exported r;
     duplicates_skipped := duplicates_skipped r;
     duplicates_created := duplicates_created r |}.
Definition inc_live_photos_exported (r : Report) : Report :=
  {| originals_exported := originals_exported r;
     edits_exported := edits_exported r;
     live_photos_exported := live_photos_exported r + 1;
     duplicates_skipped := duplicates_skipped r;
     duplicates_created := duplicates_created r |}.
Definition inc_duplicates_skipped (r : Report) : Report :=
  {| originals_exported := originals_exported r;
     edits_exported := edits_exported r;
     live_photos_exported := live_photos_exported r;
     duplicates_skipped := duplicates_skipped r + 1;
     duplicates_created := duplicates_created r |}.
Definition inc_duplicates_created (r : Report) : Report :=
  {| originals_exported := originals_exported r;
     edits_exported := edits_exported r;
     live_photos_exported := live_photos_exported r;
     duplicates_skipped := duplicates_skipped r;
     duplicates_created := duplicates_created r + 1 |}.

(** The "Update report" block. *)
Definition count_exported (is_edited is_live : bool) : M unit :=
  if is_edited then bump inc_edits_exported
  else if is_live then bump inc_live_photos_exported
  else bump inc_originals_exported.

(** [failed_files.append({"path": ..., "date": ..., "timestamp": ...})] *)
Definition append_failed (p : str) (photo : Photo) : M unit :=
  modify (fun g =>
    {| report := report g;
       failed_files :=
         failed_files g ++
           [{| ff_path := p; ff_date := PhotoInfo.date photo;
               ff_timestamp := Datetime.timestamp (PhotoInfo.date photo) |}] |}).

(** The two [except] clauses that follow each timestamp attempt. *)
Definition timestamp_handlers (p : str) (photo : Photo)
    : exn -> option (M unit) :=
  fun e =>
    match e with
    | FileNotFoundError _ =>
        Some (lift (ask (print (msg_failed_timestamp p)));;
              append_failed p photo)
    | _ =>
        Some (lift (ask (print
                (msg_error_exporting (PhotoInfo.original_filename photo) e)));;
              append_failed p photo)
    end.

(** [for _ in range(n): ... else: raise FileNotFoundError(...)] *)
Fixpoint poll_timestamp (n : nat) (p : str) (photo : Photo) : io unit :=
  match n with
  | O => io_raise (FileNotFoundError
                     (p ++ " still does not exist after multiple checks."))
  | S n' =>
      (visible ← ask (os_path_exists p);
       if visible then set_file_timestamp p (PhotoInfo.date photo)
       else ask (time_sleep 1);; poll_timestamp n' p photo) : io unit
  end.

Definition pause_after_export : M unit :=
  if PAUSE_AFTER_EXPORT
  then lift (ask (input "Press Enter to continue to the next photo..."));; return_ tt
  else return_ tt.

Definition do_export (photo : Photo) (p : str) (is_edited is_live : bool)
    : M unit :=
  lift (call (photo_export photo (Path.dirname p) (Path.basename p)
                is_edited is_live)).

Definition export_photo_variant (photo : Photo) (path : str)
    (is_edited is_live : bool) : M bool :=
  target_exists ← lift (ask (os_path_exists path));
  if target_exists then
    let photo_path :=
      if is_edited then PhotoInfo.path_edited photo else PhotoInfo.path photo in
    same ← lift (file_hashes_match photo_path path);
    if negb same then
      lift (vprint (msg_exporting is_edited is_live path));;
      let duplicate_path := duplicate_path path in
      pre_existing_duplicate ← lift (ask (os_path_exists duplicate_path));
      returned ←
        (if negb pre_existing_duplicate then
           do_export photo path is_edited is_live;;
           return_ (None : option bool)
         else
           dup_same ← lift (file_hashes_match photo_path duplicate_path);
           if dup_same then
             lift (vprint (msg_skipping_duplicate is_edited is_live duplicate_path));;
             bump inc_duplicates_skipped;;
             return_ (Some true)
           else
             lift (vprint (msg_skipping_mismatch is_edited is_live duplicate_path));;
             return_ (None : option bool));
      match returned with
      | Some b => return_ b
      | None =>
          dup_now ← lift (ask (os_path_exists duplicate_path));
          path ←
            (if dup_now && negb pre_existing_duplicate then
               bump inc_duplicates_created;;
               lift (vprint (msg_duplicate_created is_edited is_live duplicate_path));;
               return_ duplicate_path
             else return_ path);
          try (lift (poll_timestamp 5 path photo))
              (timestamp_handlers path photo);;
          count_exported is_edited is_live;;
          pause_after_export;;
          return_ false
      end
    else
      lift (vprint (msg_skipping_duplicate is_edited is_live path));;
      bump inc_duplicates_skipped;;
      return_ true
  else
    lift (vprint (msg_exporting is_edited is_live path));;
    do_export photo path is_edited is_live;;
    try (lift (set_file_timestamp path (PhotoInfo.date photo)))
        (timestamp_handlers path photo);;
    pause_after_export;;
    count_exported is_edited is_live;;
    return_ false.

(** [START_DATE = TODAY - OVERLAP_PERIOD], as a day number. *)
Definition START_DATE (TODAY : date) : Z :=
  Datetime.toordinal TODAY - OVERLAP_PERIOD.

(** [photo.date.date() >= START_DATE] *)
Definition since_start (TODAY : date) (photo : Photo) : bool :=
  START_DATE TODAY <=? Datetime.toordinal (Datetime.date_of (PhotoInfo.date photo)).

Definition year_month_path (photo : Photo) : str :=
  Path.join (Path.join EXPORT_PATH (Str.of_Z (year (PhotoInfo.date photo))))
            (Str.of_Z_02 (month (PhotoInfo.date photo))).

Definition original_path (photo : Photo) : str :=
  Path.join (year_month_path photo)
            (extract_img_pattern (PhotoInfo.original_filename photo)).

Definition edited_path (photo : Photo) : str :=
  let original_filename := extract_img_pattern (PhotoInfo.original_filename photo) in
  let '(edited_filename_without_ext, file_extension) :=
    Path.splitext original_filename in
  Path.join (year_month_path photo)
            (edited_filename_without_ext ++ "-edited" ++ file_extension).

Definition live_photo_path (photo : Photo) : str :=
  let original_filename := extract_img_pattern (PhotoInfo.original_filename photo) in
  Path.join (year_month_path photo) (get_live_photo_name original_filename).

(** The body of the loop of [export_photos]. *)
Definition export_one (photo : Photo) : M unit :=
  lift (call (os_makedirs (year_month_path photo)));;
  is_duplicate ← export_photo_variant photo (original_path photo) false false;
  if negb is_duplicate then
    (if PhotoInfo.hasadjustments photo
     then export_photo_variant photo (edited_path photo) true false;; return_ tt
     else return_ tt);;
    (if PhotoInfo.live_photo photo
     then export_photo_variant photo (live_photo_path photo) false true;; return_ tt
     else return_ tt)
  else return_ tt.

Definition print_report : M unit :=
  g ← get;
  lift (ask (print msg_report_header));;
  lift (ask (print (msg_counter "Original photos exported" (originals_exported (report g)))));;
  lift (ask (print (msg_counter "Edited photos exported" (edits_exported (report g)))));;
  lift (ask (print (msg_counter "Live photos exported" (live_photos_exported (report g)))));;
  lift (ask (print (msg_counter "Duplicates skipped" (duplicates_skipped (report g)))));;
  lift (ask (print (msg_counter "Duplicates created" (duplicates_created (report g)))));;
  lift (ask (print msg_failed_header));;
  for_each (failed_files g)
    (fun file => lift (ask (print (msg_failed_file file)))).

Definition export_photos (TODAY : date) : M unit :=
  counted ← lift (ask photosdb_photos);
  let total_photos := Z.of_nat (length (filter (since_start TODAY) counted)) in
  lift (ask (print (msg_found total_photos (START_DATE TODAY))));;
  library ← lift (ask photosdb_photos);
  let photos_to_process := filter (since_start TODAY) library in
  for_each photos_to_process export_one;;
  print_report.

(** ** A reference environment

    The collaborators of the program are outside the repository. This
    environment follows their description in the specification and is
    used to run the program on concrete inputs. *)

Module Env.

Record file := {
  content : str;
  mtime : Z;
  visible_at : Z   (* the time from which the file can be seen *)
}.

Record world := {
  files : gmap str file;
  clock : Z;            (* seconds *)
  write_delay : Z;      (* seconds until a written file can be seen *)
  library : list Photo
}.

Definition visible (w : world) (p : str) : bool :=
  match files w !! p with
  | Some f => visible_at f <=? clock w
  | None => false
  end.

Definition with_files (w : world) (fs : gmap str file) : world :=
  {| files := fs; clock := clock w; write_delay := write_delay w;
     library := library w |}.

Definition advance (w : world) (seconds : Z) : world :=
  {| files := files w; clock := clock w + seconds;
     write_delay := write_delay w; library := library w |}.

(** [<stem> (n).<ext>] beside [target]. *)
Definition sibling (target : str) (n : Z) : str :=
  let '(stem, ext) := Path.splitext target in
  stem ++ " (" ++ Str.of_Z n ++ ")" ++ ext.

Fixpoint free_name (fs : gmap str file) (target : str) (n : Z) (fuel : nat)
    : option str :=
  match fs !! sibling target n with
  | None => Some (sibling target n)
  | Some _ =>
      match fuel with
      | O => None
      | S fuel' => free_name fs target (n + 1) fuel'
      end
  end.

(** Content that the image libraries refuse to decode. *)
Definition corrupt (c : str) : bool := Str.startswith c "corrupt".

Definition decode (w : world) (p : str) : res str :=
  match files w !! p with
  | None => Raise (FileNotFoundError p)
  | Some f =>
      if corrupt (content f) then Raise (UnidentifiedImageError p)
      else Return (content f)
  end.

(** Modelled from the spec: the export primitive of the Library Source
    (section 6), [export(directory, filename, useEditedSource,
    isLivePhoto)], which writes the source bytes to [directory/filename]
    and renames to a collision-suffixed sibling [<stem> (1).<ext>] if
    the target filename already exists at call time. Further siblings
    are numbered on; an existing file is never overwritten. *)
Definition export (w : world) (photo : Photo) (dest filename : str)
    (use_photos_export : bool) : res unit * world :=
  let source :=
    if use_photos_export then PhotoInfo.path_edited photo
    else PhotoInfo.path photo in
  match files w !! source with
  | None => (Raise (FileNotFoundError source), w)
  | Some src =>
      let target := Path.join dest filename in
      let written :=
        {| content := content src; mtime := clock w;
           visible_at := clock w + write_delay w |} in
      match files w !! target with
      | None => (Return tt, with_files w (<[target := written]> (files w)))
      | Some _ =>
          match free_name (files w) target 1 (size (files w)) with
          | Some p => (Return tt, with_files w (<[p := written]> (files w)))
          | None => (Raise (OtherError "OSError" target), w)
          end
      end
  end.

Definition touch (w : world) (p : str) (t : Z) : res unit * world :=
  match files w !! p with
  | Some f =>
      if visible_at f <=? clock w then
        (Return tt,
         with_files w (<[p := {| content := content f; mtime := t;
                                visible_at := visible_at f |}]> (files w)))
      else (Raise (FileNotFoundError p), w)
  | None => (Raise (FileNotFoundError p), w)
  end.

Definition handle : handler world :=
  fun X (e : event X) (w : world) =>
    match e in event X return X * world with
    | os_path_exists p => (visible w p, w)
    | os_utime p _ t => touch w p t
    | os_makedirs _ => (Return tt, w)
    | time_sleep s => (tt, advance w s)
    | photo_export photo dest filename use_photos_export _ =>
        export w photo dest filename use_photos_export
    | pyheif_read p => (decode w p, w)
    | Image_frombytes h => (Return h, w)
    | Image_open p => (decode w p, w)
    | imagehash_phash i => (Return i, w)
    | read_file p =>
        (match files w !! p with
         | Some f => Return (content f)
         | None => Raise (FileNotFoundError p)
         end, w)
    | sha256_hexdigest data => (data, w)
    | print _ => (tt, w)
    | input _ => ([], w)
    | photosdb_photos => (library w, w)
    end.

End Env.

(** * Vocabulary of the properties *)

(** [always m Q]: whatever the environment answers to the calls of [m],
    the trace [t] of the calls and the result [a] satisfy [Q t a]. *)
Fixpoint always {A} (m : prog A) (Q : list entry -> A -> Prop) : Prop :=
  match m with
  | Ret a => Q [] a
  | Vis e k => forall x, always (k x) (fun t a => Q (Entry e x :: t) a)
  end.

(** The counter of the variant that a call is for. *)
Definition variant_counter (is_edited is_live : bool) (r : Report) : Z :=
  if is_edited then edits_exported r
  else if is_live then live_photos_exported r
  else originals_exported r.

(** The "Update report" block, as a function on the report. *)
Definition inc_variant (is_edited is_live : bool) : Report -> Report :=
  if is_edited then inc_edits_exported
  else if is_live then inc_live_photos_exported
  else inc_originals_exported.

(** The entry that a failed timestamp appends for the path [p]. *)
Definition failure_of (p : str) (photo : Photo) : FailedFile :=
  {| ff_path := p; ff_date := PhotoInfo.date photo;
     ff_timestamp := Datetime.timestamp (PhotoInfo.date photo) |}.

(** The globals after a call that counted its variant as exported:
    [created] says whether [duplicates_created] went up, [failed] is the
    path of the failure entry, if one was appended. *)
Definition exported_state (photo : Photo) (is_edited is_live : bool)
    (g : Globals) (created : bool) (failed : option str) : Globals :=
  {| report :=
       inc_variant is_edited is_live
         (if created then inc_duplicates_created (report g) else report g);
     failed_files :=
       match failed with
       | Some p => failed_files g ++ [failure_of p photo]
       | None => failed_files g
       end |}.

(** The three ways a call can end: the variant is skipped as a
    duplicate, it is counted as exported, or an exception leaves the
    call before any global is written. A failure entry is for the path
    whose times were to be set: the sibling if one was created, else
    the target. *)
Inductive epv_outcome (photo : Photo) (path : str) (is_edited is_live : bool)
    (g : Globals) : res bool * Globals -> Prop :=
| epv_skipped :
    epv_outcome photo path is_edited is_live g
      (Return true,
       {| report := inc_duplicates_skipped (report g);
          failed_files := failed_files g |})
| epv_exported (created : bool) (failed : option str) :
    (forall p, failed = Some p ->
       p = if created then duplicate_path path else path) ->
    epv_outcome photo path is_edited is_live g
      (Return false, exported_state photo is_edited is_live g created failed)
| epv_raised (e : exn) :
    epv_outcome photo path is_edited is_live g (Raise e, g).

(** The arguments of a call of [photo.export]. *)
Definition export_call : Type := Photo * str * str * bool * bool.

(** The export that an answered call is, if it is one. *)
Definition as_export (en : entry) : option export_call :=
  match en with
  | Entry e _ =>
      match e with
      | photo_export photo dest filename use_photos_export live =>
          Some (photo, dest, filename, use_photos_export, live)
      | _ => None
      end
  end.

(** The calls of [photo.export] in a trace, in order. *)
Fixpoint export_calls (t : list entry) : list export_call :=
  match t with
  | [] => []
  | en :: t' =>
      match as_export en with
      | Some c => c :: export_calls t'
      | None => export_calls t'
      end
  end.

(** Every call of [m] satisfies [P], whatever the environment answers. *)
Definition confined (P : entry -> Prop) {A} (m : prog A) : Prop :=
  always m (fun t _ => Forall P t).

(** The same for code that reads and writes the globals. *)
Definition confinedM (P : entry -> Prop) {A} (m : M A) : Prop :=
  forall g, confined P (m g).

(** The call is not a call of [photo.export]. *)
Definition not_export (en : entry) : Prop := as_export en = None.

(** The exports of one call are for its photo, its path and its variant. *)
Definition export_of (photo : Photo) (path : str) (is_edited is_live : bool)
    (en : entry) : Prop :=
  forall c, as_export en = Some c ->
    c = (photo, Path.dirname path, Path.basename path, is_edited, is_live).

(** The photo of an export. *)
Definition exported_photo (c : export_call) : Photo := c.1.1.1.1.

(** Every export in the trace is for the photo [photo]. *)
Definition exports_only (photo : Photo) (en : entry) : Prop :=
  forall c, as_export en = Some c -> exported_photo c = photo.

(** The loop of [export_photos] over a list of photos: each photo is
    processed in turn, and an exception ends the loop. *)
Inductive loop_run {W} (h : handler W)
    : list Photo -> Globals -> W -> res unit * Globals -> W -> list entry -> Prop :=
| loop_done g w :
    loop_run h [] g w (Return tt, g) w []
| loop_next photo photos g w g1 w1 t1 out w2 t2 :
    run h (export_one photo g) w = ((Return tt, g1), w1, t1) ->
    loop_run h photos g1 w1 out w2 t2 ->
    loop_run h (photo :: photos) g w out w2 (t1 ++ t2)
| loop_raise photo photos g w e g1 w1 t1 :
    run h (export_one photo g) w = ((Raise e, g1), w1, t1) ->
    loop_run h (photo :: photos) g w (Raise e, g1) w1 t1.

(** The call is a [print]. *)
Definition is_print (en : entry) : Prop :=
  match en with
  | Entry e _ => match e with print _ => True | _ => False end
  end.

(** The token [IMG_] followed by four digits. *)
Definition img_token (m : str) : Prop :=
  exists d1 d2 d3 d4 : ascii,
    m = "IMG_" ++ [d1; d2; d3; d4]
    /\ Str.is_digit d1 = true /\ Str.is_digit d2 = true
    /\ Str.is_digit d3 = true /\ Str.is_digit d4 = true.

(** [s] starts with the token. *)
Definition token_at (s : str) : bool :=
  match s with
  | c1 :: c2 :: c3 :: c4 :: d1 :: d2 :: d3 :: d4 :: _ =>
      bool_decide (c1 = "I"%char) && bool_decide (c2 = "M"%char)
      && bool_decide (c3 = "G"%char) && bool_decide (c4 = "_"%char)
      && Str.is_digit d1 && Str.is_digit d2 && Str.is_digit d3 && Str.is_digit d4
  | _ => false
  end.

(** The offset of the leftmost token of [s]. *)
Fixpoint find_token (s : str) : option nat :=
  if token_at s then Some O
  else match s with
       | [] => None
       | _ :: s' => S <$> find_token s'
       end.

(** A canonical name: [IMG_], four digits and [.jpg] or [.heic], in any case. *)
Definition canonical_name (f : str) : Prop :=
  exists (c1 c2 c3 c4 d1 d2 d3 d4 : ascii) (ext : str),
    f = [c1; c2; c3; c4; d1; d2; d3; d4] ++ ext
    /\ Str.lower [c1; c2; c3; c4] = "img_"
    /\ Str.is_digit d1 = true /\ Str.is_digit d2 = true
    /\ Str.is_digit d3 = true /\ Str.is_digit d4 = true
    /\ (Str.lower ext = ".jpg" \/ Str.lower ext = ".heic").

(** The extension is [.jpg] or [.heic], in any case. *)
Definition jpg_or_heic (ext : str) : Prop :=
  Str.lower ext = ".jpg" \/ Str.lower ext = ".heic".

(** The token occurs somewhere in [f]. *)
Definition occurs_token (f : str) : Prop :=
  exists pre m post, f = pre ++ m ++ post /\ img_token m.

(** The Original of [photo] is on the destination: its target path can
    be seen and holds the bytes of the source, or it holds other bytes
    and the collision-suffixed sibling can be seen and holds the bytes
    of the source. *)
Definition settled (w : Env.world) (photo : Photo) : bool :=
  let target := original_path photo in
  match Env.files w !! PhotoInfo.path photo, Env.files w !! target with
  | Some src, Some tgt =>
      Env.visible w target
      && (Str.eqb (Env.content src) (Env.content tgt)
          || match Env.files w !! duplicate_path target with
             | Some dup =>
                 Env.visible w (duplicate_path target)
                 && Str.eqb (Env.content src) (Env.content dup)
             | None => false
             end)
  | _, _ => false
  end.

(** The globals after one duplicate has been skipped. *)
Definition skipped_once (g : Globals) : Globals :=
  {| report := inc_duplicates_skipped (report g);
     failed_files := failed_files g |}.

(** The globals after [n] duplicates have been skipped. *)
Definition skipped_more (n : Z) (g : Globals) : Globals :=
  {| report :=
       {| originals_exported := originals_exported (report g);
          edits_exported := edits_exported (report g);
          live_photos_exported := live_photos_exported (report g);
          duplicates_skipped := duplicates_skipped (report g) + n;
          duplicates_created := duplicates_created (report g) |};
     failed_files := failed_files g |}.

(** The number of [os.path.exists(p)] in a trace. *)
Fixpoint existence_checks (p : str) (t : list entry) : nat :=
  match t with
  | [] => O
  | Entry e _ :: t' =>
      match e with
      | os_path_exists q =>
          if bool_decide (q = p) then S (existence_checks p t')
          else existence_checks p t'
      | _ => existence_checks p t'
      end
  end.

(** The arguments of the calls of [time.sleep] in a trace, in order. *)
Fixpoint sleeps (t : list entry) : list Z :=
  match t with
  | [] => []
  | Entry e _ :: t' =>
      match e with
      | time_sleep s => s :: sleeps t'
      | _ => sleeps t'
      end
  end.

(** The state of the environment after [k] polls of [p] that were each
    followed by the pause of one second. *)
Fixpoint after_polls {W} (h : handler W) (p : str) (k : nat) (w : W) : W :=
  match k with
  | O => w
  | S k' =>
      after_polls h p k' (h _ (time_sleep 1) (h _ (os_path_exists p) w).2).2
  end.

(** The bytes that a variant is exported from. *)
Definition source_of (photo : Photo) (is_edited : bool) : str :=
  if is_edited then PhotoInfo.path_edited photo else PhotoInfo.path photo.

(** The file that a fresh export leaves once its times are set. *)
Definition exported_file (w : Env.world) (src : Env.file) (photo : Photo)
    : Env.file :=
  {| Env.content := Env.content src;
     Env.mtime := Datetime.timestamp (PhotoInfo.date photo);
     Env.visible_at := Env.clock w |}.

(** The globals after a variant has been counted as exported. *)
Definition counted (is_edited is_live : bool) (g : Globals) : Globals :=
  {| report := inc_variant is_edited is_live (report g);
     failed_files := failed_files g |}.

(** A path that [os.path.dirname] and [os.path.basename] take apart and
    [os.path.join] puts together again. *)
Definition normalised (p : str) : bool :=
  Str.eqb (Path.join (Path.dirname p) (Path.basename p)) p.

(** The destination paths of the variants of a photo. *)
Definition targets (photo : Photo) : list str :=
  original_path photo
  :: (if PhotoInfo.hasadjustments photo then [edited_path photo] else [])
  ++ (if PhotoInfo.live_photo photo then [live_photo_path photo] else []).

(** The destination once a variant has been exported to the free path [q]. *)
Definition add_variant (photo : Photo) (q : str) (is_edited : bool)
    (w : Env.world) : Env.world :=
  match Env.files w !! source_of photo is_edited with
  | Some src =>
      Env.with_files w (<[q := exported_file w src photo]> (Env.files w))
  | None => w
  end.

(** The destination once the variants of a photo have been exported. *)
Definition after_photo (w : Env.world) (photo : Photo) : Env.world :=
  let w1 := add_variant photo (original_path photo) false w in
  let w2 :=
    if PhotoInfo.hasadjustments photo
    then add_variant photo (edited_path photo) true w1 else w1 in
  if PhotoInfo.live_photo photo
  then add_variant photo (live_photo_path photo) false w2 else w2.

(** The globals once the variants of a photo have been counted. *)
Definition count_photo (g : Globals) (photo : Photo) : Globals :=
  let g1 := counted false false g in
  let g2 := if PhotoInfo.hasadjustments photo then counted true false g1 else g1 in
  if PhotoInfo.live_photo photo then counted false true g2 else g2.

(** What a first run needs of a photo: its sources are present, and its
    targets are distinct, free and normalised. *)
Definition exportable (w : Env.world) (photo : Photo) : Prop :=
  is_Some (Env.files w !! PhotoInfo.path photo)
  /\ (PhotoInfo.hasadjustments photo = true ->
      is_Some (Env.files w !! PhotoInfo.path_edited photo))
  /\ NoDup (targets photo)
  /\ Forall (fun q => Env.files w !! q = None /\ normalised q = true)
            (targets photo).

(** The destination once the variants of all the photos have been exported. *)
Fixpoint after_photos (w : Env.world) (photos : list Photo) : Env.world :=
  match photos with
  | [] => w
  | photo :: photos' => after_photos (after_photo w photo) photos'
  end.

(** The globals once the variants of all the photos have been counted. *)
Fixpoint count_photos (g : Globals) (photos : list Photo) : Globals :=
  match photos with
  | [] => g
  | photo :: photos' => count_photos (count_photo g photo) photos'
  end.

(** A destination on which a first run exports every variant of the
    photos: the targets of all their variants are distinct, free and
    normalised, and their sources are present. *)
Definition fresh_destination (w : Env.world) (photos : list Photo) : Prop :=
  NoDup (concat (map targets photos))
  /\ Forall (fun q => Env.files w !! q = None /\ normalised q = true)
            (concat (map targets photos))
  /\ Forall (fun photo =>
               is_Some (Env.files w !! PhotoInfo.path photo)
               /\ (PhotoInfo.hasadjustments photo = true ->
                   is_Some (Env.files w !! PhotoInfo.path_edited photo)))
            photos.

(** The sibling as the specification words it: [ (1)] is inserted once,
    before the final extension of the filename. *)
Definition sibling_per_spec (path : str) : str :=
  let '(stem, ext) := Path.splitext (Path.basename path) in
  Path.join (Path.dirname path) (stem ++ " (1)" ++ ext).

(** The calls of [os.utime] in a trace, in order: the path, the two
    times and the answer. *)
Fixpoint utimes (t : list entry) : list (str * Z * Z * res unit) :=
  match t with
  | [] => []
  | Entry e x :: t' =>
      match e in event X return X -> list (str * Z * Z * res unit) with
      | os_utime p atime mtime => fun r => (p, atime, mtime, r) :: utimes t'
      | _ => fun _ => utimes t'
      end x
  end.

(** An answered call that is the read of a file and raised [e]. *)
Inductive read_failure (e : exn) : entry -> Prop :=
| read_failure_intro p : read_failure e (Entry (read_file p) (Raise e)).

(** An answered call that is a [photo.export] and raised [e]. *)
Inductive export_failure (e : exn) : entry -> Prop :=
| export_failure_intro photo dest filename use_photos_export live :
    export_failure e
      (Entry (photo_export photo dest filename use_photos_export live) (Raise e)).

(** The last call of a trace satisfies [P]. *)
Definition ends_with (P : entry -> Prop) (t : list entry) : Prop :=
  exists t0 en, t = t0 ++ [en] /\ P en.

(** The call is no export, sets no time and does not pause. *)
Definition quiet (en : entry) : Prop :=
  match en with
  | Entry e _ =>
      match e with
      | photo_export _ _ _ _ _ | os_utime _ _ _ | time_sleep _ => False
      | _ => True
      end
  end.

(** A call of a decoder by [file_hashes_match a b]: both extensions are
    supported, the file is one of the two, and it is read with
    [pyheif.read] exactly when its extension is [.heic]. *)
Definition decoder_fits (a b : str) (en : entry) : Prop :=
  let ext p := Str.lower (Path.splitext p).2 in
  match en with
  | Entry e _ =>
      match e with
      | pyheif_read p =>
          supported (ext a) = true /\ supported (ext b) = true
          /\ (p = a \/ p = b) /\ ext p = ".heic"
      | Image_open p =>
          supported (ext a) = true /\ supported (ext b) = true
          /\ (p = a \/ p = b) /\ ext p <> ".heic"
      | Image_frombytes _ | imagehash_phash _ =>
          supported (ext a) = true /\ supported (ext b) = true
      | _ => True
      end
  end.

(** The directories asked of [os.makedirs] in a trace, in order. *)
Fixpoint makedirs_calls (t : list entry) : list str :=
  match t with
  | [] => []
  | Entry e _ :: t' =>
      match e with
      | os_makedirs p => p :: makedirs_calls t'
      | _ => makedirs_calls t'
      end
  end.

(** The messages printed in a trace, in order. *)
Fixpoint printed (t : list entry) : list message :=
  match t with
  | [] => []
  | Entry e _ :: t' =>
      match e with
      | print m => m :: printed t'
      | _ => printed t'
      end
  end.

(** The lines that the report has for the globals [g]. *)
Definition report_lines (g : Globals) : list message :=
  [msg_report_header;
   msg_counter "Original photos exported" (originals_exported (report g));
   msg_counter "Edited photos exported" (edits_exported (report g));
   msg_counter "Live photos exported" (live_photos_exported (report g));
   msg_counter "Duplicates skipped" (duplicates_skipped (report g));
   msg_counter "Duplicates created" (duplicates_created (report g));
   msg_failed_header]
  ++ map msg_failed_file (failed_files g).

(** What a piece of the run has added to the globals: [o], [e], [l],
    [s] and [c] to the five counters, and the entries [f] to the
    failure list. *)
Definition tally (g g' : Globals) (o e l s c : Z) (f : list FailedFile) : Prop :=
  originals_exported (report g') = originals_exported (report g) + o
  /\ edits_exported (report g') = edits_exported (report g) + e
  /\ live_photos_exported (report g') = live_photos_exported (report g) + l
  /\ duplicates_skipped (report g') = duplicates_skipped (report g) + s
  /\ duplicates_created (report g') = duplicates_created (report g) + c
  /\ failed_files g' = failed_files g ++ f.

(** A message about one variant: the lines of the report and the count
    of the photos found are not. *)
Definition variant_message (m : message) : Prop :=
  match m with
  | msg_exporting _ _ _ | msg_skipping_duplicate _ _ _
  | msg_skipping_mismatch _ _ _ | msg_duplicate_created _ _ _
  | msg_failed_timestamp _ | msg_error_exporting _ _
  | msg_error_processing _ _ _ => True
  | _ => False
  end.

(** A call made in the loop: it is no enumeration of the library, and
    what it prints is about one variant. *)
Definition body_entry (en : entry) : Prop :=
  match en with
  | Entry e _ =>
      match e with
      | photosdb_photos => False
      | print m => variant_message m
      | _ => True
      end
  end.

(** A call made for one variant: a call of the loop that makes no
    directory. *)
Definition inner (en : entry) : Prop :=
  match en with
  | Entry e _ =>
      match e with
      | os_makedirs _ | photosdb_photos => False
      | print m => variant_message m
      | _ => True
      end
  end.

(** The answers of the enumerations of the library in a trace, in order. *)
Fixpoint enumerations (t : list entry) : list (list Photo) :=
  match t with
  | [] => []
  | Entry e x :: t' =>
      match e in event X return X -> list (list Photo) with
      | photosdb_photos => fun photos => photos :: enumerations t'
      | _ => fun _ => enumerations t'
      end x
  end.

(** The number of photos that satisfy [p]. *)
Definition count (p : Photo -> bool) (photos : list Photo) : Z :=
  Z.of_nat (length (filter (fun photo => p photo = true) photos)).

(** The account of the loop over [photos], started with the globals
    [g], that made the calls [t] and ended with [out]. *)
Definition accounted (photos : list Photo) (g : Globals) (t : list entry)
    (out : res unit * Globals) : Prop :=
  exists (o e l s c : Z) (f : list FailedFile),
    let exports := Z.of_nat (length (export_calls t)) in
    tally g out.2 o e l s c f
    /\ (0 <= o /\ 0 <= e /\ 0 <= l /\ 0 <= s /\ 0 <= c)
    /\ c <= exports
    /\ Z.of_nat (length f) <= o + e + l
    /\ makedirs_calls t `prefix_of` map year_month_path photos
    /\ Forall body_entry t
    /\ (out.1 = Return tt ->
        exports <= o + e + l
        /\ o <= Z.of_nat (length photos) <= o + s
        /\ e <= count PhotoInfo.hasadjustments photos
        /\ l <= count PhotoInfo.live_photo photos
        /\ makedirs_calls t = map year_month_path photos).

Module Example.

(** A capture date, and the day of the run five days later. *)
Definition capture : datetime :=
  {| year := 2023; month := 6; day := 15;
     hour := 12; minute := 0; second := 0; microsecond := 0; utcoffset := 0 |}.

Definition TODAY : date := {| d_year := 2023; d_month := 6; d_day := 20 |}.

(** A photo with an edited version and a live companion. *)
Definition photo : Photo :=
  {| PhotoInfo.original_filename := "IMG_0042.HEIC";
     PhotoInfo.date := capture;
     PhotoInfo.hasadjustments := true;
     PhotoInfo.live_photo := true;
     PhotoInfo.path := "/library/originals/IMG_0042.HEIC";
     PhotoInfo.path_edited := "/library/edited/IMG_0042.jpeg" |}.

(** A file that has been on the disk from the start. *)
Definition stored (bytes : str) : Env.file :=
  {| Env.content := bytes; Env.mtime := 0; Env.visible_at := 0 |}.

Definition sources : gmap str Env.file :=
  <[ PhotoInfo.path photo := stored "original bytes" ]>
    (<[ PhotoInfo.path_edited photo := stored "edited bytes" ]> ∅).

(** The library and an empty destination. *)
Definition fresh : Env.world :=
  {| Env.files := sources; Env.clock := 0; Env.write_delay := 0;
     Env.library := [photo] |}.

(** The target path of the Original. *)
Definition target : str := original_path photo.

(** The target and its collision-suffixed sibling both hold other bytes. *)
Definition clash : Env.world :=
  {| Env.files :=
       <[ target := stored "other bytes" ]>
         (<[ duplicate_path target := stored "third bytes" ]> sources);
     Env.clock := 0; Env.write_delay := 0; Env.library := [photo] |}.

(** A destination on which a written file can be seen one second later. *)
Definition slow : Env.world :=
  {| Env.files := sources; Env.clock := 0; Env.write_delay := 1;
     Env.library := [photo] |}.

(** A source that the image libraries cannot decode. *)
Definition undecodable : Env.world :=
  {| Env.files :=
       <[ ("/a.jpg" : str) := stored "corrupt bytes" ]>
         (<[ ("/b.jpg" : str) := stored "corrupt bytes" ]> ∅);
     Env.clock := 0; Env.write_delay := 0; Env.library := [] |}.

End Example.

(** Further destinations and libraries. *)
Module Scenario.

(** A first file that the image libraries cannot decode, and no second
    file. *)
Definition torn : Env.world :=
  {| Env.files := <[ ("/a.jpg" : str) := Example.stored "corrupt bytes" ]> ∅;
     Env.clock := 0; Env.write_delay := 0; Env.library := [] |}.

(** The destination after a first run on the empty destination. *)
Definition archived : Env.world :=
  (run Env.handle (export_photos Example.TODAY initial_globals) Example.fresh).1.2.

(** The target of the Original holds other bytes, and has no sibling. *)
Definition mismatched : Env.world :=
  {| Env.files := <[ Example.target := Example.stored "other bytes" ]> Example.sources;
     Env.clock := 0; Env.write_delay := 0; Env.library := [Example.photo] |}.

(** The library lists the photo, and its files are gone. *)
Definition lost : Env.world :=
  {| Env.files := ∅; Env.clock := 0; Env.write_delay := 0;
     Env.library := [Example.photo] |}.

(** The destination just after an export that can be seen a second later. *)
Definition written_late : Env.world :=
  (run Env.handle
     (export_photo_variant Example.photo Example.target false false initial_globals)
     Example.slow).1.2.

(** A photo taken three years before the run, alone in the library. *)
Definition old_photo : Photo :=
  {| PhotoInfo.original_filename := "IMG_0007.JPG";
     PhotoInfo.date :=
       {| year := 2020; month := 1; day := 31;
          hour := 8; minute := 30; second := 0; microsecond := 0;
          utcoffset := 3600 |};
     PhotoInfo.hasadjustments := false;
     PhotoInfo.live_photo := false;
     PhotoInfo.path := "/library/originals/IMG_0007.JPG";
     PhotoInfo.path_edited := [] |}.

(** A library that holds this photo only. *)
Definition stale : Env.world :=
  {| Env.files := <[ PhotoInfo.path old_photo := Example.stored "old bytes" ]> ∅;
     Env.clock := 0; Env.write_delay := 0; Env.library := [old_photo] |}.

End Scenario.

(** * Properties *)

(** ** Running computations *)

Section Running.
Context {W : Type} (h : handler W).

Lemma run_pbind {A B} (m : prog A) (f : A -> prog B) (w : W) :
  run h (pbind m f) w =
    let '(a, w1, t1) := run h m w in
    let '(b, w2, t2) := run h (f a) w1 in
    (b, w2, t1 ++ t2).
Proof.
  revert w; induction m as [a | X e k IH]; intros w; simpl.
  - destruct (run h (f a) w) as [[b w2] t2]; reflexivity.
  - destruct (h X e w) as [x w1]. rewrite IH.
    destruct (run h (k x) w1) as [[a w2] t1].
    destruct (run h (f a) w2) as [[b w3] t2]; reflexivity.
Qed.

Lemma run_ask {X} (e : event X) (w : W) :
  run h (ask e) w = (Return (h X e w).1, (h X e w).2, [Entry e (h X e w).1]).
Proof. unfold ask; simpl. destruct (h X e w); reflexivity. Qed.

Lemma run_call {X} (e : event (res X)) (w : W) :
  run h (call e) w = ((h _ e w).1, (h _ e w).2, [Entry e (h _ e w).1]).
Proof. unfold call; simpl. destruct (h _ e w); reflexivity. Qed.

Lemma run_lift {A} (m : io A) (g : Globals) (w : W) :
  run h (lift m g) w =
    let '(r, w1, t) := run h m w in ((r, g), w1, t).
Proof.
  unfold lift. rewrite run_pbind.
  destruct (run h m w) as [[r w1] t]; simpl. by rewrite app_nil_r.
Qed.

Lemma run_bind {A B} (m : M A) (f : A -> M B) (g : Globals) (w : W) :
  run h (bind m f g) w =
    let '((r, g1), w1, t1) := run h (m g) w in
    match r with
    | Return a =>
        let '(out, w2, t2) := run h (f a g1) w1 in (out, w2, t1 ++ t2)
    | Raise e => ((Raise e, g1), w1, t1)
    end.
Proof.
  unfold bind. rewrite run_pbind.
  destruct (run h (m g) w) as [[[r g1] w1] t1].
  destruct r as [a | e]; simpl; [reflexivity | by rewrite app_nil_r].
Qed.

Lemma run_try {A} (m : M A) (hd : exn -> option (M A)) (g : Globals) (w : W) :
  run h (try m hd g) w =
    let '((r, g1), w1, t1) := run h (m g) w in
    match r with
    | Return a => ((Return a, g1), w1, t1)
    | Raise e =>
        match hd e with
        | Some k => let '(out, w2, t2) := run h (k g1) w1 in (out, w2, t1 ++ t2)
        | None => ((Raise e, g1), w1, t1)
        end
    end.
Proof.
  unfold try. rewrite run_pbind.
  destruct (run h (m g) w) as [[[r g1] w1] t1].
  destruct r as [a | e]; simpl; [by rewrite app_nil_r |].
  destruct (hd e); simpl; [reflexivity | by rewrite app_nil_r].
Qed.

Lemma run_io_bind {A B} (m : io A) (f : A -> io B) (w : W) :
  run h (io_bind m f) w =
    let '(r, w1, t1) := run h m w in
    match r with
    | Return a =>
        let '(out, w2, t2) := run h (f a) w1 in (out, w2, t1 ++ t2)
    | Raise e => (Raise e, w1, t1)
    end.
Proof.
  unfold io_bind. rewrite run_pbind.
  destruct (run h m w) as [[r w1] t1].
  destruct r as [a | e]; simpl; [reflexivity | by rewrite app_nil_r].
Qed.

Lemma run_io_try {A} (m : io A) (hd : exn -> option (io A)) (w : W) :
  run h (io_try m hd) w =
    let '(r, w1, t1) := run h m w in
    match r with
    | Return a => (Return a, w1, t1)
    | Raise e =>
        match hd e with
        | Some k => let '(out, w2, t2) := run h k w1 in (out, w2, t1 ++ t2)
        | None => (Raise e, w1, t1)
        end
    end.
Proof.
  unfold io_try. rewrite run_pbind.
  destruct (run h m w) as [[r w1] t1].
  destruct r as [a | e]; simpl; [by rewrite app_nil_r |].
  destruct (hd e); simpl; [reflexivity | by rewrite app_nil_r].
Qed.

End Running.

(** ** What holds of every outcome, whatever the environment answers *)

Lemma always_run {W A} (h : handler W) (m : prog A) Q (w : W) :
  always m Q -> Q (run h m w).2 (run h m w).1.1.
Proof.
  revert Q w; induction m as [a | X e k IH]; intros Q w HQ; simpl in *.
  - exact HQ.
  - destruct (h X e w) as [x w1]. specialize (IH x _ w1 (HQ x)).
    destruct (run h (k x) w1) as [[a w2] t]; exact IH.
Qed.

Lemma always_mono {A} (m : prog A) (Q Q' : list entry -> A -> Prop) :
  (forall t a, Q t a -> Q' t a) -> always m Q -> always m Q'.
Proof.
  revert Q Q'; induction m as [a | X e k IH]; intros Q Q' HQ Hm; simpl in *.
  - by apply HQ.
  - intros x. eapply IH; [| apply Hm]. intros t a; apply HQ.
Qed.

Lemma always_pbind {A B} (m : prog A) (f : A -> prog B) Q :
  always m (fun t1 a => always (f a) (fun t2 b => Q (t1 ++ t2) b)) ->
  always (pbind m f) Q.
Proof.
  revert Q; induction m as [a | X e k IH]; intros Q Hm; simpl in *.
  - exact Hm.
  - intros x. apply IH. exact (Hm x).
Qed.

(** Code without access to the globals returns them as they were, and
    nothing else is known of its result. *)
Lemma always_lift {A} (m : io A) (g : Globals) Q :
  always m (fun t r => Q t (r, g)) -> always (lift m g) Q.
Proof.
  intros Hm. unfold lift. apply always_pbind.
  eapply always_mono; [| exact Hm]. intros t r HQ; simpl. by rewrite app_nil_r.
Qed.

Lemma always_bind {A B} (m : M A) (f : A -> M B) (g : Globals) Q :
  always (m g) (fun t1 out =>
    match out.1 with
    | Return a => always (f a out.2) (fun t2 b => Q (t1 ++ t2) b)
    | Raise e => Q t1 (Raise e, out.2)
    end) ->
  always (bind m f g) Q.
Proof.
  intros Hm. unfold bind. apply always_pbind.
  eapply always_mono; [| exact Hm]. intros t [r g1]; simpl.
  destruct r; simpl; [done | by rewrite app_nil_r].
Qed.

Lemma always_try {A} (m : M A) (hd : exn -> option (M A)) (g : Globals) Q :
  always (m g) (fun t1 out =>
    match out.1 with
    | Return a => Q t1 (Return a, out.2)
    | Raise e =>
        match hd e with
        | Some k => always (k out.2) (fun t2 b => Q (t1 ++ t2) b)
        | None => Q t1 (Raise e, out.2)
        end
    end) ->
  always (try m hd g) Q.
Proof.
  intros Hm. unfold try. apply always_pbind.
  eapply always_mono; [| exact Hm]. intros t [r g1]; simpl.
  destruct r; simpl; [by rewrite app_nil_r |].
  destruct (hd e); simpl; [done | by rewrite app_nil_r].
Qed.

Lemma always_intro {A} (m : prog A) (Q : list entry -> A -> Prop) :
  (forall t a, Q t a) -> always m Q.
Proof.
  revert Q; induction m as [a | X e k IH]; intros Q HQ; simpl; [apply HQ |].
  intros x. apply IH. intros; apply HQ.
Qed.

Arguments bind : simpl never.
Arguments lift : simpl never.
Arguments try : simpl never.
Arguments modify : simpl never.
Arguments ret : simpl never.
Arguments get : simpl never.
Arguments io_bind : simpl never.
Arguments io_try : simpl never.
Arguments file_hashes_match : simpl never.
Arguments poll_timestamp : simpl never.
Arguments count_exported : simpl never.

Lemma always_ret {A} (a : A) (g : Globals)
    (Q : list entry -> res A * Globals -> Prop) :
  Q [] (Return a, g) -> always (ret a g) Q.
Proof. done. Qed.

Lemma always_modify (f : Globals -> Globals) (g : Globals)
    (Q : list entry -> res unit * Globals -> Prop) :
  Q [] (Return tt, f g) -> always (modify f g) Q.
Proof. done. Qed.

Lemma always_get (g : Globals)
    (Q : list entry -> res Globals * Globals -> Prop) :
  Q [] (Return g, g) -> always (get g) Q.
Proof. done. Qed.

Lemma always_ask {X} (e : event X) (g : Globals)
    (Q : list entry -> res X * Globals -> Prop) :
  (forall x, Q [Entry e x] (Return x, g)) -> always (lift (ask e) g) Q.
Proof. intros HQ. apply always_lift. simpl. exact HQ. Qed.

Lemma always_call {X} (e : event (res X)) (g : Globals)
    (Q : list entry -> res X * Globals -> Prop) :
  (forall r, Q [Entry e r] (r, g)) -> always (lift (call e) g) Q.
Proof. intros HQ. apply always_lift. simpl. exact HQ. Qed.

Lemma always_opaque {A} (m : io A) (g : Globals)
    (Q : list entry -> res A * Globals -> Prop) :
  (forall t r, Q t (r, g)) -> always (lift m g) Q.
Proof. intros HQ. apply always_lift, always_intro. intros; apply HQ. Qed.

(** ** Outcomes of one call of [export_photo_variant] *)

Lemma always_count_exported is_edited is_live g
    (Q : list entry -> res unit * Globals -> Prop) :
  Q [] (Return tt,
        {| report := inc_variant is_edited is_live (report g);
           failed_files := failed_files g |}) ->
  always (count_exported is_edited is_live g) Q.
Proof. unfold count_exported, inc_variant. destruct is_edited, is_live; done. Qed.

(** One step through the body of [export_photo_variant]: every answer of
    the environment is considered. *)
Ltac step :=
  lazymatch goal with
  | |- always (bind _ _ _) _ => apply always_bind
  | |- always (try _ _ _) _ => apply always_try
  | |- always (lift (ask _) _) _ => apply always_ask; intros ?
  | |- always (lift (call _) _) _ => apply always_call; intros [[]|?]
  | |- always (lift (vprint _) _) _ => apply always_ask; intros ?
  | |- always (lift (set_file_timestamp _ _) _) _ =>
      apply always_call; intros [[]|?]
  | |- always (lift _ _) _ => apply always_opaque; intros ? [?|?]
  | |- always (do_export _ _ _ _ _) _ => apply always_call; intros [[]|?]
  | |- always (ret _ _) _ => apply always_ret
  | |- always (bump _ _) _ => apply always_modify
  | |- always (modify _ _) _ => apply always_modify
  | |- always (get _) _ => apply always_get
  | |- always (append_failed _ _ _) _ => apply always_modify
  | |- always (count_exported _ _ _) _ => apply always_count_exported
  | |- always (pause_after_export _) _ => apply always_ret
  | |- always ((if ?b then _ else _) _) _ => destruct b
  | |- always (match ?b with Some _ => _ | None => _ end _) _ => destruct b
  | |- match timestamp_handlers _ _ ?e with Some _ => _ | None => _ end =>
      destruct e
  end;
  cbn [fst snd negb andb orb timestamp_handlers then_ unit_ M_sequenced].

Lemma export_photo_variant_outcomes photo path is_edited is_live g :
  always (export_photo_variant photo path is_edited is_live g)
    (fun _ out => epv_outcome photo path is_edited is_live g out).
Proof.
  unfold export_photo_variant.
  cbn [then_ unit_ M_sequenced].
  repeat step.
  all: first
    [ by constructor
    | refine (epv_exported _ _ _ _ _ true None _); by intros ? [=]
    | refine (epv_exported _ _ _ _ _ false None _); by intros ? [=]
    | refine (epv_exported _ _ _ _ _ true (Some _) _); by intros ? [= <-]
    | refine (epv_exported _ _ _ _ _ false (Some _) _); by intros ? [= <-] ].
Qed.

Lemma variant_counter_inc is_edited is_live r :
  variant_counter is_edited is_live (inc_variant is_edited is_live r)
  = variant_counter is_edited is_live r + 1.
Proof. destruct is_edited, is_live; reflexivity. Qed.

Lemma variant_counter_created is_edited is_live r :
  variant_counter is_edited is_live (inc_duplicates_created r)
  = variant_counter is_edited is_live r.
Proof. destruct is_edited, is_live; reflexivity. Qed.

(** C8: an entry is appended to the failure list only in a call that
    also counts its variant as exported. Whatever the environment
    answers, a call of [export_photo_variant] either leaves
    [failed_files] as it was, or appends exactly one entry, for the
    target path or its sibling and for the photo's capture date, and
    then it returns [False] with the counter
    of its variant (edits, live or originals) one higher: the timestamp
    failure does not cancel the export count. *)
Theorem C8_failure_entry_is_counted_as_exported
    {W : Type} (h : handler W) (w : W)
    (photo : Photo) (path : str) (is_edited is_live : bool) (g : Globals) :
  let '(out, g') := (run h (export_photo_variant photo path is_edited is_live g) w).1.1 in
  failed_files g' = failed_files g
  \/ exists p,
       (p = path \/ p = duplicate_path path)
       /\ failed_files g' = failed_files g ++ [failure_of p photo]
       /\ out = Return false
       /\ variant_counter is_edited is_live (report g')
          = variant_counter is_edited is_live (report g) + 1.
Proof.
  pose proof (always_run h _ _ w
                (export_photo_variant_outcomes photo path is_edited is_live g))
    as Hout.
  destruct (run h _ w) as [[[out g'] w'] t]; simpl in *.
  inversion Hout as [| created failed Hp | e]; subst; simpl; auto.
  destruct failed as [p |]; simpl; auto.
  right. exists p. split_and!; [| done | done |].
  { rewrite (Hp p eq_refl). destruct created; auto. }
  destruct created; simpl;
    by rewrite variant_counter_inc, ?variant_counter_created.
Qed.

(** C9: a call of [export_photo_variant] that returns adds one to
    exactly one of [duplicates_skipped] and the counter of its variant
    ([edits_exported] if [is_edited], else [live_photos_exported] if
    [is_live], else [originals_exported]); [duplicates_created] may go up
    by one, and only together with the exported counter; no counter
    goes down and the two other exported counters are unchanged; the
    call returns [True] exactly when [duplicates_skipped] is the counter
    that went up. *)
Theorem C9_one_counter_per_call
    {W : Type} (h : handler W) (w : W)
    (photo : Photo) (path : str) (is_edited is_live : bool) (g g' : Globals)
    (b : bool) :
  (run h (export_photo_variant photo path is_edited is_live g) w).1.1
    = (Return b, g') ->
  exists skipped exported created : Z,
    (skipped = 0 \/ skipped = 1) /\ (exported = 0 \/ exported = 1)
    /\ (created = 0 \/ created = 1)
    /\ skipped + exported = 1
    /\ created <= exported
    /\ (b = true <-> skipped = 1)
    /\ duplicates_skipped (report g') = duplicates_skipped (report g) + skipped
    /\ duplicates_created (report g') = duplicates_created (report g) + created
    /\ edits_exported (report g')
       = edits_exported (report g) + (if is_edited then exported else 0)
    /\ live_photos_exported (report g')
       = live_photos_exported (report g)
         + (if negb is_edited && is_live then exported else 0)
    /\ originals_exported (report g')
       = originals_exported (report g)
         + (if negb is_edited && negb is_live then exported else 0).
Proof.
  intros Hrun.
  pose proof (always_run h _ _ w
                (export_photo_variant_outcomes photo path is_edited is_live g))
    as Hout.
  rewrite Hrun in Hout; simpl in Hout.
  inversion Hout as [| created failed _ |]; subst; clear Hout.
  - exists 1, 0, 0. simpl. split_and!; auto; try lia.
    all: destruct is_edited, is_live; simpl; lia.
  - exists 0, 1, (if created then 1 else 0). simpl.
    split_and!; auto; try (destruct created; lia); try done.
    all: destruct created, is_edited, is_live; simpl; lia.
Qed.

(** ** Calls of the export primitive *)

Lemma export_calls_app t1 t2 :
  export_calls (t1 ++ t2) = export_calls t1 ++ export_calls t2.
Proof.
  induction t1 as [| en t1 IH]; simpl; [done |].
  destruct (as_export en); simpl; by rewrite IH.
Qed.

(** C6: when the target path does not exist at the start of a call, the
    export primitive is invoked exactly once, for the directory and the
    filename of that path, and [duplicates_skipped] is not incremented
    during the call. *)
Theorem C6_missing_target_is_exported_once
    {W : Type} (h : handler W) (w : W)
    (photo : Photo) (path : str) (is_edited is_live : bool) (g : Globals) :
  (h _ (os_path_exists path) w).1 = false ->
  let '(_, g', _, t) :=
    run h (export_photo_variant photo path is_edited is_live g) w in
  export_calls t
    = [(photo, Path.dirname path, Path.basename path, is_edited, is_live)]
  /\ duplicates_skipped (report g') = duplicates_skipped (report g).
Proof.
  intros Hmissing.
  unfold export_photo_variant. cbn [then_ unit_ M_sequenced].
  rewrite run_bind, run_lift, run_ask, Hmissing.
  cbn [fst snd].
  match goal with
  | |- context [run h ?m ?w1] =>
      assert (always m
        (fun t out =>
           export_calls t
             = [(photo, Path.dirname path, Path.basename path, is_edited, is_live)]
           /\ duplicates_skipped (report out.2) = duplicates_skipped (report g)))
        as Hrest;
      [| apply (always_run h _ _ w1) in Hrest;
         destruct (run h m w1) as [[[out g'] w'] t']; exact Hrest ]
  end.
  repeat step.
  all: simpl; split; [done | destruct is_edited, is_live; done].
Qed.

(** ** The content comparator *)

Lemma ends_with_app P t1 t2 : ends_with P t2 -> ends_with P (t1 ++ t2).
Proof.
  intros (t0 & en & -> & Hen). exists (t1 ++ t0), en.
  by rewrite app_assoc.
Qed.

Lemma ends_with_cons P en t : ends_with P t -> ends_with P (en :: t).
Proof. apply (ends_with_app P [en]). Qed.

Lemma ends_with_singleton (P : entry -> Prop) en : P en -> ends_with P [en].
Proof. intros Hen. by exists [], en. Qed.

Lemma ends_with_mono (P Q : entry -> Prop) t :
  (forall en, P en -> Q en) -> ends_with P t -> ends_with Q t.
Proof. intros HPQ (t0 & en & -> & Hen). exists t0, en. auto. Qed.

Lemma always_io_bind {A B} (m : io A) (f : A -> io B) Q :
  always m (fun t1 r =>
    match r with
    | Return a => always (f a) (fun t2 b => Q (t1 ++ t2) b)
    | Raise e => Q t1 (Raise e)
    end) ->
  always (io_bind m f) Q.
Proof.
  intros Hm. unfold io_bind. apply always_pbind.
  eapply always_mono; [| exact Hm].
  intros t [a | e] H; simpl; [done |]. by rewrite app_nil_r.
Qed.

Lemma always_io_try {A} (m : io A) (hd : exn -> option (io A)) Q :
  always m (fun t1 r =>
    match r with
    | Return a => Q t1 (Return a)
    | Raise e =>
        match hd e with
        | Some k => always k (fun t2 b => Q (t1 ++ t2) b)
        | None => Q t1 (Raise e)
        end
    end) ->
  always (io_try m hd) Q.
Proof.
  intros Hm. unfold io_try. apply always_pbind.
  eapply always_mono; [| exact Hm].
  intros t [a | e] H; simpl; [by rewrite app_nil_r |].
  destruct (hd e); [done |]. simpl. by rewrite app_nil_r.
Qed.

Lemma always_conj {A} (m : prog A) (Q1 Q2 : list entry -> A -> Prop) :
  always m Q1 -> always m Q2 -> always m (fun t a => Q1 t a /\ Q2 t a).
Proof.
  revert Q1 Q2; induction m as [a | X e k IH]; intros Q1 Q2 H1 H2; simpl in *.
  - done.
  - intros x. apply (IH x (fun t a => Q1 (Entry e x :: t) a)
                          (fun t a => Q2 (Entry e x :: t) a)); auto.
Qed.

(** An exception of [file_hash] is the exception of its read. *)
Lemma file_hash_raises p :
  always (file_hash p) (fun t r =>
    forall e, r = Raise e -> t = [Entry (read_file p) (Raise e)]).
Proof.
  unfold file_hash. cbn [then_ io_sequenced]. apply always_io_bind.
  intros [data | e0]; simpl.
  - by intros x e ?.
  - by intros e [= <-].
Qed.

Lemma hash_compare_raises a b :
  always (hash_compare a b) (fun t r =>
    forall e, r = Raise e ->
      ends_with (fun en => en = Entry (read_file a) (Raise e)
                           \/ en = Entry (read_file b) (Raise e)) t).
Proof.
  unfold hash_compare. cbn [then_ unit_ io_sequenced].
  apply always_io_bind.
  eapply always_mono; [| apply file_hash_raises].
  intros t1 [h1 | e1] H1.
  2:{ intros e [= <-]. rewrite (H1 e1 eq_refl).
      apply ends_with_singleton. by left. }
  apply always_io_bind.
  eapply always_mono; [| apply file_hash_raises].
  intros t2 [h2 | e2] H2; simpl.
  - by intros e ?.
  - intros e [= <-]. apply ends_with_app. rewrite (H2 e2 eq_refl).
    apply ends_with_singleton. by right.
Qed.

Lemma file_hashes_match_raises_read a b :
  always (file_hashes_match a b) (fun t r =>
    forall e, r = Raise e ->
      ends_with (fun en => en = Entry (read_file a) (Raise e)
                           \/ en = Entry (read_file b) (Raise e)) t).
Proof.
  unfold file_hashes_match.
  destruct (_ || _); [apply hash_compare_raises |].
  apply always_io_try. apply always_intro.
  intros t1 [same | e1]; [by intros e ? |].
  destruct e1 as [msg | msg | name msg]; cbn [then_ io_sequenced].
  - apply always_io_bind. unfold ask. cbn [always]. intros [].
    eapply always_mono; [| apply hash_compare_raises].
    intros t2 r H e He. cbn beta. by apply ends_with_app, ends_with_app, H.
  - eapply always_mono; [| apply hash_compare_raises].
    intros t2 r H e He. by apply ends_with_app, H.
  - apply always_io_bind. unfold ask. cbn [always]. intros [].
    eapply always_mono; [| apply hash_compare_raises].
    intros t2 r H e He. cbn beta. by apply ends_with_app, ends_with_app, H.
Qed.

(** C7: for two paths with supported image extensions, when the
    perceptual comparison raises (an [UnidentifiedImageError] from
    decoding, or any other error), [file_hashes_match] goes on as the
    comparison of the content hashes of the two files: its result is the
    result of [file_hash(photo_path) == file_hash(existing_path)], made
    after the calls of the perceptual comparison (and after the message
    of the second handler). When the two digests are computed it returns
    their equality. The handlers do not protect the two reads of the
    fallback: an exception that reaches the caller is the one raised by
    the read of one of the two files for the content hash, and this read
    is the last call made. *)
Theorem C7_perceptual_error_falls_back_to_content_hash
    {W : Type} (h : handler W) (w w1 : W)
    (photo_path existing_path : str) (e : exn) (t1 : list entry) :
  let photo_ext := Str.lower (Path.splitext photo_path).2 in
  let existing_ext := Str.lower (Path.splitext existing_path).2 in
  supported photo_ext = true ->
  supported existing_ext = true ->
  run h (perceptual_compare photo_ext existing_ext photo_path existing_path) w
    = (Raise e, w1, t1) ->
  let w2 :=
    match e with
    | UnidentifiedImageError _ => w1
    | _ => (h _ (print (msg_error_processing photo_path existing_path e)) w1).2
    end in
  (run h (file_hashes_match photo_path existing_path) w).1.1
    = (run h (hash_compare photo_path existing_path) w2).1.1
  /\ (forall (d1 d2 : str) (w3 w4 : W) (ta tb : list entry),
       run h (file_hash photo_path) w2 = (Return d1, w3, ta) ->
       run h (file_hash existing_path) w3 = (Return d2, w4, tb) ->
       (run h (file_hashes_match photo_path existing_path) w).1.1
         = Return (Str.eqb d1 d2))
  /\ (forall (e' : exn),
       (run h (file_hashes_match photo_path existing_path) w).1.1 = Raise e' ->
       exists (p : str) (t0 : list entry),
         (p = photo_path \/ p = existing_path)
         /\ (run h (file_hashes_match photo_path existing_path) w).2
            = t1 ++ t0 ++ [Entry (read_file p) (Raise e')]).
Proof.
  intros photo_ext existing_ext Hp He Hrun w2.
  pose proof (always_run h _ _ w2 (hash_compare_raises photo_path existing_path))
    as Hread.
  assert (exists t, run h (file_hashes_match photo_path existing_path) w
            = ((run h (hash_compare photo_path existing_path) w2).1.1,
               (run h (hash_compare photo_path existing_path) w2).1.2,
               t1 ++ t ++ (run h (hash_compare photo_path existing_path) w2).2))
    as [tp Hfall].
  { unfold file_hashes_match. fold photo_ext existing_ext.
    rewrite Hp, He. cbn [negb orb].
    rewrite run_io_try, Hrun.
    destruct e as [msg | msg | name msg]; subst w2; cbn [then_ io_sequenced].
    - rewrite run_io_bind, run_ask.
      destruct (run h (hash_compare _ _) _) as [[r w3] t3]. by eexists [_].
    - destruct (run h (hash_compare _ _) _) as [[r w3] t3]. by exists [].
    - rewrite run_io_bind, run_ask.
      destruct (run h (hash_compare _ _) _) as [[r w3] t3]. by eexists [_]. }
  rewrite Hfall. cbn [fst snd]. split_and!.
  - reflexivity.
  - intros d1 d2 w3 w4 ta tb H1 H2.
    unfold hash_compare. cbn [then_ unit_ io_sequenced].
    rewrite run_io_bind, H1, run_io_bind, H2. reflexivity.
  - intros e' He'.
    destruct (Hread e' He') as (t0 & en & Ht & Hen). rewrite Ht.
    destruct Hen as [-> | ->]; [exists photo_path | exists existing_path];
      exists (tp ++ t0); by rewrite <-!app_assoc; auto.
Qed.

(** ** Computations whose every call satisfies a property *)

Section Confined.
Context (P : entry -> Prop).

Lemma confined_Ret {A} (a : A) : confined P (Ret a).
Proof. constructor. Qed.

Lemma confined_Vis {A X} (e : event X) (k : X -> prog A) :
  (forall x, P (Entry e x)) -> (forall x, confined P (k x)) ->
  confined P (Vis e k).
Proof.
  intros He Hk x. eapply always_mono; [| apply Hk].
  intros t a Ht; simpl. by constructor.
Qed.

Lemma confined_pbind {A B} (m : prog A) (f : A -> prog B) :
  confined P m -> (forall a, confined P (f a)) -> confined P (pbind m f).
Proof.
  intros Hm Hf. apply always_pbind.
  eapply always_mono; [| exact Hm]. intros t1 a Ht1; simpl.
  eapply always_mono; [| apply Hf]. intros t2 b Ht2; simpl.
  by apply Forall_app.
Qed.

Lemma confined_ask {X} (e : event X) :
  (forall x, P (Entry e x)) -> confined P (ask e).
Proof. intros He. apply confined_Vis; [done | intros; apply confined_Ret]. Qed.

Lemma confined_call {X} (e : event (res X)) :
  (forall x, P (Entry e x)) -> confined P (call e).
Proof. intros He. apply confined_Vis; [done | intros; apply confined_Ret]. Qed.

Lemma confined_io_bind {A B} (m : io A) (f : A -> io B) :
  confined P m -> (forall a, confined P (f a)) -> confined P (io_bind m f).
Proof.
  intros Hm Hf. apply confined_pbind; [done |].
  intros [a | e]; [apply Hf | apply confined_Ret].
Qed.

Lemma confined_io_try {A} (m : io A) (hd : exn -> option (io A)) :
  confined P m -> (forall e k, hd e = Some k -> confined P k) ->
  confined P (io_try m hd).
Proof.
  intros Hm Hh. apply confined_pbind; [done |].
  intros [a | e]; [apply confined_Ret |].
  destruct (hd e) eqn:He; [by eapply Hh | apply confined_Ret].
Qed.

Lemma confinedM_ret {A} (a : A) : confinedM P (ret a).
Proof. intros g. apply confined_Ret. Qed.

Lemma confinedM_modify f : confinedM P (modify f).
Proof. intros g. apply confined_Ret. Qed.

Lemma confinedM_get : confinedM P get.
Proof. intros g. apply confined_Ret. Qed.

Lemma confinedM_lift {A} (m : io A) : confined P m -> confinedM P (lift m).
Proof.
  intros Hm g. apply confined_pbind; [done |]. intros; apply confined_Ret.
Qed.

Lemma confinedM_bind {A B} (m : M A) (f : A -> M B) :
  confinedM P m -> (forall a, confinedM P (f a)) -> confinedM P (bind m f).
Proof.
  intros Hm Hf g. apply confined_pbind; [apply Hm |].
  intros [[a | e] g1]; [apply Hf | apply confined_Ret].
Qed.

Lemma confinedM_try {A} (m : M A) (hd : exn -> option (M A)) :
  confinedM P m -> (forall e k, hd e = Some k -> confinedM P k) ->
  confinedM P (try m hd).
Proof.
  intros Hm Hh g. apply confined_pbind; [apply Hm |].
  intros [[a | e] g1]; [apply confined_Ret |].
  destruct (hd e) eqn:He; [by eapply Hh | apply confined_Ret].
Qed.

Lemma confinedM_for_each {A} (l : list A) (body : A -> M unit) :
  (forall x, x ∈ l -> confinedM P (body x)) -> confinedM P (for_each l body).
Proof.
  induction l as [| x l IH]; intros Hb; simpl.
  - apply confinedM_ret.
  - apply confinedM_bind; [apply Hb; left |].
    intros _. apply IH. intros y Hy. apply Hb. by right.
Qed.

Lemma confined_run {W A} (h : handler W) (m : prog A) (w : W) :
  confined P m -> Forall P (run h m w).2.
Proof. intros Hm. apply (always_run h m _ w Hm). Qed.

End Confined.

Ltac confine1 :=
  lazymatch goal with
  | |- confinedM _ (bind _ _) => apply confinedM_bind; [| intros ?]
  | |- confinedM _ (try _ _) =>
      apply confinedM_try;
      [| let He := fresh in
         intros [?|?|? ?] ? He;
         cbv beta iota delta [timestamp_handlers] in He;
         injection He as <-]
  | |- confinedM _ (lift _) => apply confinedM_lift
  | |- confinedM _ (ret _) => apply confinedM_ret
  | |- confinedM _ (modify _) => apply confinedM_modify
  | |- confinedM _ get => apply confinedM_get
  | |- confinedM _ (bump _) => apply confinedM_modify
  | |- confinedM _ (append_failed _ _) => apply confinedM_modify
  | |- confinedM _ (count_exported ?e ?l) =>
      destruct e, l; apply confinedM_modify
  | |- confinedM _ pause_after_export => apply confinedM_ret
  | |- confinedM _ (if ?b then _ else _) => destruct b
  | |- confinedM _ (match ?b with Some _ => _ | None => _ end) => destruct b
  | |- confined _ (io_bind _ _) => apply confined_io_bind; [| intros ?]
  | |- confined _ (io_try _ _) =>
      apply confined_io_try;
      [| let He := fresh in
         intros [?|?|? ?] ? He; cbv beta iota in He; injection He as <-]
  | |- confined _ (ask _) => apply confined_ask; intros ?
  | |- confined _ (call _) => apply confined_call; intros ?
  | |- confined _ (vprint _) => apply confined_ask; intros ?
  | |- confined _ (set_file_timestamp _ _) => apply confined_call; intros ?
  | |- confined _ (io_ret _) => apply confined_Ret
  | |- confined _ (io_raise _) => apply confined_Ret
  | |- confined _ (if ?b then _ else _) => destruct b
  end;
  cbn [then_ unit_ M_sequenced io_sequenced timestamp_handlers].

Ltac confine := repeat confine1.

Lemma file_hashes_match_no_export a b :
  confined not_export (file_hashes_match a b).
Proof.
  unfold file_hashes_match, hash_compare, perceptual_compare, open_image,
    heic_to_pil, file_hash.
  cbn [then_ unit_ io_sequenced].
  confine; reflexivity.
Qed.

Lemma poll_timestamp_S n p photo :
  poll_timestamp (S n) p photo =
    io_bind (ask (os_path_exists p)) (fun visible =>
      if visible then set_file_timestamp p (PhotoInfo.date photo)
      else io_bind (ask (time_sleep 1)) (fun _ => poll_timestamp n p photo)).
Proof. reflexivity. Qed.

Lemma poll_timestamp_no_export n p photo :
  confined not_export (poll_timestamp n p photo).
Proof.
  induction n as [| n IH]; [apply confined_Ret | rewrite poll_timestamp_S].
  - confine; try reflexivity. exact IH.
Qed.

Lemma not_export_export_of photo path is_edited is_live en :
  not_export en -> export_of photo path is_edited is_live en.
Proof. unfold not_export, export_of. congruence. Qed.

Lemma confined_weaken (P Q : entry -> Prop) {A} (m : prog A) :
  (forall en, P en -> Q en) -> confined P m -> confined Q m.
Proof.
  intros HPQ Hm. eapply always_mono; [| exact Hm].
  intros t a Ht. by eapply Forall_impl; [exact Ht |].
Qed.

Lemma export_photo_variant_exports photo path is_edited is_live :
  confinedM (export_of photo path is_edited is_live)
    (export_photo_variant photo path is_edited is_live).
Proof.
  unfold export_photo_variant, do_export.
  cbn [then_ unit_ M_sequenced].
  confine.
  all: try (intros c [= <-]; reflexivity).
  all: try (intros c; discriminate).
  all: eapply confined_weaken; [apply not_export_export_of |];
    first [apply file_hashes_match_no_export | apply poll_timestamp_no_export].
Qed.

Lemma export_one_exports photo :
  confinedM (exports_only photo) (export_one photo).
Proof.
  assert (forall path is_edited is_live,
    confinedM (exports_only photo)
      (export_photo_variant photo path is_edited is_live)) as Hv.
  { intros path is_edited is_live g. eapply confined_weaken;
      [| apply export_photo_variant_exports].
    intros en Hen c Hc. by rewrite (Hen c Hc). }
  unfold export_one. cbn [then_ unit_ M_sequenced].
  confine; try apply Hv.
  all: intros c; discriminate.
Qed.

Lemma for_each_loop_run {W} (h : handler W) photos g w :
  let '(out, w', t) := run h (for_each photos export_one g) w in
  loop_run h photos g w out w' t.
Proof.
  revert g w; induction photos as [| photo photos IH]; intros g w.
  - simpl. constructor.
  - cbn [for_each then_ M_sequenced]. rewrite run_bind.
    destruct (run h (export_one photo g) w) as [[[[[] | e] g1] w1] t1] eqn:H1.
    + specialize (IH g1 w1).
      destruct (run h (for_each photos export_one g1) w1) as [[out w2] t2].
      by eapply loop_next.
    + by eapply loop_raise.
Qed.

Lemma print_report_prints : confinedM is_print print_report.
Proof.
  unfold print_report. cbn [then_ unit_ M_sequenced].
  confine; try exact I.
  apply confinedM_for_each. intros file _. confine. exact I.
Qed.

Lemma print_report_returns g :
  always (print_report g) (fun _ out => out = (Return tt, g)).
Proof.
  unfold print_report. cbn [then_ unit_ M_sequenced].
  repeat step.
  induction (failed_files g) as [| file l IH]; [done |].
  cbn [for_each then_ M_sequenced]. repeat step. exact IH.
Qed.

Lemma export_calls_nil t : Forall not_export t -> export_calls t = [].
Proof.
  induction 1 as [| en t Hen _ IH]; [done |].
  simpl. by rewrite Hen.
Qed.

Lemma export_calls_Forall (Q : Photo -> Prop) t :
  Forall (fun en => forall c, as_export en = Some c -> Q (exported_photo c)) t ->
  Forall (fun c => Q (exported_photo c)) (export_calls t).
Proof.
  induction 1 as [| en t Hen _ IH]; [constructor |].
  simpl.
  destruct (as_export en) as [c |] eqn:Hc; simpl; [| done].
  constructor; [by apply Hen | done].
Qed.

Lemma is_print_not_export en : is_print en -> not_export en.
Proof. destruct en as [X e x]; destruct e; simpl; done. Qed.

(** ** The driver *)

(** C10: the driver processes exactly the photos of the library whose
    capture date, as a calendar date, is on or after today minus 35
    days, in the order of the enumeration. With [library] the second
    enumeration of the run, the photos to process are the sublist of
    those on or after [TODAY - 35 days]; the run is the two
    enumerations, then the loop body for each of these photos in turn
    (an exception ends the run), then the printed report; and every
    call of the export primitive in the run is for one of these photos,
    so that an earlier photo is never exported, compared or counted:
    each of these happens in the loop body. *)
Theorem C10_driver_processes_recent_photos_in_order
    {W : Type} (h : handler W) (w : W) (TODAY : date) (g : Globals) :
  let '(counted, wa) := h _ photosdb_photos w in
  let found :=
    print (msg_found (Z.of_nat (length (filter (since_start TODAY) counted)))
                     (START_DATE TODAY)) in
  let '(u, wb) := h _ found wa in
  let '(library, wc) := h _ photosdb_photos wb in
  let photos_to_process := filter (since_start TODAY) library in
  let '(out, w', t) := run h (export_photos TODAY g) w in
  (forall photo,
     photo ∈ photos_to_process <->
     photo ∈ library
     /\ Datetime.toordinal TODAY - 35
        <= Datetime.toordinal (Datetime.date_of (PhotoInfo.date photo)))
  /\ sublist photos_to_process library
  /\ (exists w_loop t_loop t_report,
        loop_run h photos_to_process g wc out w_loop t_loop
        /\ t = [Entry photosdb_photos counted; Entry found u;
                Entry photosdb_photos library] ++ t_loop ++ t_report
        /\ Forall is_print t_report)
  /\ Forall (fun c => exported_photo c ∈ photos_to_process) (export_calls t).
Proof.
  destruct (h _ photosdb_photos w) as [counted wa] eqn:Ha.
  intros found. destruct (h _ found wa) as [u wb] eqn:Hb.
  destruct (h _ photosdb_photos wb) as [library wc] eqn:Hc.
  intros photos_to_process.
  unfold export_photos. cbn [then_ unit_ M_sequenced].
  rewrite run_bind, run_lift, run_ask, Ha. cbn [fst snd].
  rewrite run_bind, run_lift, run_ask. fold found. rewrite Hb. cbn [fst snd].
  rewrite run_bind, run_lift, run_ask, Hc. cbn [fst snd].
  fold photos_to_process. rewrite run_bind.
  pose proof (for_each_loop_run h photos_to_process g wc) as Hloop.
  pose proof (confined_run (fun en => forall c, as_export en = Some c ->
                              exported_photo c ∈ photos_to_process)
                h (for_each photos_to_process export_one g) wc) as Hexp.
  destruct (run h (for_each photos_to_process export_one g) wc)
    as [[[r g1] w1] t1].
  cbn [snd] in Hexp.
  assert (Forall (fun en => forall c, as_export en = Some c ->
                    exported_photo c ∈ photos_to_process) t1) as Ht1.
  { apply Hexp. apply confinedM_for_each. intros photo Hphoto g0.
    eapply confined_weaken; [| apply export_one_exports].
    intros en Hen c Hc'. by rewrite (Hen c Hc'). }
  clear Hexp.
  assert (forall photo,
    photo ∈ photos_to_process <->
    photo ∈ library
    /\ Datetime.toordinal TODAY - 35
       <= Datetime.toordinal (Datetime.date_of (PhotoInfo.date photo))) as Hmem.
  { intros photo. unfold photos_to_process. rewrite list_elem_of_filter.
    unfold since_start, START_DATE, OVERLAP_PERIOD.
    rewrite Is_true_true, Z.leb_le. tauto. }
  assert (sublist photos_to_process library) as Hsub
    by apply sublist_filter.
  destruct r as [[] | e].
  - pose proof (always_run h _ _ w1 (print_report_returns g1)) as Hret.
    pose proof (confined_run _ h _ w1 (print_report_prints g1)) as Hprints.
    destruct (run h (print_report g1) w1) as [[out2 w2] t2].
    cbn [fst snd] in *. subst out2.
    split_and!; [done | done | |].
    + by exists w1, t1, t2.
    + cbn [app export_calls as_export].
      rewrite export_calls_app. apply Forall_app. split.
      * by apply (export_calls_Forall (fun p => p ∈ photos_to_process)).
      * rewrite export_calls_nil; [constructor |].
        eapply Forall_impl; [exact Hprints | apply is_print_not_export].
  - split_and!; [done | done | |].
    + exists w1, t1, []. by rewrite app_nil_r.
    + cbn [app export_calls as_export].
      by apply (export_calls_Forall (fun p => p ∈ photos_to_process)).
Qed.

(** ** Strings and paths *)

Lemma rfind_from_absent i c s : c ∉ s -> Str.rfind_from i c s = -1.
Proof.
  revert i; induction s as [| d s IH]; intros i Hc; simpl; [done |].
  rewrite IH by set_solver. simpl.
  rewrite bool_decide_false; [done | set_solver].
Qed.

Lemma rfind_from_last i c pre post :
  0 <= i -> c ∉ post ->
  Str.rfind_from i c (pre ++ c :: post) = i + Z.of_nat (length pre).
Proof.
  revert i; induction pre as [| d pre IH]; intros i Hi Hc; simpl.
  - rewrite rfind_from_absent by done. simpl.
    rewrite bool_decide_true by done. lia.
  - rewrite IH by (done || lia).
    destruct (Z.leb_spec 0 (i + 1 + Z.of_nat (length pre))); lia.
Qed.

Lemma lower_char_dot c : Str.lower_char c = "."%char -> c = "."%char.
Proof.
  unfold Str.lower_char, Str.is_upper.
  destruct (_ && _) eqn:Hup; [| done].
  intros Hc. apply (f_equal nat_of_ascii) in Hc.
  apply andb_true_iff in Hup as [H1 H2].
  apply Nat.leb_le in H1, H2.
  rewrite nat_ascii_embedding in Hc by lia.
  change (nat_of_ascii ".") with 46%nat in Hc. lia.
Qed.

Lemma endswith_app s p : Str.endswith (s ++ p) p = true.
Proof.
  unfold Str.endswith, Str.eqb. rewrite length_app.
  apply andb_true_iff; split; [apply Nat.leb_le; lia |].
  apply bool_decide_eq_true.
  replace (length s + length p - length p)%nat with (length s) by lia.
  by rewrite drop_app_length.
Qed.

Lemma token_at_spec s :
  token_at s = true <-> exists m post, s = m ++ post /\ img_token m.
Proof.
  split.
  - destruct s as [| c1 [| c2 [| c3 [| c4 [| d1 [| d2 [| d3 [| d4 post]]]]]]]];
      try done.
    unfold token_at.
    rewrite !andb_true_iff, !bool_decide_eq_true.
    intros [[[[[[[-> ->] ->] ->] H1] H2] H3] H4].
    exists ("IMG_" ++ [d1; d2; d3; d4]), post. split; [done |].
    by exists d1, d2, d3, d4.
  - intros (m & post & -> & d1 & d2 & d3 & d4 & -> & H1 & H2 & H3 & H4).
    simpl. by rewrite H1, H2, H3, H4.
Qed.

Lemma go_img_re pos rest :
  Re.go false img_re pos rest (fun e _ => Some e)
  = if token_at rest then Some (pos + 8)%nat else None.
Proof.
  destruct rest as [| c1 [| c2 [| c3 [| c4 [| d1 [| d2 [| d3 [| d4 post]]]]]]]];
    simpl; unfold Re.char_eq;
    repeat (case_bool_decide; subst; simpl; try done);
    repeat (match goal with |- context [Str.is_digit ?d] => destruct (Str.is_digit d) end; simpl; try done).
  all: try done.
  f_equal; lia.
Qed.

Lemma search_from_img pos rest :
  Re.search_from false img_re pos rest =
    match find_token rest with
    | Some i => Some {| Re.m_start := (pos + i)%nat; Re.m_end := (pos + i + 8)%nat |}
    | None => None
    end.
Proof.
  revert pos; induction rest as [| c rest IH]; intros pos.
  - simpl. done.
  - cbn [Re.search_from find_token]. rewrite go_img_re.
    destruct (token_at (c :: rest)).
    + do 2 f_equal; lia.
    + rewrite IH. destruct (find_token rest) as [i |]; simpl; [| done].
      do 2 f_equal; lia.
Qed.

Lemma find_token_Some s i :
  find_token s = Some i ->
  token_at (drop i s) = true /\ forall j, (j < i)%nat -> token_at (drop j s) = false.
Proof.
  revert i; induction s as [| c s IH]; intros i.
  - simpl. done.
  - cbn [find_token]. destruct (token_at (c :: s)) eqn:Hc.
    + intros [= <-]. split; [done | lia].
    + destruct (find_token s) as [i' |] eqn:Hs; [| done].
      intros [= <-]. destruct (IH i' eq_refl) as [H1 H2].
      split; [done |]. intros [| j] Hj; [done |]. apply H2. lia.
Qed.

Lemma find_token_None s :
  find_token s = None -> forall j, token_at (drop j s) = false.
Proof.
  induction s as [| c s IH].
  - intros _ j. by rewrite drop_nil.
  - cbn [find_token]. destruct (token_at (c :: s)) eqn:Hc; [done |].
    destruct (find_token s) eqn:Hs; [done |].
    intros _ [| j]; [done |]. by apply IH.
Qed.

Lemma canonical_name_match f :
  canonical_name f -> is_Some (Re.match_ true canonical_re f).
Proof.
  intros (c1 & c2 & c3 & c4 & d1 & d2 & d3 & d4 & ext & -> & Hl & H1 & H2 & H3 & H4 & He).
  injection Hl as L1 L2 L3 L4.
  unfold Re.match_, canonical_re.
  destruct He as [He | He].
  - destruct ext as [| e0 [| e1 [| e2 [| e3 [| ? ?]]]]]; try done.
    injection He as E0 E1 E2 E3.
    simpl; unfold Re.char_eq.
    rewrite L1, L2, L3, L4, H1, H2, H3, H4, E0, E1, E2, E3.
    vm_compute. eauto.
  - destruct ext as [| e0 [| e1 [| e2 [| e3 [| e4 [| ? ?]]]]]]; try done.
    injection He as E0 E1 E2 E3 E4.
    simpl; unfold Re.char_eq.
    rewrite L1, L2, L3, L4, H1, H2, H3, H4, E0, E1, E2, E3, E4.
    vm_compute. eauto.
Qed.

Ltac dead Hm := exfalso; simpl in Hm; exact (is_Some_None Hm).

Lemma match_canonical_name f :
  is_Some (Re.match_ true canonical_re f) ->
  Str.endswith_any (Str.lower f) [".jpg" : str; ".heic" : str] = true ->
  canonical_name f.
Proof.
  unfold Re.match_, canonical_re.
  intros Hm Hend.
  destruct f as [| c1 [| c2 [| c3 [| c4 [| d1 [| d2 [| d3 [| d4 ext]]]]]]]];
    simpl in Hm; unfold Re.char_eq in Hm;
    repeat (case_bool_decide; simpl in Hm; try (by dead Hm));
    repeat (match type of Hm with
            | context [Str.is_digit ?d] => destruct (Str.is_digit d) eqn:?
            end; simpl in Hm; try (by dead Hm)).
  all: try (by dead Hm).
  exists c1, c2, c3, c4, d1, d2, d3, d4, ext.
  split_and!; try done.
  { simpl. by repeat match goal with H : _ = Str.lower_char _ |- _ => rewrite <-H; clear H end. }
  clear - Hm Hend.
  destruct ext as [| e0 [| e1 [| e2 [| e3 ext]]]]; try (by dead Hm).
  - simpl in Hm. case_bool_decide; simpl in Hm; [| by dead Hm].
    by dead Hm.
  - simpl in Hm. repeat (case_bool_decide; simpl in Hm; try (by dead Hm)).
  - simpl in Hm. repeat (case_bool_decide; simpl in Hm; try (by dead Hm)).
  - destruct ext as [| e4 [| e5 ext]]; simpl in Hm; unfold Str.eqb in Hm;
      repeat (case_bool_decide; simpl in Hm; try (by dead Hm));
      simplify_eq.
    all: repeat match goal with
         | H : Str.lower_char ?a = Str.lower_char ?x |- _ =>
             tryif is_var a then fail else
               (let v := eval vm_compute in (Str.lower_char a) in
                change (Str.lower_char a) with v in H; symmetry in H)
         end.
    all: try (left; cbv [Str.lower map list_ascii_of_string]; congruence).
    all: try (right; cbv [Str.lower map list_ascii_of_string]; congruence).
    all: exfalso; revert Hend; unfold Str.endswith_any, Str.endswith, Str.eqb;
      simpl; repeat case_bool_decide; simplify_eq; simpl; try done.
Qed.

Lemma token_at_head c s : token_at (c :: s) = true -> c = "I"%char.
Proof.
  destruct s as [| c2 [| c3 [| c4 [| d1 [| d2 [| d3 [| d4 post]]]]]]]; try done.
  unfold token_at. rewrite !andb_true_iff, !bool_decide_eq_true. tauto.
Qed.

Lemma token_at_length s : token_at s = true -> (8 <= length s)%nat.
Proof.
  destruct s as [| c1 [| c2 [| c3 [| c4 [| d1 [| d2 [| d3 [| d4 post]]]]]]]];
    try done.
  simpl. lia.
Qed.

Lemma lower_drop n s : Str.lower (drop n s) = drop n (Str.lower s).
Proof. unfold Str.lower. by rewrite <-(fmap_drop Str.lower_char). Qed.

(** The extension of a path is empty or a suffix of the path. *)
Lemma splitext_suffix f :
  (Path.splitext f).2 = [] \/ exists n, (Path.splitext f).2 = drop n f.
Proof.
  unfold Path.splitext.
  destruct (_ <? _); [| by left].
  destruct (existsb _ _); [| by left].
  right. by eexists.
Qed.

Lemma jpg_or_heic_endswith f :
  jpg_or_heic (Path.splitext f).2 ->
  Str.endswith_any (Str.lower f) [".jpg" : str; ".heic" : str] = true.
Proof.
  intros Hext.
  destruct (splitext_suffix f) as [Hnil | [n Hn]].
  { rewrite Hnil in Hext. by destruct Hext. }
  rewrite Hn in Hext. unfold jpg_or_heic in Hext. rewrite lower_drop in Hext.
  pose proof (take_drop n (Str.lower f)) as Hf.
  unfold Str.endswith_any. cbn [existsb].
  destruct Hext as [He | He]; rewrite He in Hf; rewrite <-Hf.
  - by rewrite endswith_app.
  - by rewrite endswith_app, orb_true_r.
Qed.

Lemma find_token_short s : (length s < 8)%nat -> find_token s = None.
Proof.
  induction s as [| c s IH]; intros Hs; cbn [find_token].
  - done.
  - destruct (token_at (c :: s)) eqn:Ht.
    { apply token_at_length in Ht. lia. }
    rewrite IH; [done | simpl in Hs; lia].
Qed.

Lemma find_token_dots pre s :
  Forall (fun c => c = "."%char) pre -> (length s < 8)%nat ->
  find_token (pre ++ s) = None.
Proof.
  intros Hpre Hs. induction Hpre as [| c pre -> _ IH].
  - by apply find_token_short.
  - cbn [app find_token].
    destruct (token_at ("."%char :: pre ++ s)) eqn:Ht.
    { by apply token_at_head in Ht. }
    by rewrite IH.
Qed.

Lemma dotted_suffix s :
  Str.lower s = ".jpg" \/ Str.lower s = ".heic" ->
  exists r, s = ("."%char :: r) /\ ("."%char ∉ r) /\ (length s < 8)%nat.
Proof.
  intros [Hs | Hs].
  - destruct s as [| e0 [| e1 [| e2 [| e3 [| ? ?]]]]]; try done.
    injection Hs as E0 E1 E2 E3. apply lower_char_dot in E0 as ->.
    eexists; split_and!; [done | | simpl; lia].
    rewrite !not_elem_of_cons. split_and!; try apply not_elem_of_nil.
    all: intros <-; done.
  - destruct s as [| e0 [| e1 [| e2 [| e3 [| e4 [| ? ?]]]]]]; try done.
    injection Hs as E0 E1 E2 E3 E4. apply lower_char_dot in E0 as ->.
    eexists; split_and!; [done | | simpl; lia].
    rewrite !not_elem_of_cons. split_and!; try apply not_elem_of_nil.
    all: intros <-; done.
Qed.

Lemma no_extension_no_token f :
  "/"%char ∉ f ->
  Str.endswith_any (Str.lower f) [".jpg" : str; ".heic" : str] = true ->
  ~ jpg_or_heic (Path.splitext f).2 ->
  find_token f = None.
Proof.
  intros Hsep Hend Hext.
  assert (exists suf : str,
    (suf = ".jpg" \/ suf = ".heic") /\ Str.endswith (Str.lower f) suf = true)
    as (suf & Hsuf & Hends).
  { unfold Str.endswith_any in Hend. cbn [existsb] in Hend.
    rewrite orb_false_r in Hend. apply orb_true_iff in Hend as [H | H];
      eexists; (split; [| exact H]); auto. }
  set (k := (length (Str.lower f) - length suf)%nat).
  assert (Str.lower (drop k f) = suf) as Hdrop.
  { rewrite lower_drop. unfold Str.endswith, Str.eqb in Hends.
    apply andb_true_iff in Hends as [_ H]. by apply bool_decide_eq_true in H. }
  destruct (dotted_suffix (drop k f)) as (r & Hr & Hdot & Hlen).
  { rewrite Hdrop. destruct Hsuf as [-> | ->]; auto. }
  pose proof (take_drop k f) as Hf. rewrite Hr in Hf.
  set (pre := take k f) in *.
  assert (Str.rfind Path.extsep f = Z.of_nat (length pre)) as Hdi.
  { unfold Str.rfind. rewrite <-Hf. by rewrite rfind_from_last. }
  assert (Str.rfind Path.sep f = -1) as Hsi
    by (by apply rfind_from_absent).
  assert (drop (length pre) f = "."%char :: r) as Hd.
  { rewrite <-Hf. by rewrite drop_app_length. }
  unfold Path.splitext in Hext. rewrite Hdi, Hsi in Hext.
  destruct (Z.ltb_spec (-1) (Z.of_nat (length pre))) as [_ | ?]; [| lia].
  unfold Str.from, Str.upto in Hext.
  replace (Z.to_nat (-1 + 1)) with O in Hext by lia.
  replace (Z.to_nat (Z.of_nat (length pre) - (-1 + 1))) with (length pre) in Hext by lia.
  rewrite drop_0 in Hext. rewrite Nat2Z.id in Hext.
  assert (take (length pre) f = pre) as Htake.
  { rewrite <-Hf. by rewrite take_app_length. }
  rewrite Htake, Hd in Hext.
  destruct (existsb _ pre) eqn:Hex.
  - exfalso. apply Hext. cbn [snd]. unfold jpg_or_heic.
    rewrite <-Hr, Hdrop. destruct Hsuf as [-> | ->]; auto.
  - rewrite <-Hf. apply find_token_dots.
    + apply Forall_forall. intros c Hc.
      destruct (decide (c = Path.extsep)) as [-> | Hne]; [done |].
      assert (existsb (fun c => negb (bool_decide (c = Path.extsep))) pre = true)
        as Hcontra; [| congruence].
      apply existsb_exists. exists c. split; [by apply list_elem_of_In |].
      by rewrite bool_decide_false.
    + by rewrite <-Hr.
Qed.

Lemma img_token_length m : img_token m -> length m = 8%nat.
Proof. by intros (d1 & d2 & d3 & d4 & -> & _). Qed.

Lemma occurs_token_at pre m post :
  img_token m -> token_at (drop (length pre) (pre ++ m ++ post)) = true.
Proof.
  intros Hm. rewrite drop_app_length. apply token_at_spec. eauto.
Qed.

Lemma find_token_occurs f :
  occurs_token f -> exists i, find_token f = Some i.
Proof.
  intros (pre & m & post & -> & Hm).
  destruct (find_token (pre ++ m ++ post)) as [i |] eqn:Hf; [eauto |].
  pose proof (find_token_None _ Hf (length pre)) as Hnone.
  by rewrite occurs_token_at in Hnone.
Qed.

Lemma search_img f :
  Re.search false img_re f =
    match find_token f with
    | Some i => Some {| Re.m_start := i; Re.m_end := (i + 8)%nat |}
    | None => None
    end.
Proof. unfold Re.search. by rewrite search_from_img. Qed.

(** C5: filename canonicalisation of the Original variant. A filename
    whose extension is not [.jpg] or [.heic] (in any case) is returned
    unchanged; so is a name that already is [IMG_], four digits and
    [.jpg] or [.heic] (in any case); otherwise, if the token [IMG_] and
    four digits occurs in the filename, the result is its leftmost
    occurrence followed by the original extension; otherwise the
    filename is returned unchanged. A filename is one path component:
    it holds no [/]. *)
Theorem C5_filename_canonicalization :
  (forall f : str,
     ("/"%char ∉ f) -> ~ jpg_or_heic (Path.splitext f).2 ->
     extract_img_pattern f = f)
  /\ (forall f : str, canonical_name f -> extract_img_pattern f = f)
  /\ (forall f : str,
        jpg_or_heic (Path.splitext f).2 -> ~ canonical_name f ->
        occurs_token f ->
        exists pre m post,
          f = pre ++ m ++ post /\ img_token m
          /\ (forall pre' m' post',
                f = pre' ++ m' ++ post' -> img_token m' ->
                (length pre <= length pre')%nat)
          /\ extract_img_pattern f = m ++ (Path.splitext f).2)
  /\ (forall f : str, ~ occurs_token f -> extract_img_pattern f = f)
  /\ extract_img_pattern "2024_IMG_5678_extra.jpg" = "IMG_5678.jpg"
  /\ extract_img_pattern "IMG_1234.jpg" = "IMG_1234.jpg"
  /\ extract_img_pattern "vacation.png" = "vacation.png".
Proof.
  split_and!.
  - intros f Hsep Hext. unfold extract_img_pattern.
    destruct (Str.endswith_any _ _) eqn:Hend; [| done]. cbn [negb].
    case_bool_decide; [done |].
    by rewrite search_img, (no_extension_no_token f).
  - intros f Hf. unfold extract_img_pattern.
    destruct (negb _); [done |].
    by rewrite bool_decide_true by by apply canonical_name_match.
  - intros f Hext Hcanon Hocc. unfold extract_img_pattern.
    rewrite (jpg_or_heic_endswith f Hext). cbn [negb].
    rewrite bool_decide_false.
    2:{ intros Hm. apply Hcanon, match_canonical_name; [done |].
        by apply jpg_or_heic_endswith. }
    rewrite search_img.
    destruct (find_token_occurs f Hocc) as [i Hi]. rewrite Hi.
    destruct (find_token_Some f i Hi) as [Hat Hleft].
    apply token_at_spec in Hat as (m & post & Hd & Hm).
    exists (take i f), m, post. split_and!.
    + by rewrite <-Hd, take_drop.
    + done.
    + intros pre' m' post' Hf' Hm'.
      destruct (Nat.le_gt_cases i (length pre')) as [? | Hlt];
        [rewrite length_take; lia |].
      specialize (Hleft _ Hlt). rewrite Hf' in Hleft.
      by rewrite occurs_token_at in Hleft.
    + unfold Re.group0; cbn [Re.m_start Re.m_end].
      replace (i + 8 - i)%nat with 8%nat by lia.
      rewrite Hd, <-(img_token_length m Hm). by rewrite take_app_length.
  - intros f Hocc. unfold extract_img_pattern.
    destruct (negb _); [done |]. case_bool_decide; [done |].
    rewrite search_img.
    destruct (find_token f) as [i |] eqn:Hi; [| done].
    exfalso. apply Hocc.
    destruct (find_token_Some f i Hi) as [Hat _].
    apply token_at_spec in Hat as (m & post & Hd & Hm).
    exists (take i f), m, post. split; [by rewrite <-Hd, take_drop | done].
  - by vm_compute.
  - by vm_compute.
  - by vm_compute.
Qed.

(** ** The reference environment *)

Lemma Env_hash_compare (w : Env.world) (a b : str) (fa fb : Env.file) :
  Env.files w !! a = Some fa -> Env.files w !! b = Some fb ->
  exists t,
    run Env.handle (hash_compare a b) w
      = (Return (Str.eqb (Env.content fa) (Env.content fb)), w, t)
    /\ export_calls t = [].
Proof.
  intros Ha Hb.
  unfold hash_compare, file_hash. cbn [then_ unit_ io_sequenced].
  rewrite !run_io_bind, !run_call. cbn [Env.handle fst snd]. rewrite Ha.
  rewrite run_ask. cbn [Env.handle fst snd].
  rewrite !run_io_bind, !run_call. cbn [Env.handle fst snd]. rewrite Hb.
  rewrite run_ask. cbn [Env.handle fst snd].
  eexists; split; reflexivity.
Qed.

Lemma Env_open_image (w : Env.world) (ext p : str) :
  exists t,
    run Env.handle (open_image ext p) w = (Env.decode w p, w, t)
    /\ export_calls t = [].
Proof.
  unfold open_image, heic_to_pil. cbn [then_ unit_ io_sequenced].
  destruct (Str.eqb ext _).
  - rewrite run_io_bind, run_call. cbn [Env.handle fst snd].
    destruct (Env.decode w p) as [h | e].
    + rewrite run_call. cbn [Env.handle fst snd]. eexists; split; reflexivity.
    + eexists; split; reflexivity.
  - rewrite run_call. cbn [Env.handle fst snd]. eexists; split; reflexivity.
Qed.

Lemma Env_compare (w : Env.world) (a b : str) (fa fb : Env.file) :
  Env.files w !! a = Some fa -> Env.files w !! b = Some fb ->
  exists t,
    run Env.handle (file_hashes_match a b) w
      = (Return (Str.eqb (Env.content fa) (Env.content fb)), w, t)
    /\ export_calls t = [].
Proof.
  intros Ha Hb.
  destruct (Env_hash_compare w a b fa fb Ha Hb) as (th & Hh & Hth).
  unfold file_hashes_match.
  destruct (negb _ || negb _); [eauto |].
  rewrite run_io_try. unfold perceptual_compare.
  cbn [then_ unit_ io_sequenced].
  rewrite run_io_bind.
  destruct (Env_open_image w (Str.lower (Path.splitext a).2) a) as (ta & -> & Hta).
  unfold Env.decode at 1. rewrite Ha.
  destruct (Env.corrupt (Env.content fa)) eqn:Hca.
  { rewrite Hh. eexists; split; [reflexivity |].
    by rewrite export_calls_app, Hta, Hth. }
  rewrite run_io_bind.
  destruct (Env_open_image w (Str.lower (Path.splitext b).2) b) as (tb & -> & Htb).
  unfold Env.decode at 1. rewrite Hb.
  destruct (Env.corrupt (Env.content fb)) eqn:Hcb.
  { rewrite Hh. eexists; split; [reflexivity |].
    by rewrite !export_calls_app, Hta, Htb, Hth. }
  rewrite !run_io_bind, !run_call. cbn [Env.handle fst snd].
  rewrite !run_io_bind, !run_call. cbn [Env.handle fst snd].
  eexists; split; [reflexivity |].
  by rewrite !export_calls_app, Hta, Htb.
Qed.

Lemma run_get {W} (h : handler W) (g : Globals) (w : W) :
  run h (get g) w = ((Return g, g), w, []).
Proof. reflexivity. Qed.

Lemma run_ret {W A} (h : handler W) (a : A) (g : Globals) (w : W) :
  run h (ret a g) w = ((Return a, g), w, []).
Proof. reflexivity. Qed.

Lemma run_modify {W} (h : handler W) f (g : Globals) (w : W) :
  run h (modify f g) w = ((Return tt, f g), w, []).
Proof. reflexivity. Qed.

Ltac exec :=
  repeat (rewrite ?run_bind, ?run_lift, ?run_ask, ?run_call, ?run_get,
            ?run_ret, ?run_modify;
          cbn [Env.handle fst snd]).

Lemma settled_original_is_skipped (w : Env.world) (photo : Photo) (g : Globals) :
  settled w photo = true ->
  exists t,
    run Env.handle
      (export_photo_variant photo (original_path photo) false false g) w
      = ((Return true, skipped_once g), w, t)
    /\ export_calls t = [].
Proof.
  unfold settled. intros Hs.
  destruct (Env.files w !! PhotoInfo.path photo) as [src |] eqn:Hsrc; [| done].
  destruct (Env.files w !! original_path photo) as [tgt |] eqn:Htgt; [| done].
  apply andb_true_iff in Hs as [Hvis Hs].
  unfold export_photo_variant. cbn [then_ unit_ M_sequenced].
  rewrite run_bind, run_lift, run_ask. cbn [Env.handle fst snd]. rewrite Hvis.
  rewrite run_bind, run_lift.
  destruct (Env_compare w _ _ src tgt Hsrc Htgt) as (t1 & -> & Ht1).
  destruct (Str.eqb (Env.content src) (Env.content tgt)); cbn [negb orb] in *.
  - unfold vprint, VERBOSE. exec. unfold bump. cbn [modify run].
    eexists; split; [reflexivity |].
    rewrite !export_calls_app, Ht1. reflexivity.
  - destruct (Env.files w !! duplicate_path (original_path photo))
      as [dup |] eqn:Hdup; [| done].
    apply andb_true_iff in Hs as [Hdvis Hsame].
    unfold vprint, VERBOSE. exec. rewrite Hdvis. cbn [negb].
    exec.
    destruct (Env_compare w _ _ src dup Hsrc Hdup) as (t2 & -> & Ht2).
    rewrite Hsame. exec. unfold bump. cbn [modify run ret].
    eexists; split; [reflexivity |].
    rewrite !export_calls_app, Ht1, Ht2. reflexivity.
Qed.

Lemma settled_photo_is_skipped (w : Env.world) (photo : Photo) (g : Globals) :
  settled w photo = true ->
  exists t,
    run Env.handle (export_one photo g) w = ((Return tt, skipped_once g), w, t)
    /\ export_calls t = [].
Proof.
  intros Hs. unfold export_one. cbn [then_ unit_ M_sequenced].
  exec.
  destruct (settled_original_is_skipped w photo g Hs) as (t & -> & Ht).
  cbn [negb ret run].
  eexists; split; [reflexivity |].
  rewrite !export_calls_app, Ht. reflexivity.
Qed.

Lemma skipped_more_0 g : skipped_more 0 g = g.
Proof.
  destruct g as [[o e l s c] f]. unfold skipped_more; cbn.
  by rewrite Z.add_0_r.
Qed.

Lemma skipped_more_succ n g :
  skipped_more (Z.of_nat n) (skipped_once g) = skipped_more (Z.of_nat (S n)) g.
Proof.
  unfold skipped_more, skipped_once; cbn.
  by replace (duplicates_skipped (report g) + 1 + Z.of_nat n)
    with (duplicates_skipped (report g) + Z.of_nat (S n)) by lia.
Qed.

Lemma settled_photos_are_skipped (w : Env.world) (photos : list Photo) (g : Globals) :
  forallb (settled w) photos = true ->
  exists t,
    run Env.handle (for_each photos export_one g) w
      = ((Return tt, skipped_more (Z.of_nat (length photos)) g), w, t)
    /\ export_calls t = [].
Proof.
  revert g; induction photos as [| photo photos IH]; intros g Hall.
  - exists []. split; [| done]. cbn [length]. change (Z.of_nat 0) with 0.
    by rewrite skipped_more_0.
  - cbn [forallb] in Hall. apply andb_true_iff in Hall as [Hs Hall].
    cbn [for_each then_ M_sequenced]. rewrite run_bind.
    destruct (settled_photo_is_skipped w photo g Hs) as (t1 & -> & Ht1).
    destruct (IH (skipped_once g) Hall) as (t2 & -> & Ht2).
    eexists; split.
    + cbn [length]. by rewrite <-skipped_more_succ.
    + by rewrite export_calls_app, Ht1, Ht2.
Qed.

Lemma Env_print_report (w : Env.world) (g : Globals) :
  exists t, run Env.handle (print_report g) w = ((Return tt, g), w, t)
            /\ export_calls t = [].
Proof.
  unfold print_report. cbn [then_ unit_ M_sequenced].
  exec.
  assert (forall l, exists t,
    run Env.handle
      (for_each l (fun file => lift (ask (print (msg_failed_file file)))) g) w
      = ((Return tt, g), w, t) /\ export_calls t = []) as Hl.
  { induction l as [| f l (t & IH & Ht)].
    - by exists [].
    - cbn [for_each then_ M_sequenced]. exec. rewrite IH.
      eexists; split; [reflexivity |]. by rewrite export_calls_app, Ht. }
  destruct (Hl (failed_files g)) as (t & -> & Ht).
  eexists; split; [reflexivity |].
  rewrite !export_calls_app, Ht. reflexivity.
Qed.

(** C2, amended: a run on a destination where the Original of every
    photo to process is settled, which is how a first run leaves the
    photos it exported, increments [duplicates_skipped] by the number
    of processed photos: one per photo, whatever the number of variants
    the first run exported for it. It increments none of the three
    exported counters nor [duplicates_created], appends no failure,
    makes no export and leaves the destination as it is: the Edited and
    Live variants are not examined. *)
Theorem C2_second_run_skips_one_per_photo
    (w : Env.world) (TODAY : date) (g : Globals) :
  let photos := filter (since_start TODAY) (Env.library w) in
  forallb (settled w) photos = true ->
  let '(out, g', w', t) := run Env.handle (export_photos TODAY g) w in
  out = Return tt /\ w' = w /\ export_calls t = []
  /\ duplicates_skipped (report g')
     = duplicates_skipped (report g) + Z.of_nat (length photos)
  /\ originals_exported (report g') = originals_exported (report g)
  /\ edits_exported (report g') = edits_exported (report g)
  /\ live_photos_exported (report g') = live_photos_exported (report g)
  /\ duplicates_created (report g') = duplicates_created (report g)
  /\ failed_files g' = failed_files g.
Proof.
  intros photos Hall.
  unfold export_photos. cbn [then_ unit_ M_sequenced].
  exec. fold photos.
  destruct (settled_photos_are_skipped w photos g Hall) as (t1 & -> & Ht1).
  destruct (Env_print_report w (skipped_more (Z.of_nat (length photos)) g))
    as (t2 & -> & Ht2).
  split_and!; try done.
  cbn [app export_calls as_export].
  by rewrite !export_calls_app, Ht1, Ht2.
Qed.

(** ** A first run on a fresh destination *)

Lemma Env_fresh_variant (w : Env.world) (photo : Photo) (q : str)
    (is_edited is_live : bool) (g : Globals) (src : Env.file) :
  Env.write_delay w = 0 ->
  Env.files w !! q = None ->
  Env.files w !! source_of photo is_edited = Some src ->
  normalised q = true ->
  exists t,
    run Env.handle (export_photo_variant photo q is_edited is_live g) w
    = ((Return false, counted is_edited is_live g),
       Env.with_files w (<[q := exported_file w src photo]> (Env.files w)), t).
Proof.
  intros Hdelay Hq Hsrc Hnorm.
  apply bool_decide_eq_true in Hnorm.
  unfold export_photo_variant. cbn [then_ unit_ M_sequenced].
  exec. unfold Env.visible at 1. rewrite Hq.
  unfold vprint, VERBOSE, do_export. exec.
  unfold Env.export. fold (source_of photo is_edited). rewrite Hsrc, Hnorm, Hq.
  cbn [fst snd].
  rewrite run_try. unfold set_file_timestamp. exec.
  unfold Env.touch. cbn [Env.files Env.with_files Env.clock].
  rewrite lookup_insert_eq. cbn [Env.visible_at].
  rewrite Hdelay, Z.add_0_r, Z.leb_refl. cbn [fst snd Env.content].
  unfold pause_after_export, PAUSE_AFTER_EXPORT. exec.
  unfold count_exported, counted, inc_variant, bump.
  destruct is_edited, is_live; exec;
    unfold Env.with_files;
    cbn [Env.files Env.clock Env.write_delay Env.library];
    rewrite insert_insert_eq; eexists; reflexivity.
Qed.

Lemma add_variant_lookup photo q is_edited w k :
  k <> q ->
  Env.files (add_variant photo q is_edited w) !! k = Env.files w !! k.
Proof.
  intros Hk. unfold add_variant.
  destruct (Env.files w !! source_of photo is_edited); [| done].
  cbn. by rewrite lookup_insert_ne.
Qed.

Lemma add_variant_frame photo q is_edited w :
  Env.clock (add_variant photo q is_edited w) = Env.clock w
  /\ Env.write_delay (add_variant photo q is_edited w) = Env.write_delay w
  /\ Env.library (add_variant photo q is_edited w) = Env.library w.
Proof.
  unfold add_variant.
  by destruct (Env.files w !! source_of photo is_edited).
Qed.

Lemma after_photo_lookup w photo k :
  k ∉ targets photo ->
  Env.files (after_photo w photo) !! k = Env.files w !! k.
Proof.
  unfold targets, after_photo. intros Hk.
  apply not_elem_of_cons in Hk as [Ho Hk].
  apply not_elem_of_app in Hk as [He Hl].
  destruct (PhotoInfo.hasadjustments photo), (PhotoInfo.live_photo photo);
    repeat (rewrite add_variant_lookup by set_solver); done.
Qed.

Lemma after_photo_frame w photo :
  Env.clock (after_photo w photo) = Env.clock w
  /\ Env.write_delay (after_photo w photo) = Env.write_delay w
  /\ Env.library (after_photo w photo) = Env.library w.
Proof.
  unfold after_photo.
  destruct (PhotoInfo.hasadjustments photo), (PhotoInfo.live_photo photo);
    repeat match goal with
           | |- context [add_variant ?p ?q ?e ?w] =>
               destruct (add_variant_frame p q e w) as (-> & -> & ->)
           end; done.
Qed.

Lemma Env_fresh_photo (w : Env.world) (photo : Photo) (g : Globals) :
  Env.write_delay w = 0 ->
  exportable w photo ->
  exists t,
    run Env.handle (export_one photo g) w
    = ((Return tt, count_photo g photo), after_photo w photo, t).
Proof.
  intros Hdelay (Hsrc & Hedit & Hnodup & Hfree).
  unfold targets in Hnodup, Hfree.
  pose proof (NoDup_cons_1_1 _ _ Hnodup) as Hnotin.
  apply NoDup_cons_1_2 in Hnodup.
  apply Forall_cons_1 in Hfree as [[Hofree Honorm] Hfree].
  destruct Hsrc as [src Hsrc].
  unfold export_one. cbn [then_ unit_ M_sequenced]. exec.
  destruct (Env_fresh_variant w photo (original_path photo) false false g src)
    as [t1 ->]; try done.
  cbn [negb]. unfold after_photo, count_photo.
  assert (add_variant photo (original_path photo) false w
          = Env.with_files w
              (<[original_path photo := exported_file w src photo]> (Env.files w)))
    as <-.
  { unfold add_variant. cbn [source_of]. by rewrite Hsrc. }
  set (w1 := add_variant photo (original_path photo) false w) in *.
  destruct (add_variant_frame photo (original_path photo) false w)
    as (Hc1 & Hd1 & Hl1). fold w1 in Hc1, Hd1, Hl1.
  destruct (PhotoInfo.hasadjustments photo) eqn:Hadj.
  - destruct Hedit as [esrc Hesrc]; [done |].
    apply Forall_app in Hfree as [Hefree Hlfree].
    apply Forall_singleton in Hefree as [Hefree Henorm].
    assert (edited_path photo <> original_path photo) as Hne1.
    { intros Heq. apply Hnotin. rewrite <-Heq. set_solver. }
    assert (Env.files w !! PhotoInfo.path_edited photo
            <> Env.files w !! original_path photo) as _ by congruence.
    assert (PhotoInfo.path_edited photo <> original_path photo) as Hne2
      by congruence.
    rewrite run_bind, run_bind.
    destruct (Env_fresh_variant w1 photo (edited_path photo) true false
                (counted false false g) esrc) as [t2 ->]; try done.
    { by rewrite Hd1. }
    { unfold w1. by rewrite add_variant_lookup. }
    { unfold w1. cbn [source_of]. by rewrite add_variant_lookup. }
    exec.
    assert (add_variant photo (edited_path photo) true w1
            = Env.with_files w1
                (<[edited_path photo := exported_file w1 esrc photo]>
                   (Env.files w1))) as <-.
    { unfold add_variant at 1. cbn [source_of]. unfold w1 at 1.
      rewrite add_variant_lookup by done. by rewrite Hesrc. }
    set (w2 := add_variant photo (edited_path photo) true w1) in *.
    destruct (add_variant_frame photo (edited_path photo) true w1)
      as (Hc2 & Hd2 & Hl2). fold w2 in Hc2, Hd2, Hl2.
    destruct (PhotoInfo.live_photo photo) eqn:Hlive.
    + apply Forall_singleton in Hlfree as [Hlfree Hlnorm].
      pose proof (NoDup_cons_1_1 _ _ Hnodup) as Hnotin2.
      assert (live_photo_path photo <> original_path photo) as Hne3.
      { intros Heq. apply Hnotin. rewrite <-Heq. set_solver. }
      assert (live_photo_path photo <> edited_path photo) as Hne4.
      { intros Heq. apply Hnotin2. rewrite <-Heq. set_solver. }
      assert (PhotoInfo.path photo <> original_path photo) as Hne5 by congruence.
      assert (PhotoInfo.path photo <> edited_path photo) as Hne6 by congruence.
      rewrite run_bind.
      destruct (Env_fresh_variant w2 photo (live_photo_path photo) false true
                  (counted true false (counted false false g)) src)
        as [t3 ->]; try done.
      { by rewrite Hd2, Hd1. }
      { unfold w2, w1. by rewrite !add_variant_lookup. }
      { unfold w2, w1. cbn [source_of]. by rewrite !add_variant_lookup. }
      exec.
      assert (add_variant photo (live_photo_path photo) false w2
              = Env.with_files w2
                  (<[live_photo_path photo := exported_file w2 src photo]>
                     (Env.files w2))) as <-.
      { unfold add_variant at 1. cbn [source_of]. unfold w2 at 1, w1 at 1.
        rewrite !add_variant_lookup by done. by rewrite Hsrc. }
      eexists; reflexivity.
    + exec. eexists; reflexivity.
  - rewrite app_nil_l in Hfree, Hnodup. rewrite run_bind. exec.
    destruct (PhotoInfo.live_photo photo) eqn:Hlive.
    + apply Forall_singleton in Hfree as [Hlfree Hlnorm].
      assert (live_photo_path photo <> original_path photo) as Hne3.
      { intros Heq. apply Hnotin. rewrite <-Heq. set_solver. }
      assert (PhotoInfo.path photo <> original_path photo) as Hne5 by congruence.
      rewrite run_bind.
      destruct (Env_fresh_variant w1 photo (live_photo_path photo) false true
                  (counted false false g) src)
        as [t3 ->]; try done.
      { by rewrite Hd1. }
      { unfold w1. by rewrite !add_variant_lookup. }
      { unfold w1. cbn [source_of]. by rewrite !add_variant_lookup. }
      exec.
      assert (add_variant photo (live_photo_path photo) false w1
              = Env.with_files w1
                  (<[live_photo_path photo := exported_file w1 src photo]>
                     (Env.files w1))) as <-.
      { unfold add_variant at 1. cbn [source_of]. unfold w1 at 1.
        rewrite !add_variant_lookup by done. by rewrite Hsrc. }
      eexists; reflexivity.
    + exec. eexists; reflexivity.
Qed.

Lemma present_not_target (w : Env.world) (k : str) (qs : list str) :
  is_Some (Env.files w !! k) ->
  Forall (fun q => Env.files w !! q = None /\ normalised q = true) qs ->
  k ∉ qs.
Proof.
  intros [f Hk] Hqs Hin.
  rewrite Forall_forall in Hqs. destruct (Hqs k Hin) as [Hnone _]. congruence.
Qed.

Lemma fresh_destination_cons w photo photos :
  fresh_destination w (photo :: photos) ->
  exportable w photo /\ fresh_destination (after_photo w photo) photos.
Proof.
  intros (Hnodup & Hfree & Hsrc). cbn [map concat] in Hnodup, Hfree.
  apply NoDup_app in Hnodup as (Hnd1 & Hdisj & Hnd2).
  apply Forall_app in Hfree as [Hfree1 Hfree2].
  apply Forall_cons_1 in Hsrc as [[Hp Hpe] Hsrc].
  split; [by repeat split |].
  split_and!; [done | |].
  - rewrite Forall_forall in Hfree2 |- *. intros q Hq.
    destruct (Hfree2 q Hq) as [Hnone Hnorm]. split; [| done].
    rewrite after_photo_lookup; [done |]. intros Hin. by apply (Hdisj q).
  - rewrite Forall_forall in Hsrc |- *. intros p' Hp'.
    destruct (Hsrc p' Hp') as [H1 H2]. split.
    + rewrite after_photo_lookup; [done |].
      by eapply present_not_target.
    + intros Hadj. rewrite after_photo_lookup; [by apply H2 |].
      eapply present_not_target; [by apply H2 | done].
Qed.

Lemma after_photos_lookup w photos k :
  k ∉ concat (map targets photos) ->
  Env.files (after_photos w photos) !! k = Env.files w !! k.
Proof.
  revert w; induction photos as [| photo photos IH]; intros w Hk; [done |].
  cbn [map concat] in Hk. apply not_elem_of_app in Hk as [Hk1 Hk2].
  cbn [after_photos]. rewrite IH by done. by apply after_photo_lookup.
Qed.

Lemma after_photos_frame w photos :
  Env.clock (after_photos w photos) = Env.clock w
  /\ Env.write_delay (after_photos w photos) = Env.write_delay w
  /\ Env.library (after_photos w photos) = Env.library w.
Proof.
  revert w; induction photos as [| photo photos IH]; intros w; [done |].
  cbn [after_photos]. destruct (IH (after_photo w photo)) as (-> & -> & ->).
  apply after_photo_frame.
Qed.

Lemma Env_fresh_photos (w : Env.world) (photos : list Photo) (g : Globals) :
  Env.write_delay w = 0 ->
  fresh_destination w photos ->
  exists t,
    run Env.handle (for_each photos export_one g) w
    = ((Return tt, count_photos g photos), after_photos w photos, t).
Proof.
  revert w g; induction photos as [| photo photos IH]; intros w g Hdelay Hfresh.
  - by exists [].
  - apply fresh_destination_cons in Hfresh as [Hphoto Hfresh].
    cbn [for_each then_ M_sequenced]. rewrite run_bind.
    destruct (Env_fresh_photo w photo g Hdelay Hphoto) as [t1 ->].
    destruct (IH (after_photo w photo) (count_photo g photo)) as [t2 ->];
      [| done |].
    + destruct (after_photo_frame w photo) as (_ & -> & _). done.
    + eexists; reflexivity.
Qed.

(** The Original of [photo] is at its target with the bytes of the source. *)
Lemma settled_intro (w : Env.world) (photo : Photo) (src tgt : Env.file) :
  Env.files w !! PhotoInfo.path photo = Some src ->
  Env.files w !! original_path photo = Some tgt ->
  Env.content tgt = Env.content src ->
  Env.visible_at tgt <= Env.clock w ->
  settled w photo = true.
Proof.
  intros Hsrc Htgt Hc Hv. unfold settled, Env.visible. rewrite Hsrc, Htgt, Hc.
  apply andb_true_iff; split; [by apply Z.leb_le |].
  apply orb_true_iff; left. by apply bool_decide_eq_true.
Qed.

Lemma fresh_destination_settled (w : Env.world) (photos : list Photo) :
  fresh_destination w photos ->
  forallb (settled (after_photos w photos)) photos = true.
Proof.
  revert w; induction photos as [| photo photos IH]; intros w Hfresh; [done |].
  pose proof Hfresh as (Hnodup & Hfree & Hsrc).
  apply fresh_destination_cons in Hfresh as [Hphoto Hfresh'].
  cbn [forallb after_photos]. apply andb_true_iff; split; [| by apply IH].
  destruct Hphoto as ([src Hs] & _ & Hnd & Hfr).
  cbn [map concat] in Hnodup, Hfree.
  apply NoDup_app in Hnodup as (_ & Hdisj & _).
  apply Forall_app in Hfree as [_ Hfree2].
  assert (original_path photo ∈ targets photo) as Hin by (unfold targets; left).
  assert (PhotoInfo.path photo ∉ targets photo) as Hnot1
    by (by eapply present_not_target).
  assert (PhotoInfo.path photo ∉ concat (map targets photos)) as Hnot2
    by (by eapply present_not_target).
  destruct (after_photos_frame (after_photo w photo) photos) as (Hc & _ & _).
  destruct (after_photo_frame w photo) as (Hc' & _ & _).
  apply (settled_intro _ photo src (exported_file w src photo)).
  - rewrite after_photos_lookup, after_photo_lookup by done. done.
  - rewrite after_photos_lookup by (by apply Hdisj).
    unfold after_photo.
    unfold targets in Hnd. pose proof (NoDup_cons_1_1 _ _ Hnd) as Hnotin.
    assert (Env.files (add_variant photo (original_path photo) false w)
              !! original_path photo = Some (exported_file w src photo)) as Ho.
    { unfold add_variant. cbn [source_of]. rewrite Hs. cbn.
      by rewrite lookup_insert_eq. }
    destruct (PhotoInfo.hasadjustments photo), (PhotoInfo.live_photo photo);
      cbn [app] in Hnotin;
      repeat (apply not_elem_of_cons in Hnotin as [? Hnotin]);
      repeat (rewrite add_variant_lookup by done); done.
  - done.
  - rewrite Hc, Hc'. cbn. lia.
Qed.

(** What the first run counts: one Original per photo, one Edited per
    photo with adjustments, one Live per live photo. *)
Lemma count_photos_report (g : Globals) (photos : list Photo) :
  let g' := count_photos g photos in
  originals_exported (report g')
    = originals_exported (report g) + Z.of_nat (length photos)
  /\ edits_exported (report g')
     = edits_exported (report g)
       + Z.of_nat (length (filter (fun p => PhotoInfo.hasadjustments p = true) photos))
  /\ live_photos_exported (report g')
     = live_photos_exported (report g)
       + Z.of_nat (length (filter (fun p => PhotoInfo.live_photo p = true) photos))
  /\ duplicates_skipped (report g') = duplicates_skipped (report g)
  /\ duplicates_created (report g') = duplicates_created (report g)
  /\ failed_files g' = failed_files g.
Proof.
  revert g; induction photos as [| photo photos IH]; intros g.
  - cbn. split_and!; try done; lia.
  - cbn [count_photos]. cbn zeta in IH |- *.
    destruct (IH (count_photo g photo)) as (H1 & H2 & H3 & H4 & H5 & H6).
    rewrite H1, H2, H3, H4, H5, H6. clear IH H1 H2 H3 H4 H5 H6.
    rewrite !filter_cons. unfold count_photo, counted.
    destruct (PhotoInfo.hasadjustments photo), (PhotoInfo.live_photo photo);
      repeat case_decide; try done; cbn; split_and!; try done; lia.
Qed.

(** The first run on a fresh destination exports every variant of every
    photo to process and leaves every Original settled. *)
Lemma first_run_on_fresh_destination
    (w : Env.world) (TODAY : date) (g : Globals) :
  let photos := filter (since_start TODAY) (Env.library w) in
  Env.write_delay w = 0 ->
  fresh_destination w photos ->
  exists t,
    run Env.handle (export_photos TODAY g) w
    = ((Return tt, count_photos g photos), after_photos w photos, t)
    /\ forallb (settled (after_photos w photos)) photos = true.
Proof.
  intros photos Hdelay Hfresh.
  unfold export_photos. cbn [then_ unit_ M_sequenced]. exec. fold photos.
  destruct (Env_fresh_photos w photos g Hdelay Hfresh) as [t1 ->].
  destruct (Env_print_report (after_photos w photos) (count_photos g photos))
    as (t2 & -> & _).
  eexists; split; [reflexivity |]. by apply fresh_destination_settled.
Qed.

(** X28: two runs in the reference environment, under these premises
    on the recent photos (those that pass the date filter): a written
    file can be seen at once ([write_delay] is 0); the source file of
    every recent photo is on the disk (the original, and the edited
    version of a photo with adjustments); the target paths of all their
    variants are pairwise distinct, hold no file, and are taken apart by
    [os.path.dirname] and [os.path.basename] and put together again by
    [os.path.join]. Then the first run ends and has counted every
    variant of every recent photo as exported (one original per photo,
    one edit per photo with adjustments, one live companion per live
    photo); the second run ends, skips one duplicate per photo, exports
    nothing and leaves the destination as it is. Without the premise on
    the sources the first run can raise, as on [Scenario.lost]. *)
Lemma two_runs_on_fresh_destination (w : Env.world) (TODAY : date) :
  let photos := filter (since_start TODAY) (Env.library w) in
  Env.write_delay w = 0 ->
  fresh_destination w photos ->
  let '(out1, first, w1, _) :=
    run Env.handle (export_photos TODAY initial_globals) w in
  let '(out2, second, w2, t2) :=
    run Env.handle (export_photos TODAY initial_globals) w1 in
  out1 = Return tt
  /\ originals_exported (report first) = Z.of_nat (length photos)
  /\ edits_exported (report first)
     = Z.of_nat (length (filter (fun p => PhotoInfo.hasadjustments p = true) photos))
  /\ live_photos_exported (report first)
     = Z.of_nat (length (filter (fun p => PhotoInfo.live_photo p = true) photos))
  /\ out2 = Return tt /\ w2 = w1 /\ export_calls t2 = []
  /\ duplicates_skipped (report second) = Z.of_nat (length photos)
  /\ originals_exported (report second) = 0
  /\ edits_exported (report second) = 0
  /\ live_photos_exported (report second) = 0.
Proof.
  intros photos Hdelay Hfresh.
  destruct (first_run_on_fresh_destination w TODAY initial_globals Hdelay Hfresh)
    as (t1 & -> & Hsettled). fold photos in Hsettled |- *.
  destruct (after_photos_frame w photos) as (_ & _ & Hlib).
  unfold export_photos at 1. cbn [then_ unit_ M_sequenced]. exec.
  rewrite Hlib. fold photos.
  destruct (settled_photos_are_skipped (after_photos w photos) photos
              initial_globals Hsettled) as (t2 & -> & Ht2).
  destruct (Env_print_report (after_photos w photos)
              (skipped_more (Z.of_nat (length photos)) initial_globals))
    as (t3 & -> & Ht3).
  destruct (count_photos_report initial_globals photos)
    as (H1 & H2 & H3 & _).
  cbn [initial_globals report originals_exported edits_exported
       live_photos_exported] in H1, H2, H3.
  split_and!; try done.
  cbn [app export_calls as_export]. by rewrite !export_calls_app, Ht2, Ht3.
Qed.

(** X19: the retry law of the polling loop, in any environment: when
    the file is seen at the attempt [k + 1 <= n] and not before, the
    loop has made [k + 1] existence checks and [k] pauses of one
    second, and ends with the result of setting the two times of the
    file to the capture timestamp of the photo. *)
Lemma poll_timestamp_seen {W} (h : handler W) (p : str) (photo : Photo)
    (n k : nat) (w : W) :
  (k < n)%nat ->
  (forall j, (j < k)%nat ->
     (h _ (os_path_exists p) (after_polls h p j w)).1 = false) ->
  (h _ (os_path_exists p) (after_polls h p k w)).1 = true ->
  let '(out, _, t) := run h (poll_timestamp n p photo) w in
  let stamp := Datetime.timestamp (PhotoInfo.date photo) in
  existence_checks p t = S k
  /\ sleeps t = replicate k 1
  /\ out = (h _ (os_utime p stamp stamp)
              (h _ (os_path_exists p) (after_polls h p k w)).2).1.
Proof.
  revert k w; induction n as [| n IH]; intros k w Hk Hfalse Htrue; [lia |].
  rewrite poll_timestamp_S, run_io_bind, run_ask.
  destruct k as [| k].
  - cbn [after_polls] in Htrue. rewrite Htrue.
    unfold set_file_timestamp. rewrite run_call. cbn.
    by rewrite bool_decide_true.
  - pose proof (Hfalse O ltac:(lia)) as H0. cbn [after_polls] in H0.
    rewrite H0. rewrite run_io_bind, run_ask.
    specialize (IH k (h _ (time_sleep 1) (h _ (os_path_exists p) w).2).2).
    destruct (run h (poll_timestamp n p photo) _) as [[out w'] t].
    cbn. rewrite bool_decide_true by done.
    destruct IH as (H1 & H2 & H3); [lia | | done |].
    + intros j Hj. apply (Hfalse (S j)). lia.
    + by rewrite H1, H2, H3.
Qed.

(** X20: in any environment, when the file is not seen at any of the
    [n] attempts, the loop has made [n] existence checks and [n] pauses
    of one second, and raises [FileNotFoundError] with the message that
    the path still does not exist. *)
Lemma poll_timestamp_absent {W} (h : handler W) (p : str) (photo : Photo)
    (n : nat) (w : W) :
  (forall j, (j < n)%nat ->
     (h _ (os_path_exists p) (after_polls h p j w)).1 = false) ->
  let '(out, _, t) := run h (poll_timestamp n p photo) w in
  existence_checks p t = n
  /\ sleeps t = replicate n 1
  /\ out = Raise (FileNotFoundError
                    (p ++ " still does not exist after multiple checks.")).
Proof.
  revert w; induction n as [| n IH]; intros w Hfalse.
  - by cbn.
  - rewrite poll_timestamp_S, run_io_bind, run_ask.
    pose proof (Hfalse O ltac:(lia)) as H0. cbn [after_polls] in H0.
    rewrite H0. rewrite run_io_bind, run_ask.
    specialize (IH (h _ (time_sleep 1) (h _ (os_path_exists p) w).2).2).
    destruct (run h (poll_timestamp n p photo) _) as [[out w'] t].
    cbn. rewrite bool_decide_true by done.
    destruct IH as (H1 & H2 & H3).
    + intros j Hj. apply (Hfalse (S j)). lia.
    + by rewrite H1, H2, H3.
Qed.

(** ** The two branches of the reconciler, in any environment *)

(** In any environment, the timestamp of a fresh export is set by one
    attempt: the path is checked once, at the start of the call, and
    there is no pause. *)
Lemma fresh_target_single_attempt
    {W : Type} (h : handler W) (w : W)
    (photo : Photo) (path : str) (is_edited is_live : bool) (g : Globals) :
  (h _ (os_path_exists path) w).1 = false ->
  let '(_, _, _, t) :=
    run h (export_photo_variant photo path is_edited is_live g) w in
  existence_checks path t = 1%nat /\ sleeps t = [].
Proof.
  intros Hmissing.
  unfold export_photo_variant. cbn [then_ unit_ M_sequenced].
  rewrite run_bind, run_lift, run_ask, Hmissing.
  cbn [fst snd].
  match goal with
  | |- context [run h ?m ?w1] =>
      assert (always m
        (fun t _ => existence_checks path t = O /\ sleeps t = [])) as Hrest;
      [| apply (always_run h _ _ w1) in Hrest;
         destruct (run h m w1) as [[[out g'] w'] t'];
         cbn [fst snd] in *;
         destruct Hrest as [H1 H2];
         cbn [app existence_checks sleeps];
         by rewrite bool_decide_true, H1, H2 ]
  end.
  repeat step.
  all: by simpl.
Qed.

Lemma always_lift_confined (P : entry -> Prop) {A} (m : io A) (g : Globals)
    (Q : list entry -> res A * Globals -> Prop) :
  confined P m -> (forall t r, Forall P t -> Q t (r, g)) ->
  always (lift m g) Q.
Proof.
  intros Hm HQ. apply always_lift.
  eapply always_mono; [| exact Hm]. intros t r Ht. by apply HQ.
Qed.

(** In any environment, when the target exists with other content and
    the sibling pre-exists with other content too, the call makes no
    export and counts the variant as exported. *)
Lemma unresolved_mismatch_is_counted
    {W : Type} (h : handler W) (w w1 w2 : W) (t1 t2 : list entry)
    (photo : Photo) (path : str) (is_edited is_live : bool) (g : Globals) :
  let source :=
    if is_edited then PhotoInfo.path_edited photo else PhotoInfo.path photo in
  let seen := h _ (os_path_exists path) w in
  seen.1 = true ->
  run h (file_hashes_match source path) seen.2 = (Return false, w1, t1) ->
  let announced := h _ (print (msg_exporting is_edited is_live path)) w1 in
  let sibling_seen := h _ (os_path_exists (duplicate_path path)) announced.2 in
  sibling_seen.1 = true ->
  run h (file_hashes_match source (duplicate_path path)) sibling_seen.2
    = (Return false, w2, t2) ->
  let '(out, g', _, t) :=
    run h (export_photo_variant photo path is_edited is_live g) w in
  export_calls t = []
  /\ out = Return false
  /\ report g' = inc_variant is_edited is_live (report g).
Proof.
  intros source seen Hseen Hcmp announced sibling_seen Hsib Hcmp2.
  pose proof (confined_run not_export h _ seen.2
                (file_hashes_match_no_export source path)) as Ht1.
  pose proof (confined_run not_export h _ sibling_seen.2
                (file_hashes_match_no_export source (duplicate_path path))) as Ht2.
  rewrite Hcmp in Ht1. rewrite Hcmp2 in Ht2. cbn [snd] in Ht1, Ht2.
  apply export_calls_nil in Ht1, Ht2.
  unfold export_photo_variant. cbn [then_ unit_ M_sequenced].
  rewrite run_bind, run_lift, run_ask. fold seen. rewrite Hseen. cbn [fst snd].
  fold source. rewrite run_bind, run_lift, Hcmp. cbn [negb].
  unfold vprint, VERBOSE.
  rewrite run_bind, run_lift, run_ask. fold announced. cbn [fst snd].
  rewrite run_bind, run_lift, run_ask. fold sibling_seen. rewrite Hsib.
  cbn [fst snd negb].
  rewrite run_bind, run_bind, run_lift, Hcmp2.
  rewrite run_bind, run_lift, run_ask. cbn [fst snd].
  rewrite run_ret.
  match goal with
  | |- context [run h ?m ?w3] =>
      assert (always m
        (fun t out => export_calls t = [] /\ out.1 = Return false
           /\ report out.2 = inc_variant is_edited is_live (report g))) as Hrest;
      [| apply (always_run h _ _ w3) in Hrest;
         destruct (run h m w3) as [[[out g'] w'] t'];
         cbn [fst snd] in *;
         destruct Hrest as (H1 & H2 & H3);
         split_and!; [| done | done];
         cbn [app export_calls as_export];
         rewrite !export_calls_app, Ht1; cbn [app export_calls as_export];
         by rewrite !export_calls_app, Ht2, H1 ]
  end.
  repeat match goal with
         | |- always (lift (poll_timestamp _ _ _) _) _ => fail 1
         | |- _ => rewrite andb_false_r
         | |- _ => step
         end.
  apply always_lift_confined with (P := not_export);
    [apply poll_timestamp_no_export |].
  intros t [[] | e] Ht%export_calls_nil; cbn [fst snd].
  - repeat step. split_and!; [| done | done].
    cbn [app export_calls as_export]. by rewrite !export_calls_app, Ht.
  - step; repeat step; (split_and!; [| done | done]);
      cbn [app export_calls as_export]; by rewrite !export_calls_app, Ht.
Qed.

(** ** Paths built by the driver *)

Lemma rstrip_snoc c d : Str.rstrip c (d ++ [c]) = Str.rstrip c d.
Proof.
  induction d as [| x d IH]; cbn [app Str.rstrip].
  - by rewrite bool_decide_true.
  - by rewrite IH.
Qed.

Lemma rstrip_id c d :
  (forall x, last d = Some x -> x <> c) -> Str.rstrip c d = d.
Proof.
  induction d as [| x d IH]; intros Hlast; [done |].
  cbn [Str.rstrip]. destruct d as [| y d].
  - cbn. rewrite bool_decide_false; [done |]. by apply Hlast.
  - rewrite IH by (intros z Hz; by apply Hlast). done.
Qed.

(** A path joined from a directory that does not end in [/] and a
    filename without [/] is taken apart again by [dirname] and
    [basename]: the export of such a path is an export at that path. *)
Lemma dirname_basename_join (d f : str) :
  d <> [] -> (forall x, last d = Some x -> x <> Path.sep) -> Path.sep ∉ f ->
  Path.dirname (Path.join d f) = d /\ Path.basename (Path.join d f) = f.
Proof.
  intros Hd Hlast Hf.
  assert (Path.join d f = d ++ Path.sep :: f) as ->.
  { unfold Path.join.
    assert (Str.startswith f [Path.sep] = false) as ->.
    { destruct f as [| c f]; [done |]. cbn.
      rewrite bool_decide_false; [done |]. intros <-. apply Hf. left. }
    assert (Str.eqb d [] = false) as -> by (by apply bool_decide_eq_false).
    assert (Str.endswith d [Path.sep] = false) as ->; [| done].
    unfold Str.endswith, Str.eqb. apply andb_false_iff.
    destruct (decide (length d = 0)%nat) as [Hz | Hnz].
    { by destruct d. }
    right. apply bool_decide_eq_false. intros Hdrop.
    destruct (last d) as [x |] eqn:Hx.
    - apply (Hlast x eq_refl).
      apply last_Some in Hx as [d' ->]. rewrite length_app in Hdrop. cbn in Hdrop.
      replace (length d' + 1 - 1)%nat with (length d') in Hdrop by lia.
      rewrite drop_app_length in Hdrop. congruence.
    - apply last_None in Hx. done. }
  assert (Str.rfind Path.sep (d ++ Path.sep :: f) = Z.of_nat (length d)) as Hr.
  { unfold Str.rfind. by rewrite rfind_from_last. }
  unfold Path.dirname, Path.basename, Str.upto, Str.from. rewrite Hr.
  replace (Z.to_nat (Z.of_nat (length d) + 1)) with (S (length d)) by lia.
  assert (take (S (length d)) (d ++ Path.sep :: f) = d ++ [Path.sep]) as ->.
  { rewrite take_app_ge by lia.
    replace (S (length d) - length d)%nat with 1%nat by lia. done. }
  assert (drop (S (length d)) (d ++ Path.sep :: f) = f) as ->.
  { rewrite drop_app_ge by lia.
    replace (S (length d) - length d)%nat with 1%nat by lia. done. }
  split; [| done].
  assert (Str.eqb (d ++ [Path.sep]) [] = false) as ->.
  { apply bool_decide_eq_false. by destruct d. }
  assert (forallb (fun c => bool_decide (c = Path.sep)) (d ++ [Path.sep]) = false)
    as ->.
  { apply not_true_is_false. rewrite forallb_forall. intros Hall.
    destruct (last d) as [x |] eqn:Hx; [| by apply last_None in Hx].
    apply (Hlast x eq_refl).
    apply last_Some in Hx as [d' ->].
    specialize (Hall x). rewrite bool_decide_eq_true in Hall. apply Hall.
    apply in_or_app; left. apply in_or_app; right. by left. }
  cbn [negb andb]. rewrite rstrip_snoc. by apply rstrip_id.
Qed.

(** ** The collision-suffixed sibling *)

Lemma replace_no_dot s :
  "."%char ∉ s -> Str.replace "."%char " (1)." s = s.
Proof.
  induction s as [| c s IH]; intros Hs; [done |].
  apply not_elem_of_cons in Hs as [Hc Hs].
  unfold Str.replace in *. cbn [flat_map].
  rewrite bool_decide_false by done. by rewrite IH.
Qed.

Lemma replace_single_dot stem ext :
  "."%char ∉ stem -> "."%char ∉ ext ->
  Str.replace "."%char " (1)." (stem ++ "."%char :: ext)
  = stem ++ " (1)" ++ "."%char :: ext.
Proof.
  intros Hs He. unfold Str.replace. rewrite flat_map_app. cbn [flat_map].
  rewrite bool_decide_true by done.
  fold (Str.replace "."%char " (1)." stem). fold (Str.replace "."%char " (1)." ext).
  rewrite !replace_no_dot by done. reflexivity.
Qed.

Lemma splitext_single_dot stem ext :
  stem <> [] -> "."%char ∉ stem -> "."%char ∉ ext ->
  "/"%char ∉ stem -> "/"%char ∉ ext ->
  Path.splitext (stem ++ "."%char :: ext) = (stem, "."%char :: ext).
Proof.
  intros Hne Hs He Hss Hse. unfold Path.splitext.
  assert (Str.rfind Path.extsep (stem ++ "."%char :: ext)
          = Z.of_nat (length stem)) as ->.
  { unfold Str.rfind. by rewrite rfind_from_last. }
  assert (Str.rfind Path.sep (stem ++ "."%char :: ext) = -1) as ->.
  { apply rfind_from_absent. rewrite elem_of_app, elem_of_cons.
    intros [? | [? | ?]]; done. }
  destruct (Z.ltb_spec (-1) (Z.of_nat (length stem))) as [_ | ?]; [| lia].
  unfold Str.from, Str.upto.
  replace (Z.to_nat (-1 + 1)) with O by lia.
  replace (Z.to_nat (Z.of_nat (length stem) - (-1 + 1))) with (length stem) by lia.
  rewrite drop_0, Nat2Z.id, take_app_length, drop_app_length.
  destruct stem as [| c stem]; [done |].
  cbn [existsb]. apply not_elem_of_cons in Hs as [Hc _].
  rewrite bool_decide_false by done. reflexivity.
Qed.

(** On a filename with one dot the source and the specification agree. *)
Lemma sibling_of_single_dot_name stem ext :
  stem <> [] -> "."%char ∉ stem -> "."%char ∉ ext ->
  "/"%char ∉ stem -> "/"%char ∉ ext ->
  Str.replace "."%char " (1)." (stem ++ "."%char :: ext)
  = (let '(s, e) := Path.splitext (stem ++ "."%char :: ext) in s ++ " (1)" ++ e).
Proof.
  intros. rewrite splitext_single_dot by done. by apply replace_single_dot.
Qed.

(** ** The defects and the idempotence, on concrete inputs *)

Import Example.

(** C3 (defect of the source): the sibling path is computed by
    [replace(".", " (1).")], which inserts [ (1)] before every dot of
    the filename. For the target [IMG_1234.jpg] the sibling is
    [IMG_1234 (1).jpg]; for a filename with three dots, such as a
    screenshot named after its time, [ (1)] is inserted three times,
    where the claim has one insertion before the last dot. *)
Theorem C3_sibling_of_multi_dot_name :
  duplicate_path "/Volumes/Archive/2023/06/IMG_1234.jpg"
    = "/Volumes/Archive/2023/06/IMG_1234 (1).jpg"
  /\ duplicate_path "/Volumes/Archive/2023/06/Screen Shot 2023-06-15 at 10.30.45.png"
     = "/Volumes/Archive/2023/06/Screen Shot 2023-06-15 at 10 (1).30 (1).45 (1).png"
  /\ sibling_per_spec "/Volumes/Archive/2023/06/Screen Shot 2023-06-15 at 10.30.45.png"
     = "/Volumes/Archive/2023/06/Screen Shot 2023-06-15 at 10.30.45 (1).png"
  /\ duplicate_path "/Volumes/Archive/2023/06/Screen Shot 2023-06-15 at 10.30.45.png"
     <> sibling_per_spec "/Volumes/Archive/2023/06/Screen Shot 2023-06-15 at 10.30.45.png".
Proof. split_and!; by vm_compute. Qed.

(** C1 (defect of the source): the target exists with other bytes and
    the collision-suffixed sibling pre-exists with yet other bytes. The
    call makes no export, but it goes on to the timestamp and to the
    "Update report" block: [originals_exported] is incremented and the
    call returns [False], where the claim has no counter incremented. *)
Theorem C1_unresolved_mismatch_is_counted_as_exported :
  let source := PhotoInfo.path photo in
  let '(out, g', _, t) :=
    run Env.handle
      (export_photo_variant photo target false false initial_globals) clash in
  Env.visible clash target = true
  /\ (run Env.handle (file_hashes_match source target) clash).1.1 = Return false
  /\ Env.visible clash (duplicate_path target) = true
  /\ (run Env.handle (file_hashes_match source (duplicate_path target)) clash).1.1
     = Return false
  /\ export_calls t = []
  /\ out = Return false
  /\ originals_exported (report g') = originals_exported (report initial_globals) + 1
  /\ duplicates_skipped (report g') = duplicates_skipped (report initial_globals)
  /\ duplicates_created (report g') = duplicates_created (report initial_globals).
Proof. by vm_compute. Qed.

(** C4 (defect of the source): after the export to a target that did
    not exist, the timestamp is set by one direct attempt, without any
    poll of the path and without a pause. On a destination where the
    written file can be seen one second later, the attempt fails at
    once and the failure is recorded, although the polling loop of the
    other branch, started in the same state, sees the file at its
    second check. *)
Theorem C4_fresh_export_is_not_polled :
  let '(out, g', w', t) :=
    run Env.handle
      (export_photo_variant photo target false false initial_globals) slow in
  Env.visible slow target = false
  /\ export_calls t
     = [(photo, Path.dirname target, Path.basename target, false, false)]
  /\ existence_checks target t = 1%nat
  /\ sleeps t = []
  /\ failed_files g' = [failure_of target photo]
  /\ out = Return false
  /\ originals_exported (report g') = 1
  /\ (let '(polled, _, t2) := run Env.handle (poll_timestamp 5 target photo) w' in
      polled = Return tt /\ existence_checks target t2 = 2%nat /\ sleeps t2 = [1]).
Proof. by vm_compute. Qed.

(** C2, as stated, fails: the first run exports the Original, the
    Edited and the Live variant of the photo; the second run finds the
    Original as a duplicate and stops there for this photo. *)
Lemma C2_second_run_counterexample :
  let '(_, first, w1, _) :=
    run Env.handle (export_photos TODAY initial_globals) fresh in
  let '(_, second, _, _) :=
    run Env.handle (export_photos TODAY initial_globals) w1 in
  originals_exported (report first) + edits_exported (report first)
    + live_photos_exported (report first) = 3
  /\ duplicates_skipped (report second) = 1
  /\ duplicates_skipped (report second)
     <> originals_exported (report first) + edits_exported (report first)
        + live_photos_exported (report first).
Proof. by vm_compute. Qed.

(** C7, as stated, fails: an exception leaves [file_hashes_match]. Both
    paths have a supported extension. With a first file that cannot be
    decoded and no second file, the perceptual comparison raises an
    [UnidentifiedImageError], the first handler falls back to the
    content hashes, and the read of the second file raises. With neither
    file on the disk, [Image.open] raises, the second handler prints its
    message and falls back, and the read of the first file raises. *)
Lemma C7_exception_escapes_counterexample :
  let a : str := "/a.jpg" in
  let b : str := "/b.jpg" in
  supported (Str.lower (Path.splitext a).2) = true
  /\ supported (Str.lower (Path.splitext b).2) = true
  /\ (run Env.handle (perceptual_compare ".jpg" ".jpg" a b) Scenario.torn).1.1
     = Raise (UnidentifiedImageError a)
  /\ (run Env.handle (file_hashes_match a b) Scenario.torn).1.1
     = Raise (FileNotFoundError b)
  /\ (run Env.handle (perceptual_compare ".jpg" ".jpg" a b) Scenario.lost).1.1
     = Raise (FileNotFoundError a)
  /\ (run Env.handle (file_hashes_match a b) Scenario.lost).1.1
     = Raise (FileNotFoundError a)
  /\ (forall w, w = Scenario.torn \/ w = Scenario.lost ->
      forall same : bool,
        (run Env.handle (file_hashes_match a b) w).1.1 <> Return same).
Proof.
  intros a b. split_and!; try by vm_compute.
  intros w [-> | ->] same; by vm_compute.
Qed.

(** ** The theorems at concrete inputs *)

Lemma C6_missing_target_witness :
  (Env.handle _ (os_path_exists target) fresh).1 = false
  /\ let '(_, g', _, t) :=
       run Env.handle
         (export_photo_variant photo target false false initial_globals) fresh in
     export_calls t
       = [(photo, Path.dirname target, Path.basename target, false, false)]
     /\ duplicates_skipped (report g')
        = duplicates_skipped (report initial_globals).
Proof.
  split; [by vm_compute |].
  apply (C6_missing_target_is_exported_once Env.handle fresh photo target
           false false initial_globals).
  by vm_compute.
Defined.

Lemma C9_one_counter_witness :
  let result :=
    (run Env.handle
       (export_photo_variant photo target false false initial_globals) fresh).1.1 in
  result = (Return false, result.2)
  /\ exists skipped exported created : Z,
       (skipped = 0 \/ skipped = 1) /\ (exported = 0 \/ exported = 1)
       /\ (created = 0 \/ created = 1)
       /\ skipped + exported = 1
       /\ created <= exported
       /\ (false = true <-> skipped = 1)
       /\ duplicates_skipped (report result.2)
          = duplicates_skipped (report initial_globals) + skipped
       /\ duplicates_created (report result.2)
          = duplicates_created (report initial_globals) + created
       /\ edits_exported (report result.2)
          = edits_exported (report initial_globals) + 0
       /\ live_photos_exported (report result.2)
          = live_photos_exported (report initial_globals) + 0
       /\ originals_exported (report result.2)
          = originals_exported (report initial_globals) + exported.
Proof.
  intros result. split; [by vm_compute |].
  apply (C9_one_counter_per_call Env.handle fresh photo target false false
           initial_globals result.2 false).
  by vm_compute.
Defined.

Lemma C7_fallback_witness :
  supported (Str.lower (Path.splitext ("/a.jpg" : str)).2) = true
  /\ (run Env.handle
        (perceptual_compare ".jpg" ".jpg" "/a.jpg" "/b.jpg") undecodable).1.1
     = Raise (UnidentifiedImageError "/a.jpg")
  /\ (run Env.handle (file_hashes_match "/a.jpg" "/b.jpg") undecodable).1.1
     = Return true.
Proof.
  split; [by vm_compute |]. split; [by vm_compute |].
  refine (proj1 (proj2
    (C7_perceptual_error_falls_back_to_content_hash Env.handle
       undecodable undecodable "/a.jpg" "/b.jpg"
       (UnidentifiedImageError "/a.jpg")
       [Entry (Image_open "/a.jpg") (Raise (UnidentifiedImageError "/a.jpg"))]
       _ _ _))
    "corrupt bytes" "corrupt bytes" undecodable undecodable _ _ _ _);
    by vm_compute.
Defined.

Lemma C2_second_run_witness :
  let w1 :=
    (run Env.handle (export_photos TODAY initial_globals) fresh).1.2 in
  let photos := filter (since_start TODAY) (Env.library w1) in
  forallb (settled w1) photos = true
  /\ let '(out, g', w', t) :=
       run Env.handle (export_photos TODAY initial_globals) w1 in
     out = Return tt /\ w' = w1 /\ export_calls t = []
     /\ duplicates_skipped (report g')
        = duplicates_skipped (report initial_globals) + Z.of_nat (length photos)
     /\ originals_exported (report g') = originals_exported (report initial_globals)
     /\ edits_exported (report g') = edits_exported (report initial_globals)
     /\ live_photos_exported (report g')
        = live_photos_exported (report initial_globals)
     /\ duplicates_created (report g') = duplicates_created (report initial_globals)
     /\ failed_files g' = failed_files initial_globals.
Proof.
  intros w1 photos. split; [by vm_compute |].
  apply (C2_second_run_skips_one_per_photo w1 TODAY initial_globals).
  by vm_compute.
Defined.

Lemma C5_canonicalization_witness :
  extract_img_pattern "notes.txt" = "notes.txt"
  /\ extract_img_pattern "img_0007.HEIC" = "img_0007.HEIC"
  /\ (exists pre m post : str,
        ("2024_IMG_5678_extra.jpg" : str) = pre ++ m ++ post /\ img_token m
        /\ extract_img_pattern "2024_IMG_5678_extra.jpg"
           = m ++ (Path.splitext ("2024_IMG_5678_extra.jpg" : str)).2)
  /\ extract_img_pattern "holiday.jpg" = "holiday.jpg".
Proof.
  destruct C5_filename_canonicalization as (H1 & H2 & H3 & H4 & _).
  split_and!.
  - apply H1.
    + apply (bool_decide_unpack _). by vm_compute.
    + vm_compute. intros [H | H]; discriminate.
  - apply H2.
    exists "i"%char, "m"%char, "g"%char, "_"%char,
      "0"%char, "0"%char, "0"%char, "7"%char, (".HEIC" : str).
    vm_compute. split_and!; auto.
  - destruct (H3 "2024_IMG_5678_extra.jpg") as (pre & m & post & Hf & Hm & _ & He).
    + vm_compute. by left.
    + intros (c1 & c2 & c3 & c4 & d1 & d2 & d3 & d4 & ext & Hf & Hl & _).
      vm_compute in Hf. simplify_eq.
    + exists ("2024_" : str), ("IMG_5678" : str), ("_extra.jpg" : str).
      split; [by vm_compute |].
      exists "5"%char, "6"%char, "7"%char, "8"%char. by vm_compute.
    + by exists pre, m, post.
  - apply H4.
    intros (pre & m & post & Hf & Hm).
    apply (f_equal find_token) in Hf.
    pose proof (find_token_occurs (pre ++ m ++ post)
                  (ex_intro _ pre (ex_intro _ m (ex_intro _ post (conj eq_refl Hm)))))
      as [i Hi].
    rewrite Hi in Hf. vm_compute in Hf. discriminate.
Defined.

(** * Further properties *)

(** ** File names *)

Lemma rfind_from_app_absent i c s t :
  c ∉ t -> Str.rfind_from i c (s ++ t) = Str.rfind_from i c s.
Proof.
  revert i; induction s as [| d s IH]; intros i Hc; simpl.
  - by apply rfind_from_absent.
  - by rewrite IH.
Qed.

Lemma rfind_from_bound i c s :
  0 <= i ->
  Str.rfind_from i c s = -1
  \/ i <= Str.rfind_from i c s < i + Z.of_nat (length s).
Proof.
  revert i; induction s as [| d s IH]; intros i Hi; simpl; [by left |].
  destruct (IH (i + 1) ltac:(lia)) as [-> | Hr].
  - simpl. case_bool_decide; [right; lia | by left].
  - destruct (Z.leb_spec 0 (Str.rfind_from (i + 1) c s)); [right; lia | lia].
Qed.

Lemma rfind_from_neg i c s :
  0 <= i -> Str.rfind_from i c s < 0 -> c ∉ s.
Proof.
  revert i; induction s as [| d s IH]; intros i Hi; simpl.
  { intros _. apply not_elem_of_nil. }
  destruct (Z.leb_spec 0 (Str.rfind_from (i + 1) c s)) as [Hr | Hr]; [lia |].
  case_bool_decide as Hd; [lia |]. intros _.
  apply not_elem_of_cons. split; [done |]. apply (IH (i + 1)); lia.
Qed.

Lemma rfind_from_found i c s :
  0 <= i -> 0 <= Str.rfind_from i c s ->
  exists pre post,
    s = pre ++ c :: post /\ (c ∉ post)
    /\ Str.rfind_from i c s = i + Z.of_nat (length pre).
Proof.
  revert i; induction s as [| d s IH]; intros i Hi; simpl; [lia |].
  destruct (Z.leb_spec 0 (Str.rfind_from (i + 1) c s)) as [Hr | Hr].
  - intros _.
    destruct (IH (i + 1)) as (pre & post & -> & Hc & ->); [lia | done |].
    exists (d :: pre), post. split_and!; [done | done | simpl; lia].
  - case_bool_decide as Hd; [| lia]. subst d. intros _.
    exists [], s. split_and!; [done | | simpl; lia].
    apply (rfind_from_neg (i + 1)); lia.
Qed.

(** The two parts of [os.path.splitext] put together give the path. *)
Lemma splitext_app f : (Path.splitext f).1 ++ (Path.splitext f).2 = f.
Proof.
  unfold Path.splitext.
  destruct (_ <? _); [| by rewrite app_nil_r].
  destruct (existsb _ _); [| by rewrite app_nil_r].
  apply take_drop.
Qed.

(** An extension is empty, or a dot followed by characters other than
    the dot and the separator. *)
Lemma splitext_ext f :
  (Path.splitext f).2 = []
  \/ exists r, (Path.splitext f).2 = "."%char :: r
               /\ ("."%char ∉ r) /\ ("/"%char ∉ r).
Proof.
  unfold Path.splitext.
  destruct (Z.ltb_spec (Str.rfind Path.sep f) (Str.rfind Path.extsep f)) as [Hlt | ?];
    [| by left].
  destruct (existsb _ _); [| by left].
  right. cbn [snd].
  destruct (rfind_from_bound 0 Path.sep f ltac:(lia)) as [Hs | Hs];
    fold (Str.rfind Path.sep f) in Hs.
  all: destruct (rfind_from_found 0 Path.extsep f ltac:(lia)) as (pre & post & Hf & Hdot & Hd);
    [unfold Str.rfind in *; lia |].
  all: fold (Str.rfind Path.extsep f) in Hd; rewrite Hd.
  all: unfold Str.from; replace (Z.to_nat (0 + Z.of_nat (length pre))) with (length pre) by lia.
  all: rewrite Hf, drop_app_length.
  all: exists post; split_and!; [done | done |].
  - intros Hin. 
    assert (Path.sep ∈ f) as Hinf by (rewrite Hf; set_solver).
    apply list_elem_of_split_r in Hinf as (l3 & l4 & Hf' & Hl4).
    pose proof (rfind_from_last 0 Path.sep l3 l4 ltac:(lia) Hl4) as Hr.
    rewrite <-Hf' in Hr. unfold Str.rfind in Hs. lia.
  - intros Hin.
    apply list_elem_of_split_r in Hin as (l3 & l4 & -> & Hl4).
    pose proof (rfind_from_last 0 "/"%char (pre ++ Path.extsep :: l3) l4 ltac:(lia) Hl4) as Hr.
    rewrite <-app_assoc in Hr. cbn [app] in Hr. rewrite <-Hf in Hr.
    unfold Str.rfind, Path.sep, Path.extsep in *.
    rewrite length_app in Hr. simpl in Hr. lia.
Qed.

(** A character other than the dot and the separator just before the
    last dot makes what follows the extension. *)
Lemma splitext_dot s c r :
  c <> "."%char -> c <> "/"%char -> "."%char ∉ r -> "/"%char ∉ r ->
  Path.splitext (s ++ c :: "."%char :: r) = (s ++ [c], "."%char :: r).
Proof.
  intros Hc1 Hc2 Hr1 Hr2.
  unfold Path.splitext.
  assert (Str.rfind Path.extsep (s ++ c :: "."%char :: r)
          = Z.of_nat (length (s ++ [c]))) as Hd.
  { unfold Str.rfind.
    replace (s ++ c :: "."%char :: r) with ((s ++ [c]) ++ "."%char :: r)
      by by rewrite <-app_assoc.
    by rewrite rfind_from_last. }
  assert (Str.rfind Path.sep (s ++ c :: "."%char :: r) = Str.rfind Path.sep s) as Hs.
  { unfold Str.rfind. apply rfind_from_app_absent.
    rewrite !not_elem_of_cons. split_and!; try done. }
  rewrite Hd, Hs. rewrite length_app. cbn [length].
  pose proof (rfind_from_bound 0 Path.sep s ltac:(lia)) as Hb.
  fold (Str.rfind Path.sep s) in Hb.
  destruct (Z.ltb_spec (Str.rfind Path.sep s) (Z.of_nat (length s + 1))) as [_ | ?];
    [| lia].
  unfold Str.from, Str.upto.
  set (k := Z.to_nat (Str.rfind Path.sep s + 1)).
  assert (k <= length s)%nat as Hk by lia.
  replace (Z.to_nat (Z.of_nat (length s + 1) - (Str.rfind Path.sep s + 1)))
    with (length s + 1 - k)%nat by lia.
  rewrite Nat2Z.id.
  replace (s ++ c :: "."%char :: r) with ((s ++ [c]) ++ "."%char :: r)
    by by rewrite <-app_assoc.
  replace (length s + 1)%nat with (length (s ++ [c])) by (rewrite length_app; simpl; lia).
  rewrite take_app_length, drop_app_length.
  rewrite drop_app_le by (rewrite length_app; simpl; lia).
  rewrite take_app_ge; last first.
  { rewrite length_drop, length_app. simpl. lia. }
  rewrite drop_app_le by done.
  rewrite existsb_app. cbn [existsb].
  rewrite existsb_app. cbn [existsb].
  rewrite (bool_decide_false (c = Path.extsep)) by done.
  cbn [negb orb]. by rewrite orb_true_r.
Qed.

Lemma is_digit_plain d :
  Str.is_digit d = true -> d <> "."%char /\ d <> "/"%char.
Proof.
  unfold Str.is_digit. intros [H1 H2]%andb_true_iff.
  apply Nat.leb_le in H1, H2. split; intros ->; vm_compute in H1; lia.
Qed.

Lemma img_token_plain m :
  img_token m -> ("."%char ∉ m) /\ ("/"%char ∉ m).
Proof.
  intros (d1 & d2 & d3 & d4 & -> & H1 & H2 & H3 & H4).
  apply is_digit_plain in H1 as [? ?], H2 as [? ?], H3 as [? ?], H4 as [? ?].
  split; cbn [app list_ascii_of_string]; rewrite !not_elem_of_cons;
    split_and!; try done; apply not_elem_of_nil.
Qed.

Lemma img_token_snoc m :
  img_token m -> exists s d, m = s ++ [d] /\ d <> "."%char /\ d <> "/"%char.
Proof.
  intros (d1 & d2 & d3 & d4 & -> & H1 & H2 & H3 & H4).
  exists ("IMG_" ++ [d1; d2; d3]), d4. split; [done |].
  by apply is_digit_plain.
Qed.

(** A path without a dot has no extension. *)
Lemma splitext_plain s : "."%char ∉ s -> Path.splitext s = (s, []).
Proof.
  intros Hs. unfold Path.splitext, Str.rfind.
  rewrite (rfind_from_absent 0 Path.extsep) by done.
  destruct (rfind_from_bound 0 Path.sep s) as [-> | ?]; [lia | done |].
  destruct (Z.ltb_spec (Str.rfind_from 0 Path.sep s) (-1)); [lia | done].
Qed.

Lemma splitext_token m ext :
  img_token m -> ext = [] \/ jpg_or_heic ext ->
  Path.splitext (m ++ ext) = (m, ext).
Proof.
  intros Hm [-> | Hext].
  - rewrite app_nil_r. apply splitext_plain. by apply img_token_plain.
  - destruct (dotted_suffix ext Hext) as (r & -> & Hr & Hlen).
    destruct (img_token_snoc m Hm) as (s & d & -> & Hd1 & Hd2).
    rewrite <-app_assoc. cbn [app]. apply splitext_dot; try done.
    destruct Hext as [He | He].
    + destruct r as [| e1 [| e2 [| e3 [| ? ?]]]]; try done.
      injection He as E1 E2 E3.
      rewrite !not_elem_of_cons. split_and!; try apply not_elem_of_nil.
      all: intros <-; done.
    + destruct r as [| e1 [| e2 [| e3 [| e4 [| ? ?]]]]]; try done.
      injection He as E1 E2 E3 E4.
      rewrite !not_elem_of_cons. split_and!; try apply not_elem_of_nil.
      all: intros <-; done.
Qed.

Lemma last_occurrence_unique (c : ascii) a b a' b' :
  a ++ c :: b = a' ++ c :: b' -> c ∉ b -> c ∉ b' -> a = a' /\ b = b'.
Proof.
  intros Heq Hb Hb'.
  pose proof (rfind_from_last 0 c a b ltac:(lia) Hb) as H1.
  pose proof (rfind_from_last 0 c a' b' ltac:(lia) Hb') as H2.
  rewrite Heq in H1.
  assert (length a = length a') as Hlen by lia.
  apply app_inj_1 in Heq as [-> Heq]; [| done].
  by injection Heq as ->.
Qed.

(** The extension of a name that ends with [.jpg] or [.heic], in any
    case, is that ending, unless the name has no extension. *)
Lemma endswith_extension f :
  Str.endswith_any (Str.lower f) [".jpg" : str; ".heic" : str] = true ->
  (Path.splitext f).2 = [] \/ jpg_or_heic (Path.splitext f).2.
Proof.
  intros Hend.
  assert (exists suf : str,
    (suf = ".jpg" \/ suf = ".heic") /\ Str.endswith (Str.lower f) suf = true)
    as (suf & Hsuf & Hends).
  { unfold Str.endswith_any in Hend. cbn [existsb] in Hend.
    rewrite orb_false_r in Hend. apply orb_true_iff in Hend as [H | H];
      eexists; (split; [| exact H]); auto. }
  set (k := (length (Str.lower f) - length suf)%nat).
  assert (Str.lower (drop k f) = suf) as Hdrop.
  { rewrite lower_drop. unfold Str.endswith, Str.eqb in Hends.
    apply andb_true_iff in Hends as [_ H]. by apply bool_decide_eq_true in H. }
  assert (jpg_or_heic (drop k f)) as Hjh.
  { unfold jpg_or_heic. rewrite Hdrop. destruct Hsuf as [-> | ->]; auto. }
  destruct (dotted_suffix (drop k f) Hjh) as (r & Hr & Hdot & Hlen).
  destruct (splitext_ext f) as [Hnil | (r' & Hr' & Hdot' & _)]; [by left |].
  right.
  pose proof (take_drop k f) as Hf. rewrite Hr in Hf.
  pose proof (splitext_app f) as Hf'. rewrite Hr' in Hf'.
  assert (take k f ++ "."%char :: r = (Path.splitext f).1 ++ "."%char :: r')
    as Heq by (by rewrite Hf, Hf').
  apply last_occurrence_unique in Heq as [_ <-]; [| done | done].
  by rewrite Hr', <-Hr.
Qed.

(** The result of the canonicalisation is the filename itself, or the
    token followed by the extension of the filename. *)
Lemma extract_img_pattern_cases f :
  extract_img_pattern f = f
  \/ exists m, img_token m
       /\ ((Path.splitext f).2 = [] \/ jpg_or_heic (Path.splitext f).2)
       /\ extract_img_pattern f = m ++ (Path.splitext f).2.
Proof.
  unfold extract_img_pattern.
  destruct (Str.endswith_any _ _) eqn:Hend; [| by left]. cbn [negb].
  case_bool_decide; [by left |].
  rewrite search_img.
  destruct (find_token f) as [i |] eqn:Hi; [| by left].
  right.
  destruct (find_token_Some f i Hi) as [Hat _].
  apply token_at_spec in Hat as (m & post & Hd & Hm).
  exists m. split_and!; [done | by apply endswith_extension |].
  unfold Re.group0; cbn [Re.m_start Re.m_end].
  replace (i + 8 - i)%nat with 8%nat by lia.
  rewrite Hd, <-(img_token_length m Hm). by rewrite take_app_length.
Qed.

Lemma extract_img_pattern_token m ext :
  img_token m -> ext = [] \/ jpg_or_heic ext ->
  extract_img_pattern (m ++ ext) = m ++ ext.
Proof.
  intros Hm Hext. unfold extract_img_pattern.
  destruct (negb _); [done |]. case_bool_decide; [done |].
  rewrite search_img, (splitext_token m ext Hm Hext). cbn [snd].
  assert (find_token (m ++ ext) = Some O) as ->.
  { assert (token_at (m ++ ext) = true) as Ht
      by (apply token_at_spec; eauto).
    destruct Hm as (d1 & d2 & d3 & d4 & -> & _).
    cbn [app list_ascii_of_string find_token] in *. by rewrite Ht. }
  unfold Re.group0; cbn [Re.m_start Re.m_end]. rewrite drop_0.
  replace (0 + 8 - 0)%nat with (length m) by (by rewrite (img_token_length m)).
  by rewrite take_app_length.
Qed.

(** X1: the canonicalisation of filenames is idempotent: for every
    filename, canonicalising the canonical name gives the canonical
    name again, so a name that the run has produced is never renamed by
    a later run. *)
Theorem extract_img_pattern_idempotent (f : str) :
  extract_img_pattern (extract_img_pattern f) = extract_img_pattern f.
Proof.
  destruct (extract_img_pattern_cases f) as [Hf | (m & Hm & Hext & ->)].
  - by rewrite !Hf.
  - by apply extract_img_pattern_token.
Qed.

(** X2: the canonicalisation keeps the extension: for every filename,
    [os.path.splitext] finds the same extension in the result of
    [extract_img_pattern] as in the filename itself. *)
Theorem extract_img_pattern_keeps_extension (f : str) :
  (Path.splitext (extract_img_pattern f)).2 = (Path.splitext f).2.
Proof.
  destruct (extract_img_pattern_cases f) as [-> | (m & Hm & Hext & ->)]; [done |].
  by rewrite splitext_token.
Qed.

(** X3: for every photo name, [os.path.splitext] takes the name of the
    live companion apart into the stem of the photo name followed by
    [_HEVC], and the extension [.MOV]. *)
Theorem get_live_photo_name_splitext (photo_name : str) :
  Path.splitext (get_live_photo_name photo_name)
  = ((Path.splitext photo_name).1 ++ "_HEVC", ".MOV" : str).
Proof.
  unfold get_live_photo_name.
  set (base := (Path.splitext photo_name).1).
  replace (base ++ "_HEVC.MOV") with ((base ++ "_HEV") ++ "C"%char :: "."%char :: "MOV")
    by (by rewrite <-app_assoc).
  rewrite splitext_dot.
  - by rewrite <-app_assoc.
  - done.
  - done.
  - cbn [list_ascii_of_string]. rewrite !not_elem_of_cons.
    split_and!; try done. apply not_elem_of_nil.
  - cbn [list_ascii_of_string]. rewrite !not_elem_of_cons.
    split_and!; try done. apply not_elem_of_nil.
Qed.

(** ** Paths of the variants *)

(** [os.path.join(a, b)] for a relative [b] puts a prefix that depends
    on [a] alone before [b]. *)
Lemma join_relative a b :
  Str.startswith b [Path.sep] = false ->
  Path.join a b
  = (if Str.eqb a [] || Str.endswith a [Path.sep] then a else a ++ [Path.sep]) ++ b.
Proof.
  intros Hb. unfold Path.join. rewrite Hb.
  destruct (_ || _); [done |]. by rewrite <-app_assoc.
Qed.

Lemma join_absolute a b :
  Str.startswith b [Path.sep] = true -> Path.join a b = b.
Proof. intros Hb. unfold Path.join. by rewrite Hb. Qed.

Lemma join_inj a b1 b2 :
  Str.startswith b1 [Path.sep] = Str.startswith b2 [Path.sep] ->
  Path.join a b1 = Path.join a b2 -> b1 = b2.
Proof.
  intros Hs. destruct (Str.startswith b2 [Path.sep]) eqn:H2.
  - by rewrite !join_absolute.
  - rewrite !join_relative by done. apply app_inv_head.
Qed.

Lemma startswith_cons c s p :
  Str.startswith (c :: s) [p] = bool_decide (p = c).
Proof. simpl. destruct s; apply andb_true_r. Qed.

(** X4: the three destination paths that [export_photos] builds for one
    photo (the original, the edited version and the live companion) are
    pairwise distinct, whatever the filename and the date of the photo:
    the variants of one photo never collide with each other. *)
Theorem variant_paths_distinct (photo : Photo) :
  NoDup [original_path photo; edited_path photo; live_photo_path photo].
Proof.
  unfold original_path, edited_path, live_photo_path, get_live_photo_name.
  set (d := year_month_path photo).
  set (o := extract_img_pattern (PhotoInfo.original_filename photo)).
  pose proof (splitext_app o) as Ho.
  pose proof (splitext_ext o) as Hext.
  destruct (Path.splitext o) as [stem ext]. cbn [fst snd] in *.
  assert (Str.startswith (stem ++ "-edited" ++ ext) [Path.sep]
          = Str.startswith o [Path.sep]) as He.
  { rewrite <-Ho. destruct stem; [| cbn [app]; by rewrite !startswith_cons].
    destruct Hext as [-> | (r & -> & _)]; [done |].
    cbn [app list_ascii_of_string]. by rewrite !startswith_cons. }
  assert (Str.startswith (stem ++ "_HEVC.MOV") [Path.sep]
          = Str.startswith o [Path.sep]) as Hl.
  { rewrite <-Ho. destruct stem; [| cbn [app]; by rewrite !startswith_cons].
    destruct Hext as [-> | (r & -> & _)]; [done |].
    cbn [app list_ascii_of_string]. by rewrite !startswith_cons. }
  apply NoDup_cons. split.
  { rewrite !not_elem_of_cons. split_and!; [| | apply not_elem_of_nil].
    - intros Heq. apply join_inj in Heq; [| done].
      apply (f_equal length) in Heq. rewrite <-Ho in Heq.
      rewrite !length_app in Heq. simpl in Heq. lia.
    - intros Heq. apply join_inj in Heq; [| done].
      rewrite <-Ho in Heq. apply app_inv_head in Heq.
      destruct Hext as [-> | (r & -> & _)]; done. }
  apply NoDup_cons. split; [| apply NoDup_singleton].
  rewrite not_elem_of_cons. split; [| apply not_elem_of_nil].
  intros Heq. apply join_inj in Heq; [| congruence].
  by apply app_inv_head in Heq.
Qed.

Lemma string_of_uint_digits (d : Decimal.uint) :
  Forall (fun c => Str.is_digit c = true)
         (list_ascii_of_string (NilEmpty.string_of_uint d)).
Proof. induction d; simpl; constructor; done. Qed.

(** [str(n)] is not empty and holds digits and the sign only. *)
Lemma of_Z_chars (n : Z) :
  Str.of_Z n <> []
  /\ Forall (fun c => Str.is_digit c = true \/ c = "-"%char) (Str.of_Z n).
Proof.
  unfold Str.of_Z, NilZero.string_of_int.
  assert (forall d, list_ascii_of_string (NilZero.string_of_uint d) <> []
            /\ Forall (fun c => Str.is_digit c = true \/ c = "-"%char)
                 (list_ascii_of_string (NilZero.string_of_uint d))) as Hu.
  { intros d. split; [by destruct d |].
    eapply Forall_impl; [| by intros c Hc; left; exact Hc].
    destruct d; try apply (string_of_uint_digits (_ _)).
    by repeat constructor. }
  destruct (Z.to_int n) as [d | d].
  - apply Hu.
  - split; [done |]. cbn [list_ascii_of_string].
    constructor; [by right | apply Hu].
Qed.

Lemma of_Z_02_chars (n : Z) :
  Str.of_Z_02 n <> []
  /\ Forall (fun c => Str.is_digit c = true \/ c = "-"%char) (Str.of_Z_02 n).
Proof.
  unfold Str.of_Z_02. destruct (of_Z_chars n) as [H1 H2].
  destruct (_ <? _)%nat; [| done].
  split; [done |]. constructor; [by left | done].
Qed.

Lemma digits_relative (s : str) :
  s <> [] -> Forall (fun c => Str.is_digit c = true \/ c = "-"%char) s ->
  Str.startswith s [Path.sep] = false
  /\ (forall x, last s = Some x -> x <> Path.sep)
  /\ (Path.sep ∉ s).
Proof.
  intros Hne Hs.
  assert (forall c, c ∈ s -> c <> Path.sep) as Hc.
  { intros c Hin. rewrite Forall_forall in Hs.
    destruct (Hs c Hin) as [Hd | ->]; [| done].
    by apply is_digit_plain in Hd as [_ ?]. }
  split_and!.
  - destruct s as [| c s]; [done |]. rewrite startswith_cons.
    rewrite bool_decide_false; [done |].
    intros Heq. apply (Hc c); [left | done].
  - intros x Hx. apply Hc. by apply last_Some_elem_of.
  - intros Hin. by apply (Hc _ Hin).
Qed.

Lemma endswith_last a c :
  (forall x, last a = Some x -> x <> c) -> Str.endswith a [c] = false.
Proof.
  intros Hlast. unfold Str.endswith, Str.eqb. apply andb_false_iff.
  destruct (last a) as [x |] eqn:Hx.
  - right. apply bool_decide_eq_false. intros Hdrop.
    apply (Hlast x eq_refl).
    apply last_Some in Hx as [a' ->]. rewrite length_app in Hdrop. cbn in Hdrop.
    replace (length a' + 1 - 1)%nat with (length a') in Hdrop by lia.
    rewrite drop_app_length in Hdrop. congruence.
  - apply last_None in Hx as ->. by left.
Qed.

Lemma join_plain (d f : str) :
  d <> [] -> (forall x, last d = Some x -> x <> Path.sep) ->
  Str.startswith f [Path.sep] = false ->
  Path.join d f = d ++ Path.sep :: f.
Proof.
  intros Hd Hlast Hf. rewrite join_relative by done.
  assert (Str.eqb d [] = false) as -> by (by apply bool_decide_eq_false).
  rewrite endswith_last by done. cbn [orb]. by rewrite <-app_assoc.
Qed.

Lemma last_app_cons {A} (l1 : list A) x l2 :
  last (l1 ++ x :: l2) = last (x :: l2).
Proof. induction l1 as [| a l1 IH]; [done |]. rewrite <-IH. by destruct l1. Qed.

(** The directory of a photo is the export root, the year and the
    month, each put after a separator. *)
Lemma year_month_path_join (photo : Photo) :
  year_month_path photo
  = EXPORT_PATH ++ "/" ++ Str.of_Z (year (PhotoInfo.date photo))
      ++ "/" ++ Str.of_Z_02 (month (PhotoInfo.date photo)).
Proof.
  unfold year_month_path.
  destruct (of_Z_chars (year (PhotoInfo.date photo))) as [Hy1 Hy2].
  destruct (of_Z_02_chars (month (PhotoInfo.date photo))) as [Hm1 Hm2].
  destruct (digits_relative _ Hy1 Hy2) as (Hy3 & Hy4 & _).
  destruct (digits_relative _ Hm1 Hm2) as (Hm3 & _ & _).
  rewrite (join_plain EXPORT_PATH); [| done | by vm_compute; intros ? [= <-] | done].
  rewrite join_plain; [by rewrite <-app_assoc | by destruct EXPORT_PATH | | done].
  intros x. rewrite last_app_cons.
  destruct (Str.of_Z _) as [| c s] eqn:Hs; [done |].
  change (Path.sep :: c :: s) with ([Path.sep] ++ c :: s).
  rewrite last_app_cons. apply Hy4.
Qed.

Lemma year_month_path_plain (photo : Photo) :
  year_month_path photo <> []
  /\ (forall x, last (year_month_path photo) = Some x -> x <> Path.sep).
Proof.
  rewrite year_month_path_join.
  destruct (of_Z_02_chars (month (PhotoInfo.date photo))) as [Hm1 Hm2].
  destruct (digits_relative _ Hm1 Hm2) as (_ & Hm4 & _).
  split; [by destruct EXPORT_PATH |].
  intros x. rewrite !app_assoc.
  destruct (Str.of_Z_02 _) as [| c s] eqn:Hs; [done |].
  rewrite last_app_cons. apply Hm4.
Qed.

(** The canonical name of a filename without separator has none. *)
Lemma extract_img_pattern_component f :
  Path.sep ∉ f -> Path.sep ∉ extract_img_pattern f.
Proof.
  intros Hf.
  destruct (extract_img_pattern_cases f) as [-> | (m & Hm & _ & ->)]; [done |].
  rewrite not_elem_of_app. split; [by apply img_token_plain |].
  pose proof (splitext_app f) as Happ. rewrite <-Happ in Hf.
  by apply not_elem_of_app in Hf as [_ ?].
Qed.

(** X6: for a photo whose original filename holds no [/],
    [os.path.dirname] and [os.path.basename] take each of the three
    destination paths apart into the year and month directory and the
    filename of the variant (the canonical name; its stem, [-edited]
    and its extension; its stem and [_HEVC.MOV]): these are the
    directory and the filename that [export_photo_variant] passes to
    [photo.export]. *)
Theorem variant_paths_split (photo : Photo) :
  Path.sep ∉ PhotoInfo.original_filename photo ->
  let name := extract_img_pattern (PhotoInfo.original_filename photo) in
  let directory := year_month_path photo in
  (Path.dirname (original_path photo) = directory
   /\ Path.basename (original_path photo) = name)
  /\ (Path.dirname (edited_path photo) = directory
      /\ Path.basename (edited_path photo)
         = (Path.splitext name).1 ++ "-edited" ++ (Path.splitext name).2)
  /\ (Path.dirname (live_photo_path photo) = directory
      /\ Path.basename (live_photo_path photo)
         = (Path.splitext name).1 ++ "_HEVC.MOV").
Proof.
  intros Hf name directory.
  destruct (year_month_path_plain photo) as [Hd1 Hd2].
  pose proof (extract_img_pattern_component _ Hf) as Hname. fold name in Hname.
  pose proof (splitext_app name) as Happ.
  unfold original_path, edited_path, live_photo_path, get_live_photo_name.
  fold name directory.
  destruct (Path.splitext name) as [stem ext]. cbn [fst snd] in *.
  rewrite <-Happ in Hname. apply not_elem_of_app in Hname as [Hs He].
  assert (Path.sep ∉ ("-edited" : str)) as H1.
  { cbn [list_ascii_of_string]. rewrite !not_elem_of_cons.
    split_and!; try done. apply not_elem_of_nil. }
  assert (Path.sep ∉ ("_HEVC.MOV" : str)) as H2.
  { cbn [list_ascii_of_string]. rewrite !not_elem_of_cons.
    split_and!; try done. apply not_elem_of_nil. }
  split_and!; apply dirname_basename_join; try done.
  all: rewrite <-?Happ, !not_elem_of_app; by split_and!.
Qed.

(** X5: for a photo whose month is from 1 to 12, the directory built
    at line 257 is the export root, a separator, the year in decimal, a
    separator and exactly two digits; no separator is doubled or
    dropped by [os.path.join]. *)
Theorem year_month_path_two_digit_month (photo : Photo) :
  1 <= month (PhotoInfo.date photo) <= 12 ->
  exists m1 m2 : ascii,
    Str.is_digit m1 = true /\ Str.is_digit m2 = true
    /\ year_month_path photo
       = EXPORT_PATH ++ "/" ++ Str.of_Z (year (PhotoInfo.date photo))
           ++ ["/"%char; m1; m2].
Proof.
  intros Hm. rewrite year_month_path_join.
  assert (exists m1 m2 : ascii,
    Str.is_digit m1 = true /\ Str.is_digit m2 = true
    /\ Str.of_Z_02 (month (PhotoInfo.date photo)) = [m1; m2])
    as (m1 & m2 & H1 & H2 & ->); [| by exists m1, m2].
  assert (month (PhotoInfo.date photo) ∈ [1; 2; 3; 4; 5; 6; 7; 8; 9; 10; 11; 12])
    as Hin.
  { rewrite !elem_of_cons. lia. }
  repeat (apply elem_of_cons in Hin as [-> | Hin];
          [by eexists _, _; split_and!; [| | by vm_compute] |]).
  by apply elem_of_nil in Hin.
Qed.

(** X7: for a target [d/stem.ext] whose filename has exactly one dot
    (and a directory that does not end in [/]), the sibling path
    computed at line 167 is [d/stem (1).ext]. *)
Theorem duplicate_path_single_dot (d stem ext : str) :
  d <> [] -> (forall x, last d = Some x -> x <> Path.sep) ->
  Path.sep ∉ stem -> Path.sep ∉ ext ->
  Path.extsep ∉ stem -> Path.extsep ∉ ext ->
  duplicate_path (Path.join d (stem ++ "." ++ ext))
  = Path.join d (stem ++ " (1)." ++ ext).
Proof.
  intros Hd Hlast Hs He Hds Hde. unfold duplicate_path.
  destruct (dirname_basename_join d (stem ++ "." ++ ext)) as [-> ->]; try done.
  { rewrite !not_elem_of_app. split_and!; try done.
    cbn [list_ascii_of_string]. rewrite not_elem_of_cons.
    split; [done | apply not_elem_of_nil]. }
  change (stem ++ "." ++ ext) with (stem ++ "."%char :: ext).
  by rewrite replace_single_dot.
Qed.

(** X8: for a target whose filename has no dot, the sibling path
    computed at line 167 is the target path itself: the replacement of
    [.] finds nothing to replace. *)
Theorem duplicate_path_no_dot (d f : str) :
  d <> [] -> (forall x, last d = Some x -> x <> Path.sep) ->
  Path.sep ∉ f -> Path.extsep ∉ f ->
  duplicate_path (Path.join d f) = Path.join d f.
Proof.
  intros Hd Hlast Hf Hdot. unfold duplicate_path.
  destruct (dirname_basename_join d f) as [-> ->]; try done.
  by rewrite replace_no_dot.
Qed.

(** ** The comparator, in any environment *)

Lemma utimes_app t1 t2 : utimes (t1 ++ t2) = utimes t1 ++ utimes t2.
Proof.
  induction t1 as [| [X e x] t1 IH]; [done |].
  destruct e; simpl; by rewrite IH.
Qed.

Lemma sleeps_app t1 t2 : sleeps (t1 ++ t2) = sleeps t1 ++ sleeps t2.
Proof.
  induction t1 as [| [X e x] t1 IH]; [done |].
  destruct e; simpl; by rewrite IH.
Qed.

Lemma quiet_trace t :
  Forall quiet t -> export_calls t = [] /\ utimes t = [] /\ sleeps t = [].
Proof.
  induction 1 as [| [X e x] t Hen _ IH]; [done |].
  destruct e; simpl in *; done.
Qed.

Lemma file_hashes_match_raises a b :
  always (file_hashes_match a b) (fun t r =>
    forall e, r = Raise e -> ends_with (read_failure e) t).
Proof.
  eapply always_mono; [| apply file_hashes_match_raises_read].
  intros t r H e He. eapply ends_with_mono; [| by apply H].
  intros en [-> | ->]; constructor.
Qed.

Lemma file_hashes_match_quiet a b : confined quiet (file_hashes_match a b).
Proof.
  unfold file_hashes_match, hash_compare, perceptual_compare, open_image,
    heic_to_pil, file_hash.
  cbn [then_ unit_ io_sequenced].
  confine; done.
Qed.

(** X9: for two paths that are strings, in any environment: when
    [file_hashes_match] raises, the exception is that of the read of one
    of the two files for the content hash, and this read is the last
    call made. An error of the image libraries (decoding or hashing)
    never reaches the caller. A path that is [None] is outside the
    statement: on it [os.path.splitext], which is before the [try],
    raises a [TypeError]. *)
Theorem file_hashes_match_raises_from_read
    {W : Type} (h : handler W) (w w' : W) (t : list entry) (e : exn)
    (photo_path existing_path : str) :
  run h (file_hashes_match photo_path existing_path) w = (Raise e, w', t) ->
  exists t0 p,
    (p = photo_path \/ p = existing_path)
    /\ t = t0 ++ [Entry (read_file p) (Raise e)].
Proof.
  intros Hrun.
  pose proof (always_run h _ _ w
                (file_hashes_match_raises_read photo_path existing_path)) as H.
  rewrite Hrun in H. cbn [fst snd] in H.
  destruct (H e eq_refl) as (t0 & en & -> & [-> | ->]); eauto.
Qed.

Lemma hash_compare_no_decoder a b a' b' :
  confined (decoder_fits a' b') (hash_compare a b).
Proof.
  unfold hash_compare, file_hash. cbn [then_ unit_ io_sequenced].
  confine; done.
Qed.

(** X10: in any environment, every call that [file_hashes_match] makes
    of an image library is made with both extensions in the list of
    supported formats, a decoder is only asked for one of the two
    files, and [pyheif.read] is used exactly for a file whose
    lower-cased extension is [.heic], [Image.open] for any other. *)
Theorem file_hashes_match_decoders
    {W : Type} (h : handler W) (w : W) (photo_path existing_path : str) :
  Forall (decoder_fits photo_path existing_path)
         (run h (file_hashes_match photo_path existing_path) w).2.
Proof.
  apply confined_run. unfold file_hashes_match.
  set (pe := Str.lower (Path.splitext photo_path).2).
  set (ee := Str.lower (Path.splitext existing_path).2).
  destruct (supported pe) eqn:Hp; [| apply hash_compare_no_decoder].
  destruct (supported ee) eqn:He; [| apply hash_compare_no_decoder].
  cbn [negb orb].
  apply confined_io_try.
  2:{ intros [?|?|? ?] k [= <-]; cbn [then_ io_sequenced];
        [apply confined_io_bind; [by apply confined_ask | intros _] | |
         apply confined_io_bind; [by apply confined_ask | intros _]];
        apply hash_compare_no_decoder. }
  unfold perceptual_compare, open_image, heic_to_pil, Str.eqb.
  cbn [then_ unit_ io_sequenced].
  do 2 case_bool_decide; confine; unfold decoder_fits; fold pe ee; auto 10.
Qed.

Lemma join_suffix a b : exists pfx, Path.join a b = pfx ++ b.
Proof.
  unfold Path.join. destruct (Str.startswith _ _); [by exists [] |].
  destruct (_ || _); [by exists a |].
  exists (a ++ [Path.sep]). by rewrite <-app_assoc.
Qed.

(** X11: the live companion is always compared by content hash: its
    destination path ends in [.MOV], which is not a supported image
    format, so that for every photo and source [file_hashes_match] on
    that path is the comparison of the two SHA-256 digests and calls no
    image library. *)
Theorem live_variant_is_compared_by_content (photo : Photo) (source : str) :
  file_hashes_match source (live_photo_path photo)
  = hash_compare source (live_photo_path photo).
Proof.
  unfold live_photo_path, get_live_photo_name.
  set (stem := (Path.splitext (extract_img_pattern _)).1).
  destruct (join_suffix (year_month_path photo) (stem ++ "_HEVC.MOV"))
    as [pfx ->].
  unfold file_hashes_match.
  assert ((Path.splitext (pfx ++ stem ++ "_HEVC.MOV")).2 = (".MOV" : str)) as ->.
  { replace (pfx ++ stem ++ "_HEVC.MOV")
      with ((pfx ++ stem ++ "_HEV") ++ "C"%char :: "."%char :: "MOV")
      by (by rewrite <-!app_assoc).
    rewrite splitext_dot; [done | done | done | |];
      cbn [list_ascii_of_string]; rewrite !not_elem_of_cons;
      (split_and!; try done; apply not_elem_of_nil). }
  replace (supported (Str.lower ".MOV")) with false by (by vm_compute).
  cbn [negb]. by rewrite orb_true_r.
Qed.

(** ** One call of the reconciler, in any environment *)

Lemma poll_timestamp_footprint n p photo :
  let stamp := Datetime.timestamp (PhotoInfo.date photo) in
  always (poll_timestamp n p photo) (fun t r =>
    export_calls t = []
    /\ (exists k, (k <= n)%nat /\ sleeps t = replicate k 1)
    /\ match r with
       | Return _ => utimes t = [(p, stamp, stamp, Return tt)]
       | Raise e =>
           utimes t = [] \/ utimes t = [(p, stamp, stamp, Raise e)]
       end).
Proof.
  intros stamp. induction n as [| n IH].
  - simpl. split_and!; [done | by exists O | by left].
  - rewrite poll_timestamp_S. apply always_io_bind.
    unfold ask. cbn [always]. intros [|].
    + unfold set_file_timestamp, call. cbn [always]. intros r.
      destruct r as [[] | e]; cbn;
        (split_and!; [done | by exists O; split; [lia |] | by auto]).
    + apply always_io_bind. cbn [always]. intros [].
      eapply always_mono; [| exact IH].
      intros t r (H1 & (k & Hk & H2) & H3). cbn.
      split_and!; [done | | done].
      exists (S k). split; [lia |]. by rewrite H2.
Qed.

Lemma always_lift_mono {A} (m : io A) (g : Globals)
    (R : list entry -> res A -> Prop)
    (Q : list entry -> res A * Globals -> Prop) :
  always m R -> (forall t r, R t r -> Q t (r, g)) -> always (lift m g) Q.
Proof.
  intros Hm HQ. apply always_lift.
  eapply always_mono; [| exact Hm]. intros t r Ht. by apply HQ.
Qed.

Lemma file_hashes_match_footprint a b :
  always (file_hashes_match a b) (fun t r =>
    (export_calls t = [] /\ utimes t = [] /\ sleeps t = [])
    /\ forall e, r = Raise e -> ends_with (read_failure e) t).
Proof.
  apply always_conj; [| apply file_hashes_match_raises].
  eapply always_mono; [| apply file_hashes_match_quiet].
  intros t r Ht. exact (quiet_trace t Ht).
Qed.

Ltac fstep :=
  lazymatch goal with
  | |- always (lift (file_hashes_match _ _) _) _ =>
      apply (always_lift_mono _ _ _ _ (file_hashes_match_footprint _ _));
      intros ? [[|] | ?] [(? & ? & ?) ?]
  | |- always (lift (poll_timestamp _ _ _) _) _ =>
      apply (always_lift_mono _ _ _ _ (poll_timestamp_footprint _ _ _));
      intros ? [[] | ?] (? & (? & ? & ?) & ?)
  | |- always ((if negb ?b then _ else _) _) _ => destruct b
  | |- _ => step
  end;
  cbn [fst snd negb andb orb]; rewrite ?andb_false_r, ?andb_true_r.

Lemma export_photo_variant_footprint photo path is_edited is_live g :
  let stamp := Datetime.timestamp (PhotoInfo.date photo) in
  let this := (photo, Path.dirname path, Path.basename path, is_edited, is_live) in
  always (export_photo_variant photo path is_edited is_live g) (fun t out =>
    (export_calls t = [] \/ export_calls t = [this])
    /\ (exists k, (k <= 5)%nat /\ sleeps t = replicate k 1)
    /\ (out.1 = Return true ->
        export_calls t = [] /\ utimes t = [] /\ sleeps t = [])
    /\ (forall e, out.1 = Raise e ->
          utimes t = [] /\ sleeps t = []
          /\ ends_with (fun en => read_failure e en \/ export_failure e en) t)
    /\ (out.1 = Return false ->
        exists p, (p = path \/ p = duplicate_path path)
          /\ ((utimes t = [(p, stamp, stamp, Return tt)]
               /\ failed_files out.2 = failed_files g)
              \/ ((utimes t = []
                   \/ exists e, utimes t = [(p, stamp, stamp, Raise e)])
                  /\ failed_files out.2
                     = failed_files g ++ [failure_of p photo])))
    /\ (duplicates_created (report out.2) <> duplicates_created (report g) ->
        export_calls t = [this])).
Proof.
  intros stamp this.
  unfold export_photo_variant.
  cbn [then_ unit_ M_sequenced].
  repeat fstep.
  all: cbn beta; cbn [fst snd].
  all: repeat match goal with
       | H : forall e, Raise ?e0 = Raise e -> ends_with _ _ |- _ =>
           specialize (H e0 eq_refl)
       | H : forall e, Return _ = Raise e -> _ |- _ => clear H
       | H : _ \/ _ |- _ => destruct H
       end.
  all: rewrite ?export_calls_app, ?utimes_app, ?sleeps_app.
  all: cbn [export_calls utimes sleeps as_export app].
  all: repeat match goal with
       | H : export_calls _ = _ |- _ => rewrite ?H; clear H
       | H : utimes _ = _ |- _ => rewrite ?H; clear H
       | H : sleeps _ = _ |- _ => rewrite ?H; clear H
       end.
  all: cbn [app]; rewrite ?app_nil_r.
  all: split_and!.
  all: try (first [by left | by right]).
  all: try (by intros [=]).
  all: try (by intros ? [=]).
  all: try (by eexists; split; [eassumption |]).
  all: try (by exists O; split; [lia |]).
  all: try (intros _; cbn [failed_files report]; unfold failure_of, stamp;
            by eauto 12).
  all: try (by intros _).
  all: try (by intros Hc; exfalso; apply Hc; destruct is_edited, is_live).
  all: intros e0 [= <-]; split_and!; [done | done |];
            repeat first
              [ apply ends_with_singleton; right; constructor
              | eapply ends_with_mono; [| eassumption]; by left
              | apply ends_with_cons
              | apply ends_with_app ].
Qed.

(** X12: in any environment, one call of [export_photo_variant] calls
    [photo.export] at most once, and then with the directory and the
    filename of its path and the flags of its variant. *)
Theorem export_photo_variant_exports_at_most_once
    {W : Type} (h : handler W) (w : W)
    (photo : Photo) (path : str) (is_edited is_live : bool) (g : Globals) :
  let '(_, _, _, t) :=
    run h (export_photo_variant photo path is_edited is_live g) w in
  export_calls t = []
  \/ export_calls t
     = [(photo, Path.dirname path, Path.basename path, is_edited, is_live)].
Proof.
  pose proof (always_run h _ _ w
    (export_photo_variant_footprint photo path is_edited is_live g)) as H.
  destruct (run h _ w) as [[[out g'] w'] t]. cbn [fst snd] in H.
  by destruct H as (H1 & _).
Qed.

(** X13: in any environment, a call of [export_photo_variant] that
    returns [True] has made no export, set no file time and not paused;
    the only global it has changed is [duplicates_skipped], by one. *)
Theorem duplicate_leaves_destination_untouched
    {W : Type} (h : handler W) (w w' : W) (t : list entry)
    (photo : Photo) (path : str) (is_edited is_live : bool) (g g' : Globals) :
  run h (export_photo_variant photo path is_edited is_live g) w
    = ((Return true, g'), w', t) ->
  export_calls t = [] /\ utimes t = [] /\ sleeps t = []
  /\ g' = skipped_once g.
Proof.
  intros Hrun.
  pose proof (always_run h _ _ w
    (export_photo_variant_footprint photo path is_edited is_live g)) as H.
  pose proof (always_run h _ _ w
    (export_photo_variant_outcomes photo path is_edited is_live g)) as Hout.
  rewrite Hrun in H, Hout. cbn [fst snd] in H, Hout.
  destruct H as (_ & _ & H3 & _). destruct (H3 eq_refl) as (? & ? & ?).
  split_and!; try done. by inversion Hout.
Qed.

(** X14: for a photo whose source paths are strings ([photo.path], and
    [photo.path_edited] for the Edited variant), in any environment:
    when a call of [export_photo_variant] raises, the exception is that
    of [photo.export] or of the read of a file by the comparator, and
    that call is the last one made; the globals are as before the call,
    no file time has been set and there was no pause. An error of
    [os.utime] or of the polling never leaves the call. A source path
    that is [None] is outside the statement: the comparator raises a
    [TypeError] on it before any read. *)
Theorem export_photo_variant_raises_before_any_write
    {W : Type} (h : handler W) (w w' : W) (t : list entry) (e : exn)
    (photo : Photo) (path : str) (is_edited is_live : bool) (g g' : Globals) :
  run h (export_photo_variant photo path is_edited is_live g) w
    = ((Raise e, g'), w', t) ->
  g' = g /\ utimes t = [] /\ sleeps t = []
  /\ exists t0 en, t = t0 ++ [en] /\ (read_failure e en \/ export_failure e en).
Proof.
  intros Hrun.
  pose proof (always_run h _ _ w
    (export_photo_variant_footprint photo path is_edited is_live g)) as H.
  pose proof (always_run h _ _ w
    (export_photo_variant_outcomes photo path is_edited is_live g)) as Hout.
  rewrite Hrun in H, Hout. cbn [fst snd] in H, Hout.
  destruct H as (_ & _ & _ & H4 & _).
  destruct (H4 e eq_refl) as (H5 & H6 & H7).
  split_and!; [by inversion Hout | done | done | exact H7].
Qed.

(** X15: in any environment, a call of [export_photo_variant] that
    returns [False] has asked [os.utime] at most once, for the target
    or its sibling and with both times the capture timestamp of the
    photo; and either that call succeeded and the failure list is
    unchanged, or the time was not set (no call, or a call that raised)
    and exactly one entry for that path has been appended to the
    failure list. *)
Theorem export_photo_variant_timestamp_or_failure
    {W : Type} (h : handler W) (w w' : W) (t : list entry)
    (photo : Photo) (path : str) (is_edited is_live : bool) (g g' : Globals) :
  run h (export_photo_variant photo path is_edited is_live g) w
    = ((Return false, g'), w', t) ->
  let stamp := Datetime.timestamp (PhotoInfo.date photo) in
  exists p, (p = path \/ p = duplicate_path path)
    /\ ((utimes t = [(p, stamp, stamp, Return tt)]
         /\ failed_files g' = failed_files g)
        \/ ((utimes t = [] \/ exists e, utimes t = [(p, stamp, stamp, Raise e)])
            /\ failed_files g' = failed_files g ++ [failure_of p photo])).
Proof.
  intros Hrun.
  pose proof (always_run h _ _ w
    (export_photo_variant_footprint photo path is_edited is_live g)) as H.
  rewrite Hrun in H. cbn [fst snd] in H.
  destruct H as (_ & _ & _ & _ & H5 & _). by apply H5.
Qed.

(** X16: in any environment, one call of [export_photo_variant] pauses
    at most five times, each time for one second. *)
Theorem export_photo_variant_pauses_at_most_five_seconds
    {W : Type} (h : handler W) (w : W)
    (photo : Photo) (path : str) (is_edited is_live : bool) (g : Globals) :
  let '(_, _, _, t) :=
    run h (export_photo_variant photo path is_edited is_live g) w in
  exists k, (k <= 5)%nat /\ sleeps t = replicate k 1.
Proof.
  pose proof (always_run h _ _ w
    (export_photo_variant_footprint photo path is_edited is_live g)) as H.
  destruct (run h _ w) as [[[out g'] w'] t]. cbn [fst snd] in H.
  by destruct H as (_ & H2 & _).
Qed.

(** X17: in any environment, when the target exists and the comparator
    finds it the same as the source of the variant, the call consists
    of the existence check, the comparison and the message that the
    duplicate is skipped; it returns [True] with [duplicates_skipped]
    one higher and nothing else changed. *)
Theorem matching_target_is_skipped
    {W : Type} (h : handler W) (w w1 : W) (t1 : list entry)
    (photo : Photo) (path : str) (is_edited is_live : bool) (g : Globals) :
  let source :=
    if is_edited then PhotoInfo.path_edited photo else PhotoInfo.path photo in
  let seen := h _ (os_path_exists path) w in
  seen.1 = true ->
  run h (file_hashes_match source path) seen.2 = (Return true, w1, t1) ->
  let said := h _ (print (msg_skipping_duplicate is_edited is_live path)) w1 in
  run h (export_photo_variant photo path is_edited is_live g) w
  = ((Return true, skipped_once g), said.2,
     [Entry (os_path_exists path) true] ++ t1
     ++ [Entry (print (msg_skipping_duplicate is_edited is_live path)) said.1]).
Proof.
  intros source seen Hseen Hcmp said.
  unfold export_photo_variant. cbn [then_ unit_ M_sequenced].
  rewrite run_bind, run_lift, run_ask. fold seen. rewrite Hseen. cbn [fst snd].
  fold source. rewrite run_bind, run_lift, Hcmp. cbn [negb].
  unfold vprint, VERBOSE.
  rewrite run_bind, run_lift, run_ask. fold said. cbn [fst snd].
  rewrite run_bind. unfold bump. rewrite run_modify, run_ret.
  by rewrite !app_nil_r.
Qed.

(** X18: in any environment, when the target exists with other
    content, no sibling exists yet and the export succeeds, the call
    makes exactly this one export, counts the variant as exported and
    returns [False]. If the sibling exists after the export,
    [duplicates_created] goes up by one and the file time is set on the
    sibling (a failure entry, if any, is for the sibling); otherwise
    [duplicates_created] is unchanged and the target is the file that
    is polled and stamped. *)
Theorem mismatching_target_is_exported_beside
    {W : Type} (h : handler W) (w w1 : W) (t1 : list entry)
    (photo : Photo) (path : str) (is_edited is_live : bool) (g : Globals) :
  let source :=
    if is_edited then PhotoInfo.path_edited photo else PhotoInfo.path photo in
  let stamp := Datetime.timestamp (PhotoInfo.date photo) in
  let seen := h _ (os_path_exists path) w in
  seen.1 = true ->
  run h (file_hashes_match source path) seen.2 = (Return false, w1, t1) ->
  let announced := h _ (print (msg_exporting is_edited is_live path)) w1 in
  let before := h _ (os_path_exists (duplicate_path path)) announced.2 in
  before.1 = false ->
  let exported :=
    h _ (photo_export photo (Path.dirname path) (Path.basename path)
           is_edited is_live) before.2 in
  exported.1 = Return tt ->
  let created := (h _ (os_path_exists (duplicate_path path)) exported.2).1 in
  let stamped := if created then duplicate_path path else path in
  let '(out, g', _, t) :=
    run h (export_photo_variant photo path is_edited is_live g) w in
  out = Return false
  /\ export_calls t
     = [(photo, Path.dirname path, Path.basename path, is_edited, is_live)]
  /\ report g'
     = inc_variant is_edited is_live
         (if created then inc_duplicates_created (report g) else report g)
  /\ (failed_files g' = failed_files g
      \/ failed_files g' = failed_files g ++ [failure_of stamped photo])
  /\ (utimes t = [] \/ exists r, utimes t = [(stamped, stamp, stamp, r)]).
Proof.
  intros source stamp seen Hseen Hcmp announced before Hbefore exported Hexp
    created stamped.
  pose proof (always_run h _ _ seen.2 (file_hashes_match_footprint source path))
    as Ht1.
  rewrite Hcmp in Ht1. cbn [fst snd] in Ht1. destruct Ht1 as [(E1 & U1 & S1) _].
  unfold export_photo_variant. cbn [then_ unit_ M_sequenced].
  rewrite run_bind, run_lift, run_ask. fold seen. rewrite Hseen. cbn [fst snd].
  fold source. rewrite run_bind, run_lift, Hcmp. cbn [negb].
  unfold vprint, VERBOSE.
  rewrite run_bind, run_lift, run_ask. fold announced. cbn [fst snd].
  rewrite run_bind, run_lift, run_ask. fold before. rewrite Hbefore.
  cbn [fst snd negb].
  rewrite run_bind, run_bind. unfold do_export.
  rewrite run_lift, run_call. fold exported. rewrite Hexp. cbn [fst snd].
  rewrite run_ret.
  rewrite run_bind, run_lift, run_ask. fold created. cbn [fst snd].
  rewrite andb_true_r.
  match goal with
  | |- context [run h ?m ?w3] =>
      assert (always m
        (fun t out =>
           export_calls t = [] /\ out.1 = Return false
           /\ report out.2
              = inc_variant is_edited is_live
                  (if created then inc_duplicates_created (report g)
                   else report g)
           /\ (failed_files out.2 = failed_files g
               \/ failed_files out.2 = failed_files g ++ [failure_of stamped photo])
           /\ (utimes t = [] \/ exists r, utimes t = [(stamped, stamp, stamp, r)])))
        as Hrest;
      [| apply (always_run h _ _ w3) in Hrest;
         destruct (run h m w3) as [[[out g'] w'] t'];
         cbn [fst snd] in *;
         destruct Hrest as (H1 & H2 & H3 & H4 & H5);
         split_and!; [done | | done | done |];
         rewrite ?export_calls_app, ?utimes_app;
         cbn [app export_calls utimes as_export];
         rewrite ?export_calls_app, ?utimes_app, ?E1, ?U1, ?H1;
         cbn [app export_calls utimes as_export]; done ]
  end.
  subst stamped. destruct created.
  all: repeat fstep.
  all: cbn beta; cbn [fst snd report failed_files].
  all: repeat match goal with
       | H : _ \/ _ |- _ => destruct H
       end.
  all: rewrite ?export_calls_app, ?utimes_app.
  all: cbn [export_calls utimes as_export app].
  all: repeat match goal with
       | H : export_calls _ = _ |- _ => rewrite ?H; clear H
       | H : utimes _ = _ |- _ => rewrite ?H; clear H
       end.
  all: cbn [app]; rewrite ?app_nil_r.
  all: unfold failure_of, stamp; split_and!; by eauto.
Qed.

(** ** The account of a run *)

Lemma makedirs_calls_app t1 t2 :
  makedirs_calls (t1 ++ t2) = makedirs_calls t1 ++ makedirs_calls t2.
Proof.
  induction t1 as [| [X e x] t1 IH]; [done |].
  destruct e; simpl; by rewrite IH.
Qed.

Lemma printed_app t1 t2 : printed (t1 ++ t2) = printed t1 ++ printed t2.
Proof.
  induction t1 as [| [X e x] t1 IH]; [done |].
  destruct e; simpl; by rewrite IH.
Qed.

Lemma enumerations_app t1 t2 :
  enumerations (t1 ++ t2) = enumerations t1 ++ enumerations t2.
Proof.
  induction t1 as [| [X e x] t1 IH]; [done |].
  destruct e; simpl; by rewrite IH.
Qed.

Lemma inner_trace t :
  Forall inner t -> makedirs_calls t = [] /\ Forall body_entry t.
Proof.
  induction 1 as [| [X e x] t Hen _ [IH1 IH2]]; [done |].
  destruct e; simpl in *; try done; (split; [done |]); by constructor.
Qed.

Lemma body_trace t :
  Forall body_entry t ->
  enumerations t = [] /\ Forall variant_message (printed t).
Proof.
  induction 1 as [| [X e x] t Hen _ [IH1 IH2]]; [done |].
  destruct e; simpl in *; try done. split; [done |]. by constructor.
Qed.

Lemma print_trace t :
  Forall is_print t ->
  export_calls t = [] /\ makedirs_calls t = [] /\ enumerations t = [].
Proof.
  induction 1 as [| [X e x] t Hen _ (IH1 & IH2 & IH3)]; [done |].
  destruct e; simpl in *; done.
Qed.

Lemma file_hashes_match_inner a b : confined inner (file_hashes_match a b).
Proof.
  unfold file_hashes_match, hash_compare, perceptual_compare, open_image,
    heic_to_pil, file_hash.
  cbn [then_ unit_ io_sequenced].
  confine; done.
Qed.

Lemma poll_timestamp_inner n p photo : confined inner (poll_timestamp n p photo).
Proof.
  induction n as [| n IH]; [apply confined_Ret | rewrite poll_timestamp_S].
  confine; try done.
Qed.

Lemma export_photo_variant_inner photo path is_edited is_live :
  confinedM inner (export_photo_variant photo path is_edited is_live).
Proof.
  unfold export_photo_variant, do_export.
  cbn [then_ unit_ M_sequenced].
  confine.
  all: try done.
  all: first [apply file_hashes_match_inner | apply poll_timestamp_inner].
Qed.

(** What one call of [export_photo_variant] adds: [x] to the counter of
    its variant, [s] to the duplicates skipped, [c] to the duplicates
    created and [f] to the failure list. *)
Lemma call_tally photo path is_edited is_live g :
  always (export_photo_variant photo path is_edited is_live g) (fun t out =>
    exists (x s c : Z) (f : list FailedFile),
      let exports := Z.of_nat (length (export_calls t)) in
      tally g out.2
        (if negb is_edited && negb is_live then x else 0)
        (if is_edited then x else 0)
        (if negb is_edited && is_live then x else 0) s c f
      /\ (0 <= x /\ 0 <= s /\ 0 <= c)
      /\ c <= exports /\ Z.of_nat (length f) <= x
      /\ makedirs_calls t = [] /\ Forall body_entry t
      /\ match out.1 with
         | Return b => exports <= x /\ x + s = 1 /\ (b = true <-> s = 1)
         | Raise _ => x = 0 /\ s = 0
         end).
Proof.
  eapply always_mono;
    [| apply always_conj;
       [apply always_conj;
          [apply export_photo_variant_outcomes
          | apply export_photo_variant_footprint]
       | apply export_photo_variant_inner]].
  cbn beta. intros t [out g'] [[Hout Hfoot] Hinner].
  apply inner_trace in Hinner as [Hm Hp].
  destruct Hfoot as (Hexp & _ & Htrue & _ & _ & Hcreated).
  cbn [fst snd] in *.
  inversion Hout as [| created failed Hfailed | e]; subst.
  - exists 0, 1, 0, []. destruct (Htrue eq_refl) as (-> & _ & _).
    unfold tally; cbn. rewrite app_nil_r.
    split_and!; try done; try lia; destruct is_edited, is_live; cbn; lia.
  - exists 1, 0, (if created then 1 else 0),
      (match failed with Some p => [failure_of p photo] | None => [] end).
    assert ((if created then 1 else 0)
            <= Z.of_nat (length (export_calls t))) as Hc.
    { destruct created; [| lia]. rewrite Hcreated; [simpl; lia |].
      cbn. destruct is_edited, is_live; cbn; lia. }
    assert (Z.of_nat (length (export_calls t)) <= 1) as Hle
      by (destruct Hexp as [-> | ->]; simpl; lia).
    unfold tally, exported_state; cbn.
    split_and!; try done; try lia.
    all: try (destruct created, is_edited, is_live; cbn; lia).
    + destruct failed; [done | by rewrite app_nil_r].
    + destruct failed; simpl; lia.
  - exists 0, 0, 0, []. unfold tally; cbn. rewrite app_nil_r.
    split_and!; try done; try lia; destruct is_edited, is_live; cbn; lia.
Qed.

Lemma count_cons p photo photos :
  count p (photo :: photos) = (if p photo then 1 else 0) + count p photos.
Proof.
  unfold count. rewrite filter_cons.
  destruct (p photo); case_decide; try done; simpl; lia.
Qed.

Lemma count_nil p : count p [] = 0.
Proof. done. Qed.

Lemma tally_refl g : tally g g 0 0 0 0 0 [].
Proof. unfold tally. rewrite app_nil_r. split_and!; try done; lia. Qed.

Lemma tally_trans g g1 g2 o1 e1 l1 s1 c1 f1 o2 e2 l2 s2 c2 f2 :
  tally g g1 o1 e1 l1 s1 c1 f1 -> tally g1 g2 o2 e2 l2 s2 c2 f2 ->
  tally g g2 (o1 + o2) (e1 + e2) (l1 + l2) (s1 + s2) (c1 + c2) (f1 ++ f2).
Proof.
  unfold tally. intros (A1 & A2 & A3 & A4 & A5 & A6) (B1 & B2 & B3 & B4 & B5 & B6).
  rewrite B1, B2, B3, B4, B5, B6, A1, A2, A3, A4, A5, A6, app_assoc.
  split_and!; try done; lia.
Qed.

(** The account of an optional further variant of a photo: the call is
    made when [wanted]. *)
Lemma optional_variant_tally photo path is_edited is_live (wanted : bool) g :
  always
    ((if wanted
      then bind (export_photo_variant photo path is_edited is_live)
                (fun _ => ret tt)
      else ret tt) g)
    (fun t out =>
       exists (x s c : Z) (f : list FailedFile),
         let exports := Z.of_nat (length (export_calls t)) in
         tally g out.2
           (if negb is_edited && negb is_live then x else 0)
           (if is_edited then x else 0)
           (if negb is_edited && is_live then x else 0) s c f
         /\ (0 <= x /\ 0 <= s /\ 0 <= c)
         /\ c <= exports /\ Z.of_nat (length f) <= x
         /\ makedirs_calls t = [] /\ Forall body_entry t
         /\ x <= (if wanted then 1 else 0)
         /\ (forall u, out.1 = Return u -> exports <= x)).
Proof.
  destruct wanted.
  - apply always_bind. eapply always_mono; [| apply call_tally].
    intros t [[b | e] g1] (x & s & c & f & Ht & Hn & Hc & Hf & Hm & Hp & Hr);
      cbn [fst snd] in *.
    + apply always_ret. rewrite app_nil_r. cbn [fst snd].
      exists x, s, c, f. split_and!; try done; try lia.
    + exists x, s, c, f. cbn [fst snd].
      split_and!; try done; try lia.
  - apply always_ret. exists 0, 0, 0, []. cbn [fst snd export_calls length].
    pose proof (tally_refl g) as Ht.
    split_and!; try done; try lia.
    by destruct is_edited, is_live.
Qed.

Ltac body_entries :=
  repeat first
    [ assumption
    | exact I
    | apply Forall_app; split
    | apply List.Forall_cons
    | apply List.Forall_nil ].

Lemma export_one_accounted photo g :
  always (export_one photo g) (fun t out => accounted [photo] g t out).
Proof.
  unfold export_one. cbn [then_ unit_ M_sequenced].
  apply always_bind. apply always_call. intros [[] | e0]; cbn [fst snd].
  2:{ exists 0, 0, 0, 0, 0, []. cbn.
      split_and!; try done; try lia; [apply tally_refl | body_entries]. }
  apply always_bind. eapply always_mono; [| apply call_tally].
  intros t1 [[[|] | e1] g1] (x1 & s1 & c1 & f1 & Ht1 & Hn1 & Hc1 & Hf1 & Hm1 & Hp1 & Hr1);
    cbn [fst snd negb andb] in *.
  - (* the Original is a duplicate *)
    apply always_ret. cbn [fst snd]. rewrite !app_nil_r.
    exists x1, 0, 0, s1, c1, f1.
    cbn [app export_calls as_export makedirs_calls length map].
    rewrite Hm1, !count_cons, !count_nil.
    destruct Hr1 as (Hr1a & Hr1b & Hr1c).
    assert (s1 = 1) as Hs1 by (by apply Hr1c).
    split_and!; try done; try lia; try body_entries.
    intros _. split_and!; try done; try lia.
    all: destruct (PhotoInfo.hasadjustments photo), (PhotoInfo.live_photo photo); lia.
  - (* the Original is exported: the other variants follow *)
    apply always_bind.
    eapply always_mono;
      [| apply (optional_variant_tally photo (edited_path photo) true false)].
    intros t2 [[[] | e2] g2] (x2 & s2 & c2 & f2 & Ht2 & Hn2 & Hc2 & Hf2 & Hm2 & Hp2 & Hw2 & Hr2);
      cbn [fst snd negb andb] in *.
    + eapply always_mono;
        [| apply (optional_variant_tally photo (live_photo_path photo) false true)].
      intros t3 [r3 g3] (x3 & s3 & c3 & f3 & Ht3 & Hn3 & Hc3 & Hf3 & Hm3 & Hp3 & Hw3 & Hr3);
        cbn [fst snd negb andb] in *.
      exists x1, x2, x3, (s1 + s2 + s3), (c1 + c2 + c3), (f1 ++ f2 ++ f3).
      pose proof (tally_trans _ _ _ _ _ _ _ _ _ _ _ _ _ _ _ Ht1
                    (tally_trans _ _ _ _ _ _ _ _ _ _ _ _ _ _ _ Ht2 Ht3)) as Ht.
      cbn [app export_calls as_export makedirs_calls length map fst snd].
      rewrite !export_calls_app, !makedirs_calls_app, !length_app,
        Hm1, Hm2, Hm3, !count_cons, !count_nil.
      split_and!; try done; try lia.
      * replace (x1 + (0 + 0)) with x1 in Ht by lia.
        replace (0 + (x2 + 0)) with x2 in Ht by lia.
        replace (0 + (0 + x3)) with x3 in Ht by lia.
        replace (s1 + (s2 + s3)) with (s1 + s2 + s3) in Ht by lia.
        replace (c1 + (c2 + c3)) with (c1 + c2 + c3) in Ht by lia.
        exact Ht.
      * body_entries.
      * intros ->. specialize (Hr3 tt eq_refl). specialize (Hr2 tt eq_refl).
        split_and!; try done; try lia.
        all: destruct (PhotoInfo.hasadjustments photo), (PhotoInfo.live_photo photo); lia.
    + exists x1, x2, 0, (s1 + s2), (c1 + c2), (f1 ++ f2).
      pose proof (tally_trans _ _ _ _ _ _ _ _ _ _ _ _ _ _ _ Ht1 Ht2) as Ht.
      cbn [app export_calls as_export makedirs_calls length map fst snd].
      rewrite !export_calls_app, !makedirs_calls_app, !length_app,
        Hm1, Hm2.
      split_and!; try done; try lia.
      * replace (x1 + 0) with x1 in Ht by lia.
        replace (0 + x2) with x2 in Ht by lia.
        replace (0 + 0) with 0 in Ht by lia.
        exact Ht.
      * body_entries.
  - (* the call for the Original raises *)
    exists x1, 0, 0, s1, c1, f1.
    cbn [app export_calls as_export makedirs_calls length map fst snd].
    rewrite Hm1. split_and!; try done; try lia; try body_entries.
Qed.

Lemma count_app p photos1 photos2 :
  count p (photos1 ++ photos2) = count p photos1 + count p photos2.
Proof. unfold count. rewrite filter_app, length_app. lia. Qed.

Lemma accounted_app photos1 photos2 g g1 t1 t2 out :
  accounted photos1 g t1 (Return tt, g1) ->
  accounted photos2 g1 t2 out ->
  accounted (photos1 ++ photos2) g (t1 ++ t2) out.
Proof.
  intros (o1 & e1 & l1 & s1 & c1 & f1 & Ht1 & Hn1 & Hc1 & Hf1 & Hm1 & Hp1 & Hr1)
         (o2 & e2 & l2 & s2 & c2 & f2 & Ht2 & Hn2 & Hc2 & Hf2 & Hm2 & Hp2 & Hr2).
  cbn [fst snd] in *. destruct (Hr1 eq_refl) as (R1 & R2 & R3 & R4 & R5).
  exists (o1 + o2), (e1 + e2), (l1 + l2), (s1 + s2), (c1 + c2), (f1 ++ f2).
  cbn zeta.
  rewrite export_calls_app, makedirs_calls_app, !length_app,
    !count_app, map_app, R5.
  split_and!; try lia.
  - by eapply tally_trans.
  - by apply prefix_app.
  - by apply Forall_app.
  - intros Hout. destruct (Hr2 Hout) as (Q1 & Q2 & Q3 & Q4 & Q5).
    rewrite Q5. split_and!; try done; lia.
Qed.

Lemma accounted_raise photos1 photos2 g g1 t e :
  accounted photos1 g t (Raise e, g1) ->
  accounted (photos1 ++ photos2) g t (Raise e, g1).
Proof.
  intros (o1 & e1 & l1 & s1 & c1 & f1 & Ht1 & Hn1 & Hc1 & Hf1 & Hm1 & Hp1 & Hr1).
  exists o1, e1, l1, s1, c1, f1. cbn [fst snd] in *.
  split_and!; try done; try lia.
  rewrite map_app.
  by apply prefix_app_r.
Qed.

Lemma for_each_accounted photos g :
  always (for_each photos export_one g) (fun t out => accounted photos g t out).
Proof.
  revert g; induction photos as [| photo photos IH]; intros g.
  - apply always_ret. exists 0, 0, 0, 0, 0, []. cbn.
    split_and!; try done; try lia. apply tally_refl.
  - cbn [for_each then_ M_sequenced]. apply always_bind.
    eapply always_mono; [| apply export_one_accounted].
    intros t1 [[[] | e] g1] H1; cbn [fst snd].
    + eapply always_mono; [| apply IH].
      intros t2 out H2. by apply (accounted_app [photo] photos g g1).
    + by apply (accounted_raise [photo] photos).
Qed.

Lemma print_failed_files_trace (l : list FailedFile) g :
  always (for_each l (fun file => lift (ask (print (msg_failed_file file)))) g)
    (fun t out =>
       out = (Return tt, g) /\ printed t = map msg_failed_file l
       /\ Forall is_print t).
Proof.
  induction l as [| file l IH]; [by apply always_ret |].
  cbn [for_each then_ M_sequenced]. repeat step.
  eapply always_mono; [| exact IH].
  intros t out (-> & Hp & Ht). cbn [app printed map].
  split_and!; [done | by rewrite Hp | by constructor].
Qed.

(** The report is printed from the globals, which it leaves as they are. *)
Lemma print_report_trace g :
  always (print_report g) (fun t out =>
    out = (Return tt, g) /\ printed t = report_lines g /\ Forall is_print t).
Proof.
  unfold print_report. cbn [then_ unit_ M_sequenced].
  repeat step.
  eapply always_mono; [| apply print_failed_files_trace].
  intros t out (-> & Hp & Ht). cbn [app printed].
  split_and!; [done | by rewrite Hp | by repeat constructor].
Qed.

(** The account of a whole run: the two enumerations and the count of
    the photos found, the loop, and the report when the loop ends. *)
Lemma export_photos_accounted TODAY g :
  always (export_photos TODAY g) (fun t out =>
    exists listed u library t_loop t_report,
      let photos := filter (since_start TODAY) library in
      let found :=
        msg_found (Z.of_nat (length (filter (since_start TODAY) listed)))
                  (START_DATE TODAY) in
      t = Entry photosdb_photos listed :: Entry (print found) u
          :: Entry photosdb_photos library :: t_loop ++ t_report
      /\ accounted photos g t_loop out
      /\ match out.1 with
         | Return _ =>
             printed t_report = report_lines out.2 /\ Forall is_print t_report
         | Raise _ => t_report = []
         end).
Proof.
  unfold export_photos. cbn [then_ unit_ M_sequenced].
  repeat step.
  eapply always_mono; [| apply for_each_accounted].
  intros t1 [[[] | e] g1] H1; cbn [fst snd].
  - eapply always_mono; [| apply print_report_trace].
    intros t2 out (-> & Hp & Ht). cbn [fst snd app].
    by eexists _, _, _, t1, t2.
  - eexists _, _, _, t1, []. cbn [fst snd app].
    by rewrite !app_nil_r.
Qed.

Lemma export_photos_parts {W} (h : handler W) (w : W) (TODAY : date) (g : Globals) :
  let '(out, g', _, t) := run h (export_photos TODAY g) w in
  exists listed library t_loop t_report,
    let photos := filter (since_start TODAY) library in
    let found :=
      msg_found (Z.of_nat (length (filter (since_start TODAY) listed)))
                (START_DATE TODAY) in
    enumerations t = [listed; library]
    /\ export_calls t = export_calls t_loop
    /\ makedirs_calls t = makedirs_calls t_loop
    /\ printed t = found :: printed t_loop ++ printed t_report
    /\ accounted photos g t_loop (out, g')
    /\ match out with
       | Return _ => printed t_report = report_lines g'
       | Raise _ => t_report = []
       end.
Proof.
  pose proof (always_run h _ _ w (export_photos_accounted TODAY g)) as H.
  destruct (run h _ w) as [[[out g'] w'] t]. cbn [fst snd] in H.
  destruct H as (listed & u & library & t_loop & t_report & -> & Hacc & Hrep).
  exists listed, library, t_loop, t_report.
  assert (enumerations t_loop = []) as Hen.
  { destruct Hacc as (? & ? & ? & ? & ? & ? & _ & _ & _ & _ & _ & Hb & _).
    by apply body_trace in Hb as [? _]. }
  assert (export_calls t_report = [] /\ makedirs_calls t_report = []
          /\ enumerations t_report = []) as (E1 & E2 & E3).
  { destruct out as [[] | e].
    - destruct Hrep as [_ Hp]. by apply print_trace.
    - by rewrite Hrep. }
  cbn [enumerations export_calls as_export makedirs_calls printed].
  rewrite enumerations_app, export_calls_app, makedirs_calls_app, printed_app,
    Hen, E1, E2, E3, !app_nil_r.
  split_and!; try done.
  destruct out; [by destruct Hrep | done].
Qed.

(** X21: in any environment and whether the run ends or raises, no
    counter of the report goes down during [export_photos], and the
    failure list only grows at its end. *)
Theorem run_never_loses_count
    {W : Type} (h : handler W) (w : W) (TODAY : date) (g : Globals) :
  let '(_, g', _, _) := run h (export_photos TODAY g) w in
  originals_exported (report g) <= originals_exported (report g')
  /\ edits_exported (report g) <= edits_exported (report g')
  /\ live_photos_exported (report g) <= live_photos_exported (report g')
  /\ duplicates_skipped (report g) <= duplicates_skipped (report g')
  /\ duplicates_created (report g) <= duplicates_created (report g')
  /\ failed_files g `prefix_of` failed_files g'.
Proof.
  pose proof (export_photos_parts h w TODAY g) as H.
  destruct (run h _ w) as [[[out g'] w'] t].
  destruct H as (listed & library & t_loop & t_report & _ & _ & _ & _ & Hacc & _).
  destruct Hacc as (o & e & l & s & c & f & Ht & Hn & _).
  cbn [fst snd] in Ht. destruct Ht as (T1 & T2 & T3 & T4 & T5 & T6).
  split_and!; try lia. rewrite T6. by apply prefix_app_r.
Qed.

(** X22: in any environment, a run of [export_photos] that ends has
    accounted for every processed photo: with [photos] the recent
    photos of the second enumeration, [originals_exported] has grown by
    at most their number, [originals_exported] and [duplicates_skipped]
    together by at least their number, [edits_exported] by at most the
    number of photos with adjustments and [live_photos_exported] by at
    most the number of live photos. *)
Theorem completed_run_accounts_for_every_photo
    {W : Type} (h : handler W) (w w' : W) (t : list entry)
    (TODAY : date) (g g' : Globals) :
  run h (export_photos TODAY g) w = ((Return tt, g'), w', t) ->
  exists listed library,
    enumerations t = [listed; library]
    /\ let photos := filter (since_start TODAY) library in
       let added (counter : Report -> Z) :=
         counter (report g') - counter (report g) in
       added originals_exported <= Z.of_nat (length photos)
       /\ Z.of_nat (length photos)
          <= added originals_exported + added duplicates_skipped
       /\ added edits_exported <= count PhotoInfo.hasadjustments photos
       /\ added live_photos_exported <= count PhotoInfo.live_photo photos.
Proof.
  intros Hrun. pose proof (export_photos_parts h w TODAY g) as H.
  rewrite Hrun in H.
  destruct H as (listed & library & t_loop & t_report & Hen & _ & _ & _ & Hacc & _).
  exists listed, library. split; [done |].
  destruct Hacc as (o & e & l & s & c & f & Ht & Hn & _ & _ & _ & _ & Hr).
  cbn [fst snd] in Ht, Hr. destruct Ht as (T1 & T2 & T3 & T4 & T5 & T6).
  destruct (Hr eq_refl) as (R1 & R2 & R3 & R4 & R5).
  cbn zeta. split_and!; lia.
Qed.

(** X23: in any environment, in a run of [export_photos] that ends,
    every call of [photo.export] is counted: the number of exports is
    at most the growth of the three exported counters together, at
    least the growth of [duplicates_created], and the failure list has
    grown by at most the growth of the exported counters. *)
Theorem completed_run_counts_every_export
    {W : Type} (h : handler W) (w w' : W) (t : list entry)
    (TODAY : date) (g g' : Globals) :
  run h (export_photos TODAY g) w = ((Return tt, g'), w', t) ->
  let added (counter : Report -> Z) :=
    counter (report g') - counter (report g) in
  let exported :=
    added originals_exported + added edits_exported
    + added live_photos_exported in
  added duplicates_created <= Z.of_nat (length (export_calls t))
  /\ Z.of_nat (length (export_calls t)) <= exported
  /\ Z.of_nat (length (failed_files g')) - Z.of_nat (length (failed_files g))
     <= exported.
Proof.
  intros Hrun. pose proof (export_photos_parts h w TODAY g) as H.
  rewrite Hrun in H.
  destruct H as (listed & library & t_loop & t_report & _ & -> & _ & _ & Hacc & _).
  destruct Hacc as (o & e & l & s & c & f & Ht & Hn & Hc & Hf & _ & _ & Hr).
  cbn [fst snd] in Ht, Hr. destruct Ht as (T1 & T2 & T3 & T4 & T5 & T6).
  destruct (Hr eq_refl) as (R1 & R2 & R3 & R4 & R5).
  cbn zeta. rewrite T6, length_app. split_and!; lia.
Qed.

(** X24: in any environment, the directories asked of [os.makedirs]
    during a run are the year and month directories of the photos to
    process, one per photo and in the order of the enumeration: all of
    them when the run ends, a prefix of them when it raises. *)
Theorem directories_are_made_in_order
    {W : Type} (h : handler W) (w : W) (TODAY : date) (g : Globals) :
  let '(out, _, _, t) := run h (export_photos TODAY g) w in
  exists listed library,
    enumerations t = [listed; library]
    /\ let directories :=
         map year_month_path (filter (since_start TODAY) library) in
       makedirs_calls t `prefix_of` directories
       /\ (out = Return tt -> makedirs_calls t = directories).
Proof.
  pose proof (export_photos_parts h w TODAY g) as H.
  destruct (run h _ w) as [[[out g'] w'] t].
  destruct H as (listed & library & t_loop & t_report & Hen & _ & -> & _ & Hacc & _).
  exists listed, library. split; [done |].
  destruct Hacc as (o & e & l & s & c & f & _ & _ & _ & _ & Hm & _ & Hr).
  cbn [fst snd] in Hr. cbn zeta. split; [done |].
  intros Hout. by destruct (Hr Hout) as (_ & _ & _ & _ & R5).
Qed.

(** X25: in any environment, what a run of [export_photos] that ends
    has printed is the count of the photos found in the first
    enumeration, then messages about single variants, then the report:
    the header, the five counters with their final values, and one
    line for each entry of the final failure list, in order. *)
Theorem completed_run_prints_final_report
    {W : Type} (h : handler W) (w w' : W) (t : list entry)
    (TODAY : date) (g g' : Globals) :
  run h (export_photos TODAY g) w = ((Return tt, g'), w', t) ->
  exists listed library messages,
    enumerations t = [listed; library]
    /\ Forall variant_message messages
    /\ printed t
       = msg_found (Z.of_nat (length (filter (since_start TODAY) listed)))
                   (START_DATE TODAY)
         :: messages ++ report_lines g'.
Proof.
  intros Hrun. pose proof (export_photos_parts h w TODAY g) as H.
  rewrite Hrun in H.
  destruct H as (listed & library & t_loop & t_report & Hen & _ & _ & Hp & Hacc & Hrep).
  exists listed, library, (printed t_loop).
  destruct Hacc as (o & e & l & s & c & f & _ & _ & _ & _ & _ & Hb & _).
  apply body_trace in Hb as [_ Hb].
  split_and!; [done | done |]. by rewrite Hp, Hrep.
Qed.


Lemma export_photos_nothing_recent TODAY g :
  always (export_photos TODAY g) (fun t out =>
    forall listed library,
      enumerations t = [listed; library] ->
      filter (since_start TODAY) library = [] ->
      out = (Return tt, g)
      /\ export_calls t = [] /\ makedirs_calls t = []
      /\ printed t
         = msg_found (Z.of_nat (length (filter (since_start TODAY) listed)))
                     (START_DATE TODAY)
           :: report_lines g).
Proof.
  unfold export_photos. cbn [then_ unit_ M_sequenced].
  repeat step.
  match goal with
  | |- always (for_each (filter _ ?l) _ _) _ =>
      destruct (filter (since_start TODAY) l) as [| photo photos] eqn:Hf
  end.
  - cbn [for_each unit_ M_sequenced]. apply always_ret. cbn [fst snd].
    eapply always_mono; [| apply print_report_trace].
    intros t out (-> & Hp & Ht) listed library Hen _.
    apply print_trace in Ht as (E1 & E2 & E3).
    cbn [app enumerations export_calls as_export makedirs_calls printed] in *.
    rewrite E3 in Hen. injection Hen as <- <-.
    by rewrite E1, E2, Hp.
  - apply always_intro. intros t1 [[[] | e] g1]; cbn [fst snd].
    + apply always_intro. intros t2 out listed library Hen Hnil.
      cbn [app enumerations] in Hen. injection Hen as _ <- _. congruence.
    + intros listed library Hen Hnil.
      cbn [app enumerations] in Hen. injection Hen as _ <- _. congruence.
Qed.

(** X27: in any environment, when no photo of the second enumeration
    is as recent as the start date, the run makes no directory and no
    export, leaves the globals as they were and ends after printing the
    count of the photos found and the report. *)
Theorem nothing_recent_only_reports
    {W : Type} (h : handler W) (w w' : W) (t : list entry)
    (TODAY : date) (g g' : Globals) (out : res unit)
    (listed library : list Photo) :
  run h (export_photos TODAY g) w = ((out, g'), w', t) ->
  enumerations t = [listed; library] ->
  filter (since_start TODAY) library = [] ->
  out = Return tt /\ g' = g
  /\ export_calls t = [] /\ makedirs_calls t = []
  /\ printed t
     = msg_found (Z.of_nat (length (filter (since_start TODAY) listed)))
                 (START_DATE TODAY)
       :: report_lines g.
Proof.
  intros Hrun Hen Hnil.
  pose proof (always_run h _ _ w (export_photos_nothing_recent TODAY g)) as H.
  rewrite Hrun in H. cbn [fst snd] in H.
  destruct (H listed library Hen Hnil) as ([= -> ->] & H2 & H3 & H4).
  by split_and!.
Qed.

(** ** The further theorems at concrete inputs *)

Import Scenario.

Ltac run_as r Hout :=
  fold r; rewrite <-Hout; clearbody r; by destruct r as [[[? ?] ?] ?].

Lemma year_month_path_witness :
  1 <= month (PhotoInfo.date photo) <= 12
  /\ exists m1 m2 : ascii,
       Str.is_digit m1 = true /\ Str.is_digit m2 = true
       /\ year_month_path photo
          = EXPORT_PATH ++ "/" ++ Str.of_Z (year (PhotoInfo.date photo))
              ++ ["/"%char; m1; m2].
Proof.
  split; [simpl; lia |].
  apply (year_month_path_two_digit_month photo). simpl; lia.
Defined.

Lemma variant_paths_split_witness :
  (Path.sep ∉ PhotoInfo.original_filename photo)
  /\ Path.dirname (original_path photo) = year_month_path photo
  /\ Path.basename (edited_path photo) = "IMG_0042-edited.HEIC"
  /\ Path.basename (live_photo_path photo) = "IMG_0042_HEVC.MOV".
Proof.
  assert (Path.sep ∉ PhotoInfo.original_filename photo) as H
    by (apply (bool_decide_unpack _); by vm_compute).
  split; [exact H |].
  destruct (variant_paths_split photo H) as ([H1 _] & [_ H2] & [_ H3]).
  split_and!; [exact H1 | by rewrite H2 | by rewrite H3].
Defined.

Lemma duplicate_path_single_dot_witness :
  duplicate_path (Path.join "/Volumes/Archive/2023/06" ("IMG_1234" ++ "." ++ "jpg"))
  = Path.join "/Volumes/Archive/2023/06" ("IMG_1234" ++ " (1)." ++ "jpg").
Proof.
  apply duplicate_path_single_dot.
  - done.
  - vm_compute. by intros x [= <-].
  - apply (bool_decide_unpack _). by vm_compute.
  - apply (bool_decide_unpack _). by vm_compute.
  - apply (bool_decide_unpack _). by vm_compute.
  - apply (bool_decide_unpack _). by vm_compute.
Defined.

Lemma duplicate_path_no_dot_witness :
  duplicate_path (Path.join "/Volumes/Archive/2023/06" "README")
  = Path.join "/Volumes/Archive/2023/06" "README".
Proof.
  apply duplicate_path_no_dot.
  - done.
  - vm_compute. by intros x [= <-].
  - apply (bool_decide_unpack _). by vm_compute.
  - apply (bool_decide_unpack _). by vm_compute.
Defined.

Lemma file_hashes_match_raises_witness :
  let r := run Env.handle (file_hashes_match "/a.jpg" "/b.jpg") lost in
  r.1.1 = Raise (FileNotFoundError "/a.jpg")
  /\ exists t0 p,
       (p = ("/a.jpg" : str) \/ p = ("/b.jpg" : str))
       /\ r.2 = t0 ++ [Entry (read_file p) (Raise (FileNotFoundError "/a.jpg"))].
Proof.
  intros r. split; [by vm_compute |].
  apply (file_hashes_match_raises_from_read Env.handle lost r.1.2 r.2
           (FileNotFoundError "/a.jpg") "/a.jpg" "/b.jpg").
  by vm_compute.
Defined.

Lemma duplicate_untouched_witness :
  let r :=
    run Env.handle
      (export_photo_variant photo target false false initial_globals) archived in
  r.1.1.1 = Return true
  /\ export_calls r.2 = [] /\ utimes r.2 = [] /\ sleeps r.2 = []
  /\ r.1.1.2 = skipped_once initial_globals.
Proof.
  intros r.
  assert (r.1.1.1 = Return true) as Hout by (vm_compute; reflexivity).
  split; [exact Hout |].
  apply (duplicate_leaves_destination_untouched Env.handle archived r.1.2 r.2
           photo target false false initial_globals r.1.1.2).
  fold r. rewrite <-Hout. clearbody r. by destruct r as [[[? ?] ?] ?].
Defined.

Lemma raises_before_any_write_witness :
  let r :=
    run Env.handle
      (export_photo_variant photo target false false initial_globals) lost in
  let e := FileNotFoundError (PhotoInfo.path photo) in
  r.1.1.1 = Raise e
  /\ r.1.1.2 = initial_globals /\ utimes r.2 = [] /\ sleeps r.2 = []
  /\ exists t0 en,
       r.2 = t0 ++ [en] /\ (read_failure e en \/ export_failure e en).
Proof.
  intros r e. split; [by vm_compute |].
  apply (export_photo_variant_raises_before_any_write Env.handle lost r.1.2 r.2
           e photo target false false initial_globals r.1.1.2).
  by vm_compute.
Defined.

Lemma timestamp_or_failure_witness :
  let r :=
    run Env.handle
      (export_photo_variant photo target false false initial_globals) fresh in
  let stamp := Datetime.timestamp (PhotoInfo.date photo) in
  r.1.1.1 = Return false
  /\ exists p, (p = target \/ p = duplicate_path target)
       /\ ((utimes r.2 = [(p, stamp, stamp, Return tt)]
            /\ failed_files r.1.1.2 = failed_files initial_globals)
           \/ ((utimes r.2 = []
                \/ exists e, utimes r.2 = [(p, stamp, stamp, Raise e)])
               /\ failed_files r.1.1.2
                  = failed_files initial_globals ++ [failure_of p photo])).
Proof.
  intros r stamp.
  assert (r.1.1.1 = Return false) as Hout by (vm_compute; reflexivity).
  split; [exact Hout |].
  apply (export_photo_variant_timestamp_or_failure Env.handle fresh r.1.2 r.2
           photo target false false initial_globals r.1.1.2).
  fold r. rewrite <-Hout. clearbody r. by destruct r as [[[? ?] ?] ?].
Defined.

Lemma matching_target_witness :
  let seen := Env.handle _ (os_path_exists target) archived in
  let cmp :=
    run Env.handle (file_hashes_match (PhotoInfo.path photo) target) seen.2 in
  let said :=
    Env.handle _ (print (msg_skipping_duplicate false false target)) cmp.1.2 in
  seen.1 = true /\ cmp.1.1 = Return true
  /\ run Env.handle
       (export_photo_variant photo target false false initial_globals) archived
     = ((Return true, skipped_once initial_globals), said.2,
        [Entry (os_path_exists target) true] ++ cmp.2
        ++ [Entry (print (msg_skipping_duplicate false false target)) said.1]).
Proof.
  intros seen cmp said.
  assert (seen.1 = true) as Hseen by (vm_compute; reflexivity).
  assert (cmp.1.1 = Return true) as Hcmp by (vm_compute; reflexivity).
  split; [exact Hseen |]. split; [exact Hcmp |].
  apply (matching_target_is_skipped Env.handle archived cmp.1.2 cmp.2
           photo target false false initial_globals Hseen).
  fold seen cmp. rewrite <-Hcmp. clearbody cmp. by destruct cmp as [[? ?] ?].
Defined.

Lemma mismatching_target_witness :
  let stamp := Datetime.timestamp (PhotoInfo.date photo) in
  let r :=
    run Env.handle
      (export_photo_variant photo target false false initial_globals) mismatched in
  Env.visible mismatched target = true
  /\ Env.visible mismatched (duplicate_path target) = false
  /\ r.1.1.1 = Return false
  /\ export_calls r.2
     = [(photo, Path.dirname target, Path.basename target, false, false)]
  /\ report r.1.1.2
     = inc_originals_exported (inc_duplicates_created (report initial_globals))
  /\ (utimes r.2 = []
      \/ exists x, utimes r.2 = [(duplicate_path target, stamp, stamp, x)]).
Proof.
  intros stamp r. split; [vm_compute; reflexivity |].
  split; [vm_compute; reflexivity |].
  set (seen := Env.handle _ (os_path_exists target) mismatched).
  set (cmp := run Env.handle
                (file_hashes_match (PhotoInfo.path photo) target) seen.2).
  assert (seen.1 = true) as Hseen by (vm_compute; reflexivity).
  assert (cmp.1.1 = Return false) as Hcmp by (vm_compute; reflexivity).
  assert (run Env.handle (file_hashes_match (PhotoInfo.path photo) target) seen.2
          = (Return false, cmp.1.2, cmp.2)) as Hrun.
  { fold cmp. rewrite <-Hcmp. clearbody cmp. by destruct cmp as [[? ?] ?]. }
  pose proof (mismatching_target_is_exported_beside Env.handle mismatched
    cmp.1.2 cmp.2 photo target false false initial_globals Hseen Hrun
    ltac:(vm_compute; reflexivity) ltac:(vm_compute; reflexivity)) as H.
  fold r in H.
  assert ((Env.handle _ (os_path_exists (duplicate_path target))
             (Env.handle _
                (photo_export photo (Path.dirname target) (Path.basename target)
                   false false)
                (Env.handle _ (os_path_exists (duplicate_path target))
                   (Env.handle _ (print (msg_exporting false false target))
                      cmp.1.2).2).2).2).1 = true) as Hcreated
    by (vm_compute; reflexivity).
  rewrite Hcreated in H. clearbody r. destruct r as [[[out g'] w'] t].
  cbn [fst snd]. destruct H as (H1 & H2 & H3 & _ & H5).
  split_and!; [exact H1 | exact H2 | exact H3 | exact H5].
Defined.

Lemma poll_timestamp_seen_witness :
  (1 < 5)%nat
  /\ (Env.handle _ (os_path_exists target) written_late).1 = false
  /\ (Env.handle _ (os_path_exists target)
        (after_polls Env.handle target 1 written_late)).1 = true
  /\ let '(out, _, t) :=
       run Env.handle (poll_timestamp 5 target photo) written_late in
     let stamp := Datetime.timestamp (PhotoInfo.date photo) in
     existence_checks target t = 2%nat
     /\ sleeps t = replicate 1 1
     /\ out = (Env.handle _ (os_utime target stamp stamp)
                 (Env.handle _ (os_path_exists target)
                    (after_polls Env.handle target 1 written_late)).2).1.
Proof.
  split; [lia |]. split; [vm_compute; reflexivity |].
  split; [vm_compute; reflexivity |].
  apply (poll_timestamp_seen Env.handle target photo 5 1 written_late).
  - lia.
  - intros j Hj. replace j with O by lia. vm_compute; reflexivity.
  - vm_compute; reflexivity.
Defined.

Lemma poll_timestamp_absent_witness :
  (forall j, (j < 5)%nat ->
     (Env.handle _ (os_path_exists target)
        (after_polls Env.handle target j lost)).1 = false)
  /\ let '(out, _, t) := run Env.handle (poll_timestamp 5 target photo) lost in
     existence_checks target t = 5%nat
     /\ sleeps t = replicate 5 1
     /\ out = Raise (FileNotFoundError
                       (target ++ " still does not exist after multiple checks.")).
Proof.
  assert (forall j, (j < 5)%nat ->
     (Env.handle _ (os_path_exists target)
        (after_polls Env.handle target j lost)).1 = false) as H.
  { intros j Hj.
    destruct j as [| [| [| [| [| j]]]]]; try lia; vm_compute; reflexivity. }
  split; [exact H |].
  exact (poll_timestamp_absent Env.handle target photo 5 lost H).
Defined.

Lemma two_runs_witness :
  let photos := filter (since_start TODAY) (Env.library fresh) in
  Env.write_delay fresh = 0
  /\ fresh_destination fresh photos
  /\ let '(out1, first, w1, _) :=
       run Env.handle (export_photos TODAY initial_globals) fresh in
     let '(out2, second, w2, t2) :=
       run Env.handle (export_photos TODAY initial_globals) w1 in
     out1 = Return tt
     /\ originals_exported (report first) = Z.of_nat (length photos)
     /\ edits_exported (report first)
        = Z.of_nat (length (filter (fun p => PhotoInfo.hasadjustments p = true) photos))
     /\ live_photos_exported (report first)
        = Z.of_nat (length (filter (fun p => PhotoInfo.live_photo p = true) photos))
     /\ out2 = Return tt /\ w2 = w1 /\ export_calls t2 = []
     /\ duplicates_skipped (report second) = Z.of_nat (length photos)
     /\ originals_exported (report second) = 0
     /\ edits_exported (report second) = 0
     /\ live_photos_exported (report second) = 0.
Proof.
  intros photos.
  assert (fresh_destination fresh photos) as Hfresh.
  { unfold fresh_destination. apply (bool_decide_unpack _).
    vm_compute. reflexivity. }
  split; [reflexivity |]. split; [exact Hfresh |].
  exact (two_runs_on_fresh_destination fresh TODAY eq_refl Hfresh).
Defined.

Lemma completed_run_accounting_witness :
  let r := run Env.handle (export_photos TODAY initial_globals) fresh in
  let g' := r.1.1.2 in
  r.1.1.1 = Return tt
  /\ exists listed library,
       enumerations r.2 = [listed; library]
       /\ let photos := filter (since_start TODAY) library in
          let added (counter : Report -> Z) :=
            counter (report g') - counter (report initial_globals) in
          added originals_exported <= Z.of_nat (length photos)
          /\ Z.of_nat (length photos)
             <= added originals_exported + added duplicates_skipped
          /\ added edits_exported <= count PhotoInfo.hasadjustments photos
          /\ added live_photos_exported <= count PhotoInfo.live_photo photos.
Proof.
  intros r g'.
  assert (r.1.1.1 = Return tt) as Hout by (vm_compute; reflexivity).
  split; [exact Hout |].
  apply (completed_run_accounts_for_every_photo Env.handle fresh r.1.2 r.2
           TODAY initial_globals g').
  subst g'. run_as r Hout.
Defined.

Lemma completed_run_exports_witness :
  let r := run Env.handle (export_photos TODAY initial_globals) fresh in
  let g' := r.1.1.2 in
  r.1.1.1 = Return tt
  /\ let added (counter : Report -> Z) :=
       counter (report g') - counter (report initial_globals) in
     let exported :=
       added originals_exported + added edits_exported
       + added live_photos_exported in
     added duplicates_created <= Z.of_nat (length (export_calls r.2))
     /\ Z.of_nat (length (export_calls r.2)) <= exported
     /\ Z.of_nat (length (failed_files g'))
        - Z.of_nat (length (failed_files initial_globals))
        <= exported.
Proof.
  intros r g'.
  assert (r.1.1.1 = Return tt) as Hout by (vm_compute; reflexivity).
  split; [exact Hout |].
  apply (completed_run_counts_every_export Env.handle fresh r.1.2 r.2
           TODAY initial_globals g').
  subst g'. run_as r Hout.
Defined.

Lemma completed_run_report_witness :
  let r := run Env.handle (export_photos TODAY initial_globals) fresh in
  r.1.1.1 = Return tt
  /\ exists listed library messages,
       enumerations r.2 = [listed; library]
       /\ Forall variant_message messages
       /\ printed r.2
          = msg_found (Z.of_nat (length (filter (since_start TODAY) listed)))
                      (START_DATE TODAY)
            :: messages ++ report_lines r.1.1.2.
Proof.
  intros r.
  assert (r.1.1.1 = Return tt) as Hout by (vm_compute; reflexivity).
  split; [exact Hout |].
  apply (completed_run_prints_final_report Env.handle fresh r.1.2 r.2
           TODAY initial_globals r.1.1.2).
  run_as r Hout.
Defined.


Lemma nothing_recent_witness :
  let r := run Env.handle (export_photos TODAY initial_globals) stale in
  enumerations r.2 = [[old_photo]; [old_photo]]
  /\ filter (since_start TODAY) [old_photo] = []
  /\ r.1.1.1 = Return tt /\ r.1.1.2 = initial_globals
  /\ export_calls r.2 = [] /\ makedirs_calls r.2 = []
  /\ printed r.2
     = msg_found (Z.of_nat (length (filter (since_start TODAY) [old_photo])))
                 (START_DATE TODAY)
       :: report_lines initial_globals.
Proof.
  intros r.
  assert (enumerations r.2 = [[old_photo]; [old_photo]]) as Hen
    by (vm_compute; reflexivity).
  assert (filter (since_start TODAY) [old_photo] = []) as Hnil
    by (vm_compute; reflexivity).
  split; [exact Hen |]. split; [exact Hnil |].
  apply (nothing_recent_only_reports Env.handle stale r.1.2 r.2 TODAY
           initial_globals r.1.1.2 r.1.1.1 [old_photo] [old_photo]);
    [| exact Hen | exact Hnil].
  fold r. clearbody r. by destruct r as [[[? ?] ?] ?].
Defined.
